(** * Animal scraper: text normalisation, splitting, classification,
      validation, deduplication and image download

    A shallow embedding of the Python sources
      - utils/helpers.py
      - scraper/wikipedia_animal_scraper.py
      - processor/data_processor.py
      - downloader/image_downloader.py
      - config.py

    Strings.  A Python [str] is modelled by [string], a sequence of 8-bit
    characters.  The embedding is exact on ASCII text; a character outside
    ASCII is carried as its UTF-8 bytes, which the character classes below
    (white space, digits, letter case) treat as ordinary characters.  The
    em-dash sentinel of the sources is the three bytes of its encoding. *)

From Stdlib Require Import ZArith NArith Ascii String List Bool Lia Sorted.
From Stdlib Require Import DecimalString.
From stdpp Require Import base decidable option list gmap strings.

Local Open Scope string_scope.
Local Open Scope list_scope.

(* ===================================================================== *)
(** * Python string primitives *)
(* ===================================================================== *)

Module PyStr.

(** [str.isspace] on one character, the class [\s] of [re]:
    TAB, LF, VT, FF, CR, FS, GS, RS, US and SPACE. *)
Definition isspace (c : ascii) : bool :=
  let n := N_of_ascii c in
  ((9 <=? n) && (n <=? 13) || (28 <=? n) && (n <=? 32))%N.

(** The class [\d] of [re]. *)
Definition isdigit (c : ascii) : bool :=
  let n := N_of_ascii c in ((48 <=? n) && (n <=? 57))%N.

Definition isalpha (c : ascii) : bool :=
  let n := N_of_ascii c in
  ((65 <=? n) && (n <=? 90) || (97 <=? n) && (n <=? 122))%N.

Definition lower_char (c : ascii) : ascii :=
  let n := N_of_ascii c in
  if ((65 <=? n) && (n <=? 90))%N then ascii_of_N (n + 32) else c.

(** [s.lower()] *)
Fixpoint lower (s : string) : string :=
  match s with
  | EmptyString => EmptyString
  | String c s' => String (lower_char c) (lower s')
  end.

(** [len(s)] *)
Definition len (s : string) : nat := String.length s.

(** [s.lstrip(chars)] and [s.rstrip(chars)] for a class [p] of characters. *)
Fixpoint lstrip_by (p : ascii -> bool) (s : string) : string :=
  match s with
  | EmptyString => EmptyString
  | String c s' => if p c then lstrip_by p s' else s
  end.

Fixpoint rstrip_by (p : ascii -> bool) (s : string) : string :=
  match s with
  | EmptyString => EmptyString
  | String c s' =>
      match rstrip_by p s' with
      | EmptyString => if p c then EmptyString else String c EmptyString
      | r => String c r
      end
  end.

Definition strip_by (p : ascii -> bool) (s : string) : string :=
  rstrip_by p (lstrip_by p s).

(** [s.strip()] *)
Definition strip (s : string) : string := strip_by isspace s.

(** [s.startswith(p)] *)
Fixpoint startswith (p s : string) : bool :=
  match p, s with
  | EmptyString, _ => true
  | String a p', String b s' => Ascii.eqb a b && startswith p' s'
  | String _ _, EmptyString => false
  end.

(** [t in s], the substring test. *)
Fixpoint str_in (t s : string) : bool :=
  startswith t s ||
  match s with
  | EmptyString => false
  | String _ s' => str_in t s'
  end.

(** [x in xs] for a list of strings. *)
Definition in_list (x : string) (xs : list string) : bool :=
  existsb (String.eqb x) xs.

(** [s.split(sep)] for a non-empty separator: the occurrences of [sep]
    are found from the left and do not overlap.  [skip] counts the
    characters of a separator that are still to be passed over. *)
Fixpoint split_go (sep : string) (skip : nat) (s : string) : list string :=
  match s with
  | EmptyString => [EmptyString]
  | String c s' =>
      match skip with
      | S k => split_go sep k s'
      | O =>
          if startswith sep s
          then EmptyString :: split_go sep (String.length sep - 1) s'
          else match split_go sep 0 s' with
               | f :: fs => String c f :: fs
               | [] => [String c EmptyString]
               end
      end
  end.

Definition split (s sep : string) : list string := split_go sep 0 s.

(** [s.replace(a, b)] for single characters. *)
Fixpoint replace_char (a b : ascii) (s : string) : string :=
  match s with
  | EmptyString => EmptyString
  | String c s' =>
      String (if Ascii.eqb c a then b else c) (replace_char a b s')
  end.

(** Index of the first occurrence of [c] in [s]. *)
Fixpoint find_char (c : ascii) (s : string) : option nat :=
  match s with
  | EmptyString => None
  | String d s' =>
      if Ascii.eqb d c then Some 0 else option_map S (find_char c s')
  end.

(** [s[:n]] *)
Fixpoint slice_to (n : nat) (s : string) : string :=
  match n, s with
  | S k, String c s' => String c (slice_to k s')
  | _, _ => EmptyString
  end.

(** ** [re.sub] for patterns that match no empty string

    [match_at s] is the length of the match of the pattern at the start
    of [s], if there is one.  [re.sub] scans from the left; at a match
    it emits the replacement and resumes after the match, otherwise it
    copies one character. *)
Fixpoint re_sub_go (match_at : string -> option nat) (repl : string)
    (skip : nat) (s : string) : string :=
  match s with
  | EmptyString => EmptyString
  | String c s' =>
      match skip with
      | S k => re_sub_go match_at repl k s'
      | O =>
          match match_at s with
          | Some (S n) => repl +:+ re_sub_go match_at repl n s'
          | _ => String c (re_sub_go match_at repl 0 s')
          end
      end
  end.

Definition re_sub (match_at : string -> option nat) (repl s : string) : string :=
  re_sub_go match_at repl 0 s.

(** Number of leading characters of [s] in the class [p]. *)
Fixpoint span (p : ascii -> bool) (s : string) : nat :=
  match s with
  | EmptyString => 0
  | String c s' => if p c then S (span p s') else 0
  end.

(** [s[n:]] *)
Fixpoint slice_from (n : nat) (s : string) : string :=
  match n, s with
  | S k, String _ s' => slice_from k s'
  | _, _ => s
  end.

(** [\s+] *)
Definition re_spaces (s : string) : option nat :=
  match span isspace s with
  | O => None
  | n => Some n
  end.

(** [\[\d+\]] : the digits are taken greedily and the closing bracket
    is no digit, so there is nothing to backtrack. *)
Definition re_citation (s : string) : option nat :=
  match s with
  | String "[" s' =>
      match span isdigit s' with
      | O => None
      | k => if startswith "]" (slice_from k s') then Some (k + 2) else None
      end
  | _ => None
  end.

(** [\([^)]*edit[^)]*\)] with [re.IGNORECASE]: every character between
    the parentheses differs from [)], so the match ends at the first [)]
    and exists when the text before it contains [edit] in any case. *)
Definition re_edit_paren (s : string) : option nat :=
  match s with
  | String "(" s' =>
      match find_char ")" s' with
      | Some j => if str_in "edit" (lower (slice_to j s')) then Some (j + 2) else None
      | None => None
      end
  | _ => None
  end.

(** [<br[^>]*>] with [re.IGNORECASE]. *)
Definition re_br_tag (s : string) : option nat :=
  if startswith "<br" (lower (slice_to 3 s))
  then match find_char ">" (slice_from 3 s) with
       | Some j => Some (j + 4)
       | None => None
       end
  else None.

End PyStr.

(* ===================================================================== *)
(** * Exceptions and effects *)
(* ===================================================================== *)

(** The exception classes the sources distinguish in their handlers.
    [Timeout] and [JSONDecodeError] are subclasses of
    [requests.exceptions.RequestException]; [JSONDecodeError] is a
    [ValueError] as well.  Every class derives from [Exception]. *)
Inductive Exn :=
| Timeout (msg : string)
| RequestException (msg : string)
| JSONDecodeError (msg : string)
| ValueError (msg : string)
| OSError (msg : string)
| OtherException (msg : string).

Definition exn_str (e : Exn) : string :=
  match e with
  | Timeout m | RequestException m | JSONDecodeError m
  | ValueError m | OSError m | OtherException m => m
  end.

(** A computation over a state [S] that returns a value or raises; the
    state changes made before a [raise] stay in effect. *)
Definition Py (S A : Type) : Type := S -> S * (A + Exn).

Definition py_ret {S A} (a : A) : Py S A := fun st => (st, inl a).
Definition py_raise {S A} (e : Exn) : Py S A := fun st => (st, inr e).
Definition py_bind {S A B} (m : Py S A) (k : A -> Py S B) : Py S B :=
  fun st => match m st with
            | (st', inl a) => k a st'
            | (st', inr e) => (st', inr e)
            end.
Definition py_get {S} : Py S S := fun st => (st, inl st).

(** A call of a function that touches no state: its value, or the
    exception it raises. *)
Definition py_call {S A} (r : A + Exn) : Py S A := fun st => (st, r).
Definition py_modify {S} (f : S -> S) : Py S unit := fun st => (f st, inl tt).

(** [try: body except Exception as e: handler(e)] *)
Definition py_try {S A} (body : Py S A) (handler : Exn -> Py S A) : Py S A :=
  fun st => match body st with
            | (st', inl a) => (st', inl a)
            | (st', inr e) => handler e st'
            end.

Declare Scope py_scope.
Delimit Scope py_scope with py.
Notation "x <- m ;; k" := (py_bind m (fun x => k))
  (at level 100, m at next level, right associativity) : py_scope.
Notation "m ;;; k" := (py_bind m (fun _ => k))
  (at level 100, right associativity) : py_scope.

(** [f"{n}"] for an integer. *)
Definition str_of_Z (n : Z) : string := NilZero.string_of_int (Z.to_int n).

(** [response.raise_for_status()] of [requests]. *)
Definition raise_for_status {S} (status : Z) (reason url : string) : Py S unit :=
  if ((400 <=? status) && (status <? 500))%Z then
    py_raise (RequestException
      (str_of_Z status +:+ " Client Error: " +:+ reason +:+ " for url: " +:+ url))
  else if ((500 <=? status) && (status <? 600))%Z then
    py_raise (RequestException
      (str_of_Z status +:+ " Server Error: " +:+ reason +:+ " for url: " +:+ url))
  else py_ret tt.

(** [int(s)] on a string: surrounding white space, an optional sign,
    decimal digits with single underscores between digits.  The white
    space [int] passes over is that of C: tab, line feed, vertical tab,
    form feed, carriage return and space; the separators 0x1c to 0x1f,
    which [str.strip] removes, make the literal invalid. *)
Module PyInt.
Import PyStr.

Definition is_c_space (c : ascii) : bool :=
  let n := N_of_ascii c in ((9 <=? n) && (n <=? 13) || (n =? 32))%N.

Definition digit_val (c : ascii) : Z := Z.of_N (N_of_ascii c) - 48.

(** [prev] tells whether the previous character was a digit. *)
Fixpoint digits (acc : Z) (prev : bool) (s : string) : option Z :=
  match s with
  | EmptyString => if prev then Some acc else None
  | String c s' =>
      if isdigit c then digits (10 * acc + digit_val c) true s'
      else if Ascii.eqb c "_" && prev then
        match s' with
        | String d _ => if isdigit d then digits acc false s' else None
        | EmptyString => None
        end
      else None
  end.

Definition int (s : string) : option Z :=
  match strip_by is_c_space s with
  | String "-" s' => option_map Z.opp (digits 0 false s')
  | String "+" s' => digits 0 false s'
  | s' => digits 0 false s'
  end.

End PyInt.

(* ===================================================================== *)
(** * config.py *)
(* ===================================================================== *)

Module Config.
Definition IMAGE_DOWNLOAD_DIR : string := "/tmp".
Definition SUPPORTED_IMAGE_EXTENSIONS : list string :=
  [".jpg"; ".jpeg"; ".png"; ".gif"; ".webp"; ".svg"].
Definition MAX_IMAGE_SIZE : Z := 15 * 1024 * 1024.
End Config.

(* ===================================================================== *)
(** * utils/helpers.py *)
(* ===================================================================== *)

Module Helpers.
Import PyStr.

(** [normalize_text] *)
Definition normalize_text (text : string) : string :=
  match text with
  | EmptyString => ""
  | _ =>
      let normalized := re_sub re_spaces " " (strip text) in
      let normalized := re_sub re_citation "" normalized in
      let normalized := re_sub re_edit_paren "" normalized in
      strip normalized
  end.

(** The character class of the first substitution of
    [sanitize_filename]: angle brackets, colon, double quote, slash,
    backslash, bar, question mark and star. *)
Definition is_problematic (c : ascii) : bool :=
  existsb (Ascii.eqb c) ["<"; ">"; ":"; "034"; "/"; "\"; "|"; "?"; "*"]%char.

Fixpoint map_chars (f : ascii -> ascii) (s : string) : string :=
  match s with
  | EmptyString => EmptyString
  | String c s' => String (f c) (map_chars f s')
  end.

(** [sanitize_filename] *)
Definition sanitize_filename (filename : string) : string :=
  let sanitized := map_chars (fun c => if is_problematic c then "_"%char else c) filename in
  let sanitized := re_sub re_spaces "_" (lower (strip sanitized)) in
  let sanitized := slice_to 50 (strip_by (Ascii.eqb "_") sanitized) in
  match sanitized with
  | EmptyString => "unknown_animal"
  | _ => sanitized
  end.

Section LocalPath.
(** [Path(urlparse(url).path).suffix], computed by the standard library
    ([urllib.parse], [pathlib]) and kept abstract: [inl suffix] when
    [urlparse] returns, [inr msg] when it raises [ValueError(msg)], as
    it does on a URL with an unmatched bracket in its host. *)
Variable url_suffix : string -> string + string.

(** [get_file_extension_from_url] *)
Definition get_file_extension_from_url (url : string) : string + Exn :=
  match url_suffix url with
  | inr msg => inr (ValueError msg)
  | inl suffix =>
      let extension := lower suffix in
      inl (if String.eqb extension ""
              || negb (in_list extension Config.SUPPORTED_IMAGE_EXTENSIONS)
           then ".jpg" else extension)
  end.

(** [create_local_image_path]; the sanitized name holds no [/], so the
    path is the download directory joined with the file name.  The
    exception of [get_file_extension_from_url] passes through. *)
Definition create_local_image_path (animal_name image_url : string) : string + Exn :=
  let sanitized_name := sanitize_filename animal_name in
  match get_file_extension_from_url image_url with
  | inr e => inr e
  | inl extension =>
      let filename := sanitized_name +:+ "_image" +:+ extension in
      inl (Config.IMAGE_DOWNLOAD_DIR +:+ "/" +:+ filename)
  end.
End LocalPath.

Definition invalid_terms : list string :=
  [ "see also"; "references"; "external links"; "notes";
    "male"; "female"; "young"; "group"; "adjective" ].

(** [is_valid_animal_name] *)
Definition is_valid_animal_name (name : string) : bool :=
  match name with
  | EmptyString => false
  | _ =>
      if (len name <? 2)%nat then false
      else
        let name_lower := lower name in
        negb (existsb (fun term => str_in term name_lower) invalid_terms)
  end.

(** The loop of [extract_animal_info_from_row] over the cells it is
    given, up to its [break]: the first cell whose normal form is not
    empty and no null value. *)
Fixpoint first_usable_cell (cells : list string) : string :=
  match cells with
  | [] => ""
  | cell :: rest =>
      let cell_content := normalize_text cell in
      if negb (String.eqb cell_content "")
         && negb (in_list (lower cell_content) ["—"; "-"; "n/a"; "none"; ""])
      then cell_content
      else first_usable_cell rest
  end.

(** [extract_animal_info_from_row]; [range(1, min(len(row_cells), 4))]
    runs over the second, third and fourth cell.  The dictionary
    returned is given as the pair of its ['animal'] and ['adjective']. *)
Definition extract_animal_info_from_row (row_cells : list string) : option (string * string) :=
  if (length row_cells <? 2)%nat then None
  else
    let animal_name := normalize_text (nth 0 row_cells "") in
    let collateral_adjective := first_usable_cell (firstn 3 (skipn 1 row_cells)) in
    if String.eqb animal_name "" || String.eqb collateral_adjective ""
       || negb (is_valid_animal_name animal_name)
    then None
    else Some (animal_name, collateral_adjective).

Section Retry.
(** [retry_with_backoff].  [func] is the wrapped function, acting on a
    state [S]; [sleep] is [time.sleep] (with the warning logged before
    it); [double] is [delay *= 2] on the delays.  [max_retries] is
    taken to be no negative number. *)
Context {S A Delay : Type}.
Variable double : Delay -> Delay.
Variable sleep : Delay -> S -> S.
Variable func : Py S A.

(** The loop [for attempt in range(max_retries + 1)], with
    [retries_left = max_retries - attempt].  The local [logger] is bound
    in the branch that retries and used in the branch that gives up:
    after a first attempt that is also the last, it is unbound, and the
    handler raises [UnboundLocalError] in place of the exception that
    failed the attempt. *)
Fixpoint retry_loop (retries_left : nat) (logger_bound : bool) (delay : Delay) : Py S A :=
  fun st =>
    match func st with
    | (st', inl result) => (st', inl result)
    | (st', inr e) =>
        match retries_left with
        | Datatypes.S n => retry_loop n true (double delay) (sleep delay st')
        | O =>
            if logger_bound then (st', inr e)
            else (st', inr (OtherException
                   "cannot access local variable 'logger' where it is not associated with a value"))
        end
    end.

Definition retry_with_backoff (max_retries : nat) (initial_delay : Delay) : Py S A :=
  retry_loop max_retries false initial_delay.
End Retry.

End Helpers.

(* ===================================================================== *)
(** * The shared record schema *)
(* ===================================================================== *)

(** The dictionaries that flow from the scraper through the processor to
    the downloader.  ['animal'] and ['adjective'] are always present; an
    optional field is [None] when the key is absent or holds [None]. *)
Record Entry := mkEntry {
  animal : string;
  adjective : string;
  wiki_link : option string;
  primary_image_url : option string;
  local_image_path : option string;
  download_status : option string;
  download_success : option bool
}.

Global Instance Entry_eq_dec : EqDecision Entry.
Proof. solve_decision. Defined.

(* ===================================================================== *)
(** * scraper/wikipedia_animal_scraper.py *)
(* ===================================================================== *)

Module Scraper.
Import PyStr Helpers.

(** ** The parsed document

    BeautifulSoup is an external library.  A cell of a parsed table is
    given by its text nodes in document order, a row ([tr]) by its cells
    ([th] and [td]), a table by its rows, and the document by its
    [wikitable] tables in document order. *)
Definition Cell := list string.
Definition Row := list Cell.
Definition Table := list Row.

(** [tag.get_text(strip=True)]: every text node is stripped, the empty
    ones are dropped, the rest are joined without a separator. *)
Definition get_text_strip (nodes : list string) : string :=
  fold_right String.append ""
    (List.filter (fun t => negb (String.eqb t "")) (map strip nodes)).

(** The text nodes of a markup string, as the parser of
    [BeautifulSoup(markup, 'html.parser')] delivers them for markup made
    of text and tags: a tag opens at [<] followed by a letter, [/], [!]
    or [?] and closes at the next [>].  The markup is taken to hold no
    character reference (none is decoded here), no comment and no [>]
    inside an attribute value. *)
Definition opens_tag (rest : string) : bool :=
  match rest with
  | String c _ =>
      (isalpha c || Ascii.eqb c "/" || Ascii.eqb c "!" || Ascii.eqb c "?")
      && match find_char ">" rest with Some _ => true | None => false end
  | EmptyString => false
  end.

Fixpoint text_nodes (in_tag : bool) (s : string) : list string :=
  match s with
  | EmptyString => [EmptyString]
  | String c s' =>
      if in_tag then
        if Ascii.eqb c ">" then text_nodes false s' else text_nodes true s'
      else if Ascii.eqb c "<" && opens_tag s' then
        EmptyString :: text_nodes true s'
      else
        match text_nodes false s' with
        | t :: ts => String c t :: ts
        | [] => [String c EmptyString]
        end
  end.

Definition soup_get_text_strip (markup : string) : string :=
  get_text_strip (text_nodes false markup).

(** ** Table Classifier *)

Definition collateral_indicators : list string :=
  [ "collateral adjective"; "adjective"; "collateral";
    "adjectival"; "relating adjective" ].

Definition has_indicator (cell_text : string) : bool :=
  existsb (fun indicator => str_in indicator cell_text) collateral_indicators.

(** A [table] element of the document: the values of its [class]
    attribute, and its rows. *)
Record SoupTable := mkSoupTable {
  table_classes : list string;
  table_rows : Table
}.

(** [soup.find_all('table', class_='wikitable')]: the tables one of
    whose classes is [wikitable], in document order. *)
Definition find_all_wikitable (soup : list SoupTable) : list SoupTable :=
  List.filter (fun table => in_list "wikitable" (table_classes table)) soup.

(** [_identify_collateral_adjective_tables]: the loop over the tables
    found, with its accumulator [valid_tables]. *)
Definition _identify_collateral_adjective_tables (soup : list SoupTable) : list SoupTable :=
  let tables := find_all_wikitable soup in
  fold_left
    (fun valid_tables table =>
       match table_rows table with
       | [] => valid_tables                                (* continue *)
       | header_row :: _ =>
           let header_texts := map (fun cell => lower (get_text_strip cell)) header_row in
           let has_collateral_column := existsb has_indicator header_texts in
           if has_collateral_column then valid_tables ++ [table] else valid_tables
       end)
    tables [].

(** [_find_collateral_adjective_column_index]: [enumerate] over the
    header cells, returning at the first match, [-1] after the loop. *)
Fixpoint find_index_from (idx : Z) (header_cells : list Cell) : Z :=
  match header_cells with
  | [] => (-1)%Z
  | cell :: rest =>
      let cell_text := lower (get_text_strip cell) in
      if has_indicator cell_text then idx else find_index_from (idx + 1) rest
  end.

Definition _find_collateral_adjective_column_index (header_row : Row) : Z :=
  find_index_from 0 header_row.

(** ** Multi-Value Splitter *)

Definition separators : list string := [","; ";"; " or "; " and "; "/"; " & "].

Definition null_values : list string := ["n/a"; "none"; "—"; "-"].

(** One round of the separator loop: [new_adjectives] is built by
    [extend] and [append]. *)
Definition apply_separator (separator : string) (adjectives : list string) : list string :=
  fold_left
    (fun new_adjectives adj =>
       if str_in separator adj
       then new_adjectives ++ split adj separator
       else new_adjectives ++ [adj])
    adjectives [].

Definition apply_separators (final_text : string) : list string :=
  fold_left (fun adjectives separator => apply_separator separator adjectives)
    separators [final_text].

Definition is_kept (cleaned : string) : bool :=
  negb (String.eqb cleaned "") && (1 <? len cleaned)%nat
  && negb (in_list (lower cleaned) null_values).

Definition clean_adjectives (adjectives : list string) : list string :=
  fold_left
    (fun cleaned_adjectives adj =>
       let cleaned := normalize_text adj in
       if is_kept cleaned then cleaned_adjectives ++ [cleaned] else cleaned_adjectives)
    adjectives [].

Definition final_text_of (adjective_html adjective_text : string) : string :=
  let html_with_br_replaced := re_sub re_br_tag "," adjective_html in
  let text_with_br_as_comma := normalize_text (soup_get_text_strip html_with_br_replaced) in
  if String.eqb text_with_br_as_comma adjective_text
  then adjective_text else text_with_br_as_comma.

(** [_split_multiple_adjectives] *)
Definition _split_multiple_adjectives (adjective_html adjective_text : string) : list string :=
  let final_text := final_text_of adjective_html adjective_text in
  let adjectives := apply_separators final_text in
  match clean_adjectives adjectives with
  | [] => [final_text]
  | cleaned_adjectives => cleaned_adjectives
  end.

(** ** Metadata Lookup

    A decoded JSON value; [JNull] is Python's [None].  An object keeps
    its members in document order; a later member of the same name
    replaces an earlier one when [json] builds the dictionary. *)
Local Unset Elimination Schemes.
Inductive Json :=
| JNull
| JBool (b : bool)
| JNum (n : Z)
| JStr (s : string)
| JArr (items : list Json)
| JObj (members : list (string * Json)).
Local Set Elimination Schemes.

Fixpoint member (k : string) (members : list (string * Json)) : option Json :=
  match members with
  | [] => None
  | (k', v) :: rest =>
      match member k rest with
      | Some w => Some w
      | None => if String.eqb k k' then Some v else None
      end
  end.

Definition truthy (v : Json) : bool :=
  match v with
  | JNull => false
  | JBool b => b
  | JNum n => negb (n =? 0)%Z
  | JStr s => negb (String.eqb s "")
  | JArr items => match items with [] => false | _ => true end
  | JObj members => match members with [] => false | _ => true end
  end.

(** What [session.get] does for the API: it raises, or it returns a
    response.  [api_json] is the value of [response.json()] on the
    received body, [None] when the body is no JSON document. *)
Record ApiResponse := mkApiResponse {
  api_status : Z;
  api_reason : string;
  api_final_url : string;
  api_json : option Json
}.

Inductive ApiGet :=
| ApiRaises (e : Exn)
| ApiReturns (r : ApiResponse).

Record ScraperState := mkScraperState {
  _api_cache : gmap string Json;
  api_requests : list string
}.

Definition wiki_api_base : string := "https://en.wikipedia.org/api/rest_v1/page/summary/".

(** [urllib.parse.quote(s, safe='')] *)
Definition is_unreserved (c : ascii) : bool :=
  isalpha c || isdigit c || existsb (Ascii.eqb c) ["_"; "."; "-"; "~"]%char.

Definition hex_digit (n : N) : ascii :=
  if (n <? 10)%N then ascii_of_N (48 + n) else ascii_of_N (55 + n).

Fixpoint quote (s : string) : string :=
  match s with
  | EmptyString => EmptyString
  | String c s' =>
      if is_unreserved c then String c (quote s')
      else
        let n := N_of_ascii c in
        String "%" (String (hex_digit (n / 16)) (String (hex_digit (n mod 16)) (quote s')))
  end.

Section Lookup.
Local Open Scope py_scope.

(** The backing service: the behaviour of a GET of each URL. *)
Variable api : string -> ApiGet.

Definition api_session_get (url : string) : Py ScraperState ApiResponse :=
  py_modify (fun st => mkScraperState (_api_cache st) (api_requests st ++ [url])) ;;;
  match api url with
  | ApiRaises e => py_raise e
  | ApiReturns r => py_ret r
  end.

(** [response.json()].  A response with status 304, 204 or 1xx carries
    no body ([http.client] reads none), so decoding it fails. *)
Definition response_json (r : ApiResponse) : Py ScraperState Json :=
  let bodiless :=
    ((api_status r =? 304) || (api_status r =? 204)
     || (100 <=? api_status r) && (api_status r <? 200))%Z in
  match (if bodiless then None else api_json r) with
  | Some v => py_ret v
  | None => py_raise (JSONDecodeError "Expecting value: line 1 column 1 (char 0)")
  end.

(** [api_data.get('thumbnail')] *)
Definition dict_get (v : Json) (k : string) : Py ScraperState Json :=
  match v with
  | JObj members => py_ret (default JNull (member k members))
  | _ => py_raise (OtherException "object has no attribute 'get'")
  end.

(** ['source' in thumbnail] *)
Definition contains_key (k : string) (v : Json) : Py ScraperState bool :=
  match v with
  | JObj members => py_ret (bool_decide (is_Some (member k members)))
  | JStr s => py_ret (str_in k s)
  | JArr items =>
      py_ret (existsb (fun x => match x with JStr s => String.eqb s k | _ => false end) items)
  | _ => py_raise (OtherException "argument is not iterable")
  end.

(** [thumbnail['source']] *)
Definition getitem (v : Json) (k : string) : Py ScraperState Json :=
  match v with
  | JObj members =>
      match member k members with
      | Some w => py_ret w
      | None => py_raise (OtherException k)
      end
  | _ => py_raise (OtherException "indices must be integers")
  end.

Definition cache_store (name : string) (v : Json) : Py ScraperState unit :=
  py_modify (fun st => mkScraperState (<[name := v]> (_api_cache st)) (api_requests st)).

(** The body of the [try] block. *)
Definition api_lookup_body (animal_wiki_name : string) : Py ScraperState Json :=
  let encoded_name := quote animal_wiki_name in
  let api_url := wiki_api_base +:+ encoded_name in
  response <- api_session_get api_url ;;
  (* status 304 is only logged: the early return is commented out *)
  raise_for_status (api_status response) (api_reason response) (api_final_url response) ;;;
  api_data <- response_json response ;;
  thumbnail <- dict_get api_data "thumbnail" ;;
  has_source <- (if truthy thumbnail then contains_key "source" thumbnail
                 else py_ret false) ;;
  if has_source then
    image_url <- getitem thumbnail "source" ;;
    cache_store animal_wiki_name image_url ;;;
    py_ret image_url
  else
    cache_store animal_wiki_name JNull ;;;
    py_ret JNull.

(** The three [except] clauses, in their order. *)
Definition api_lookup_handler (animal_wiki_name : string) (e : Exn) : Py ScraperState Json :=
  match e with
  | Timeout _ | RequestException _ | JSONDecodeError _ =>
      cache_store animal_wiki_name JNull ;;; py_ret JNull
  | ValueError _ =>
      cache_store animal_wiki_name JNull ;;; py_ret JNull
  | OSError _ | OtherException _ =>
      cache_store animal_wiki_name JNull ;;; py_ret JNull
  end.

(** [_get_animal_image_from_api] *)
Definition _get_animal_image_from_api (animal_wiki_name : string) : Py ScraperState Json :=
  if String.eqb animal_wiki_name "" then py_ret JNull
  else
    st <- py_get ;;
    match _api_cache st !! animal_wiki_name with
    | Some cached => py_ret cached
    | None =>
        py_try (api_lookup_body animal_wiki_name)
               (api_lookup_handler animal_wiki_name)
    end.
End Lookup.

(** ** Record Extractor

    A cell of a data row: its text nodes, its markup ([str(cell)]), and
    the [href] of its first link that has one. *)
Record DataCell := mkDataCell {
  cell_nodes : Cell;
  cell_markup : string;
  cell_href : option string
}.

Definition DataRow := list DataCell.
Definition DataTable := list DataRow.

(** [_extract_animal_name_and_link] *)
Definition _extract_animal_name_and_link (cell : DataCell) : string * option string :=
  let animal_name := normalize_text (get_text_strip (cell_nodes cell)) in
  let wiki_link :=
    match cell_href cell with
    | Some href => if startswith "/wiki/" href then Some (slice_from 6 href) else None
    | None => None
    end in
  (animal_name, wiki_link).

(** The value stored under ['primary_image_url']: the string the lookup
    found.  A thumbnail source that is no string is taken as [None]. *)
Definition locator_of (v : Json) : option string :=
  match v with
  | JStr s => Some s
  | _ => None
  end.

Section Extract.
Variable api : string -> ApiGet.

(** The body of the loop over the data rows, for the target column
    [adjective_column_idx].  A row that is skipped, by a [continue] or by
    the handler of the [try] block, adds nothing. *)
Definition extract_row (adjective_column_idx : nat) (row : DataRow)
    (st : ScraperState) : ScraperState * list Entry :=
  match row, row !! adjective_column_idx with
  | animal_cell :: _, Some adjective_cell =>
      let '(animal_name, wiki_link) := _extract_animal_name_and_link animal_cell in
      if String.eqb animal_name "" || (len animal_name <? 2)%nat then (st, [])
      else
        let adjective_html := cell_markup adjective_cell in
        let adjective_text := normalize_text (get_text_strip (cell_nodes adjective_cell)) in
        if String.eqb adjective_text ""
           || in_list (lower adjective_text) ["—"; "-"; "n/a"; "none"; ""]
        then (st, [])
        else
          let looked_up :=
            match wiki_link with
            | Some (String c l) => _get_animal_image_from_api api (String c l) st
            | _ => (st, inl JNull)
            end in
          match looked_up with
          | (st', inl image) =>
              let adjectives := _split_multiple_adjectives adjective_html adjective_text in
              (st', map (fun adjective =>
                           mkEntry animal_name adjective wiki_link (locator_of image)
                                   None None None) adjectives)
          | (st', inr _) => (st', [])
          end
  | _, _ => (st, [])
  end.

Definition extract_rows (adjective_column_idx : nat) (rows : list DataRow)
    (acc : ScraperState * list Entry) : ScraperState * list Entry :=
  fold_left
    (fun acc row =>
       let '(st, animal_data) := acc in
       let '(st', entries) := extract_row adjective_column_idx row st in
       (st', animal_data ++ entries))
    rows acc.

(** [_extract_table_data] *)
Definition _extract_table_data (tables : list DataTable) (st : ScraperState)
    : ScraperState * list Entry :=
  fold_left
    (fun acc table =>
       match table with
       | [] => acc
       | header_row :: data_rows =>
           let adjective_column_idx :=
             _find_collateral_adjective_column_index (map cell_nodes header_row) in
           if (adjective_column_idx =? -1)%Z then acc
           else extract_rows (Z.to_nat adjective_column_idx) data_rows acc
       end)
    tables (st, []).
End Extract.

End Scraper.

(* ===================================================================== *)
(** * processor/data_processor.py *)
(* ===================================================================== *)

Module Processor.
Import PyStr Helpers.

(** [validate_animal_entry].  [entry.get(k)] is falsy exactly when the
    field is the empty string. *)
Definition validate_animal_entry (entry : Entry) : bool :=
  if String.eqb (animal entry) "" || String.eqb (adjective entry) "" then false
  else
    let animal_name := strip (animal entry) in
    let adjective := strip (adjective entry) in
    if negb (is_valid_animal_name animal_name) then false
    else if (len adjective <? 2)%nat
            || in_list (lower adjective) ["n/a"; "none"; "â€”"; "-"] then false
    else if String.eqb (lower animal_name) (lower adjective) then false
    else true.

Definition combination_key (entry : Entry) : string * string :=
  (lower (normalize_text (animal entry)), lower (normalize_text (adjective entry))).

(** The state of the loop of [deduplicate_entries]. *)
Record DedupState := mkDedup {
  seen_combinations : gset (string * string);
  deduplicated_data : list Entry;
  duplicate_entries : nat
}.

Definition dedup_step (st : DedupState) (entry : Entry) : DedupState :=
  let key := combination_key entry in
  if decide (key ∈ seen_combinations st)
  then mkDedup (seen_combinations st) (deduplicated_data st) (S (duplicate_entries st))
  else mkDedup ({[ key ]} ∪ seen_combinations st) (deduplicated_data st ++ [entry])
               (duplicate_entries st).

Definition dedup_run (animal_data : list Entry) : DedupState :=
  fold_left dedup_step animal_data (mkDedup ∅ [] 0).

(** [deduplicate_entries] *)
Definition deduplicate_entries (animal_data : list Entry) : list Entry :=
  deduplicated_data (dedup_run animal_data).

(** Step 1 and step 2 of [process_animal_data]. *)
Definition validate_and_deduplicate (raw_animal_data : list Entry) : list Entry :=
  deduplicate_entries (filter (fun e => validate_animal_entry e = true) raw_animal_data).

(** [len(s.split())]: the number of maximal runs of characters that are
    no white space. *)
Fixpoint count_words (in_word : bool) (s : string) : nat :=
  match s with
  | EmptyString => 0
  | String c s' =>
      if isspace c then count_words false s'
      else (if in_word then 0 else 1) + count_words true s'
  end.

(** An enriched entry: the copy of the entry, and the keys added to it. *)
Record Enriched := mkEnriched {
  base_entry : Entry;
  animal_normalized : string;
  adjective_normalized : string;
  animal_word_count : nat;
  adjective_word_count : nat;
  animal_char_count : nat;
  adjective_char_count : nat;
  is_compound_animal : bool;
  is_compound_adjective : bool;
  has_image : bool;
  image_download_successful : bool
}.

(** The body of the loop of [enrich_entries_with_metadata].  The flag
    [image_download_successful] is [entry.get('download_success', False)]:
    the downloader stores booleans only, and a missing key reads as
    [False]. *)
Definition enrich_entry (e : Entry) : Enriched :=
  mkEnriched e
    (normalize_text (animal e)) (normalize_text (adjective e))
    (count_words false (animal e)) (count_words false (adjective e))
    (len (animal e)) (len (adjective e))
    (str_in " " (animal e) || str_in "-" (animal e))
    (str_in " " (adjective e) || str_in "-" (adjective e))
    (match local_image_path e with Some (String _ _) => true | _ => false end)
    (default false (download_success e)).

(** [enrich_entries_with_metadata] *)
Definition enrich_entries_with_metadata (animal_data : list Entry) : list Enriched :=
  fold_left (fun enriched_data e => enriched_data ++ [enrich_entry e]) animal_data [].

Record ProcessingStats := mkProcessingStats {
  original_entries : nat;
  valid_entries : nat;
  stat_duplicate_entries : nat;
  multiple_adjectives : nat;
  animals_with_images : nat;
  unique_animals : nat;
  unique_adjectives : nat
}.

(** Step 1 of [process_animal_data]: the loop that keeps the valid
    entries. *)
Definition keep_valid (raw_animal_data : list Entry) : list Entry :=
  fold_left
    (fun valid_entries e =>
       if validate_animal_entry e then valid_entries ++ [e] else valid_entries)
    raw_animal_data [].

(** The counter of a [defaultdict(int)] for one key. *)
Definition occurrences (k : string) (keys : list string) : nat :=
  length (List.filter (String.eqb k) keys).

(** [process_animal_data], steps 1 to 4: the enriched entries it returns
    and the statistics it leaves in [processing_stats].  Step 5, the
    analysis, reads the enriched entries and changes neither. *)
Definition process_animal_data (raw_animal_data : list Entry)
    : list Enriched * ProcessingStats :=
  let valid := keep_valid raw_animal_data in
  let deduplicated := dedup_run valid in
  let enriched_entries := enrich_entries_with_metadata (deduplicated_data deduplicated) in
  let animals := map (fun x => lower (animal_normalized x)) enriched_entries in
  let adjectives := map (fun x => lower (adjective_normalized x)) enriched_entries in
  let animal_set : gset string := list_to_set animals in
  let adjective_set : gset string := list_to_set adjectives in
  (enriched_entries,
   mkProcessingStats
     (length raw_animal_data)
     (length valid)
     (duplicate_entries deduplicated)
     (length (List.filter (fun k => (1 <? occurrences k animals)%nat) (elements animal_set)))
     (length (List.filter has_image enriched_entries))
     (size animal_set)
     (size adjective_set)).

(** [sorted(xs, key=...)]: the stable sort, by insertion. *)
Section Sorted.
Context {A K : Type}.
Variable leb : K -> K -> bool.
Variable key : A -> K.

Fixpoint insert_sorted (x : A) (l : list A) : list A :=
  match l with
  | [] => [x]
  | y :: rest =>
      if leb (key x) (key y) then x :: y :: rest else y :: insert_sorted x rest
  end.

Definition py_sorted (l : list A) : list A := fold_right insert_sorted [] l.
End Sorted.

(** The order of the keys [(not has_image, name)]: [False] before [True],
    then by name. *)
Definition image_key_leb (k1 k2 : bool * string) : bool :=
  if Bool.eqb (fst k1) (fst k2) then String.leb (snd k1) (snd k2)
  else negb (fst k1).

(** [sort_entries] *)
Definition sort_entries (animal_data : list Enriched) (sort_by : string) : list Enriched :=
  if String.eqb sort_by "animal" then
    py_sorted String.leb (fun x => lower (animal_normalized x)) animal_data
  else if String.eqb sort_by "adjective" then
    py_sorted String.leb (fun x => lower (adjective_normalized x)) animal_data
  else if String.eqb sort_by "has_image" then
    py_sorted image_key_leb
      (fun x => (negb (has_image x), lower (animal_normalized x))) animal_data
  else
    py_sorted String.leb (fun x => lower (animal_normalized x)) animal_data.

End Processor.

(* ===================================================================== *)
(** * downloader/image_downloader.py *)
(* ===================================================================== *)

Module Downloader.
Import PyStr Helpers.
Local Open Scope py_scope.

Record Stats := mkStats {
  attempted : nat;
  successful : nat;
  failed : nat;
  skipped : nat
}.

(** What the downloader reads and writes: the files of the download
    directory (path to content), its counters, and the URLs it has
    requested so far.  The directory is taken to exist and to be
    writable, and every path to be a name the file system accepts:
    opening a file for writing and writing to it do not fail. *)
Record World := mkWorld {
  fs : gmap string (list Byte.byte);
  download_stats : Stats;
  requests : list string
}.

(** The response of [session.get(url, stream=True)].  [chunks] is what
    [iter_content] yields, in order; after the last chunk the iterator
    ends, or raises [stream_error]. *)
Record Response := mkResponse {
  status_code : Z;
  reason : string;
  final_url : string;
  content_type : option string;
  content_length : option string;
  chunks : list (list Byte.byte);
  stream_error : option Exn
}.

Inductive GetResult :=
| GetRaises (e : Exn)
| GetReturns (r : Response).

(** [(success, message, local_path)] *)
Definition Outcome : Type := bool * string * option string.

Definition on_stats (f : Stats -> Stats) : Py World unit :=
  py_modify (fun w => mkWorld (fs w) (f (download_stats w)) (requests w)).
Definition on_fs (f : gmap string (list Byte.byte) -> gmap string (list Byte.byte)) : Py World unit :=
  py_modify (fun w => mkWorld (f (fs w)) (download_stats w) (requests w)).

Definition incr_attempted : Py World unit :=
  on_stats (fun s => mkStats (S (attempted s)) (successful s) (failed s) (skipped s)).
Definition incr_successful : Py World unit :=
  on_stats (fun s => mkStats (attempted s) (S (successful s)) (failed s) (skipped s)).
Definition incr_failed : Py World unit :=
  on_stats (fun s => mkStats (attempted s) (successful s) (S (failed s)) (skipped s)).
Definition incr_skipped : Py World unit :=
  on_stats (fun s => mkStats (attempted s) (successful s) (failed s) (S (skipped s))).

(** [local_path.exists()] *)
Definition path_exists (path : string) : Py World bool :=
  w <- py_get ;; py_ret (bool_decide (is_Some (fs w !! path))).

(** [local_path.stat().st_size] *)
Definition path_size (path : string) : Py World Z :=
  w <- py_get ;;
  match fs w !! path with
  | Some content => py_ret (Z.of_nat (length content))
  | None => py_raise (OSError "No such file or directory")
  end.

(** [open(local_path, 'wb')]: the file is created, or truncated. *)
Definition open_wb (path : string) : Py World unit :=
  on_fs (fun m => <[path := []]> m).

(** [f.write(chunk)] *)
Definition file_write (path : string) (chunk : list Byte.byte) : Py World unit :=
  on_fs (fun m => alter (fun content => content ++ chunk) path m).

(** [local_path.unlink()] *)
Definition unlink (path : string) : Py World unit :=
  w <- py_get ;;
  match fs w !! path with
  | Some _ => on_fs (fun m => delete path m)
  | None => py_raise (OSError "No such file or directory")
  end.

(** The loop over [response.iter_content(chunk_size=8192)].  The result
    is [inl] for the [return] inside the loop and [inr total_size] when
    the chunks are exhausted. *)
Fixpoint write_chunks (local_path : string) (chunks : list (list Byte.byte))
    (total_size : Z) : Py World (Outcome + Z) :=
  match chunks with
  | [] => py_ret (inr total_size)
  | chunk :: rest =>
      match chunk with
      | [] => write_chunks local_path rest total_size
      | _ =>
          file_write local_path chunk ;;;
          let total_size := (total_size + Z.of_nat (length chunk))%Z in
          if (total_size >? Config.MAX_IMAGE_SIZE)%Z then
            unlink local_path ;;;
            incr_failed ;;;
            py_ret (inl (false, "Image too large during download", None))
          else write_chunks local_path rest total_size
      end
  end.

(** [IMAGE_DOWNLOAD_DIR.glob("*_image.*")] looks at the entries directly
    in the download directory: a path matches when it is the directory,
    a slash, and a name without a slash that holds [_image.]. *)
Definition glob_image_match (path : string) : bool :=
  let prefix := Config.IMAGE_DOWNLOAD_DIR +:+ "/" in
  let name := slice_from (len prefix) path in
  startswith prefix path
  && negb (str_in "/" name)
  && str_in "_image." name.

(** The body of the loop of [cleanup_failed_downloads]: an empty file
    is unlinked and counted; a file that cannot be examined is passed
    over. *)
Definition cleanup_step (acc : gmap string (list Byte.byte) * nat) (image_file : string)
    : gmap string (list Byte.byte) * nat :=
  let '(files, cleaned_count) := acc in
  match files !! image_file with
  | Some [] => (delete image_file files, S cleaned_count)
  | _ => acc
  end.

(** [cleanup_failed_downloads]; the result carries [cleaned_count]. *)
Definition cleanup_failed_downloads (w : World) : World * nat :=
  let image_files := List.filter glob_image_match (map fst (map_to_list (fs w))) in
  let '(files, cleaned_count) := fold_left cleanup_step image_files (fs w, 0%nat) in
  (mkWorld files (download_stats w) (requests w), cleaned_count).

(** [close]: the clean-up, then the session is closed. *)
Definition close (w : World) : World := fst (cleanup_failed_downloads w).

(** [get_download_statistics] *)
Definition get_download_statistics (w : World) : Stats := download_stats w.

Section Download.
Variable url_suffix : string -> string + string.

(** The network: what a GET of each URL does. *)
Variable net : string -> GetResult.

Definition session_get (url : string) : Py World Response :=
  py_modify (fun w => mkWorld (fs w) (download_stats w) (requests w ++ [url])) ;;;
  match net url with
  | GetRaises e => py_raise e
  | GetReturns r => py_ret r
  end.

(** The [content-length] test: [content_length and int(content_length) > MAX_IMAGE_SIZE] *)
Definition length_too_large (content_length : option string) : Py World bool :=
  match content_length with
  | None => py_ret false
  | Some "" => py_ret false
  | Some cl =>
      match PyInt.int cl with
      | Some n => py_ret (n >? Config.MAX_IMAGE_SIZE)%Z
      | None => py_raise (ValueError ("invalid literal for int() with base 10: '" +:+ cl +:+ "'"))
      end
  end.

(** "Verify the downloaded file": the last step of the [try] block. *)
Definition verify_download (local_path : string) (total_size : Z) : Py World Outcome :=
  present <- path_exists local_path ;;
  size <- (if present : bool then path_size local_path else py_ret 0%Z) ;;
  if negb present || (size =? 0)%Z then
    (if present : bool then unlink local_path else py_ret tt) ;;;
    incr_failed ;;;
    py_ret (false, "Downloaded file is empty", None)
  else
    incr_successful ;;;
    py_ret (true, "Downloaded successfully (" +:+ str_of_Z total_size +:+ " bytes)",
            Some local_path).

(** "Download the image": the [with open(...)] block and what follows
    it.  An exception of the iterator leaves the block after the
    chunks it has yielded are written. *)
Definition transfer (local_path : string) (response : Response) : Py World Outcome :=
  open_wb local_path ;;;
  streamed <- write_chunks local_path (chunks response) 0 ;;
  match streamed with
  | inl early => py_ret early
  | inr total_size =>
      match stream_error response with
      | Some e => py_raise e
      | None => verify_download local_path total_size
      end
  end.

(** The body of the [try] block of [_download_single_image]. *)
Definition download_body (animal_name image_url : string) : Py World Outcome :=
  incr_attempted ;;;
  local_path <- py_call (create_local_image_path url_suffix animal_name image_url) ;;
  already <- path_exists local_path ;;
  if already : bool then
    incr_skipped ;;;
    py_ret (true, "File already exists", Some local_path)
  else
    response <- session_get image_url ;;
    raise_for_status (status_code response) (reason response) (final_url response) ;;;
    let content_type := lower (default "" (content_type response)) in
    if negb (startswith "image/" content_type) then
      incr_failed ;;;
      py_ret (false, "Non-image content type: " +:+ content_type, None)
    else
      too_large <- length_too_large (content_length response) ;;
      if too_large : bool then
        incr_failed ;;;
        py_ret (false, "Image too large: " +:+ default "" (content_length response) +:+ " bytes", None)
      else
        transfer local_path response.

(** The [except] clauses, in their order. *)
Definition download_handler (e : Exn) : Py World Outcome :=
  match e with
  | Timeout _ =>
      incr_failed ;;; py_ret (false, "Download timeout", None)
  | RequestException _ | JSONDecodeError _ =>
      incr_failed ;;; py_ret (false, "Request error: " +:+ exn_str e, None)
  | OSError _ =>
      incr_failed ;;; py_ret (false, "File system error: " +:+ exn_str e, None)
  | ValueError _ | OtherException _ =>
      incr_failed ;;; py_ret (false, "Unexpected error: " +:+ exn_str e, None)
  end.

(** [_download_single_image] *)
Definition _download_single_image (animal_name image_url : string) : Py World Outcome :=
  py_try (download_body animal_name image_url) download_handler.

(** [_get_fallback_image_urls] *)
Definition _get_fallback_image_urls (animal_name : string) : list string :=
  ["http://commons.wikimedia.org/wiki/File:" +:+ replace_char " " "_" animal_name +:+ ".jpg"].

(** ** The orchestrator

    The first loop of [download_images_concurrently]: the tasks, the
    map from a task to the index of its entry, and the entries. *)
Record Prepared := mkPrepared {
  download_tasks : list (string * string);
  animal_to_data_map : gmap (string * string) nat;
  prepared_data : list Entry
}.

Definition set_no_url (e : Entry) : Entry :=
  mkEntry (animal e) (adjective e) (wiki_link e) (primary_image_url e)
          None (Some "No image URL available") (download_success e).

Definition prepare_step (acc : Prepared) (item : nat * Entry) : Prepared :=
  let '(idx, animal_entry) := item in
  let animal_name := animal animal_entry in
  let image_url :=
    match primary_image_url animal_entry with
    | Some (String c u) => Some (String c u)
    | _ =>
        match _get_fallback_image_urls animal_name with
        | u :: _ => Some u
        | [] => None
        end
    end in
  match image_url with
  | None =>
      mkPrepared (download_tasks acc) (animal_to_data_map acc)
                 (alter set_no_url idx (prepared_data acc))
  | Some image_url =>
      mkPrepared (download_tasks acc ++ [(animal_name, image_url)])
                 (<[(animal_name, image_url) := idx]> (animal_to_data_map acc))
                 (prepared_data acc)
  end.

Definition prepare (animal_data : list Entry) : Prepared :=
  fold_left prepare_step (imap (fun idx e => (idx, e)) animal_data)
            (mkPrepared [] ∅ animal_data).

(** What [future.result()] gives. *)
Inductive FutureResult :=
| Returned (r : Outcome)
| Raised (e : Exn).

Definition set_outcome (local_path : option string) (status : string) (success : bool)
    (e : Entry) : Entry :=
  mkEntry (animal e) (adjective e) (wiki_link e) (primary_image_url e)
          local_path (Some status) (Some success).

(** The body of the loop over [as_completed]: the entry found through
    [animal_to_data_map] is updated. *)
Definition attach (map : gmap (string * string) nat) (task : string * string)
    (result : FutureResult) (animal_data : list Entry) : list Entry :=
  match result with
  | Returned (success, message, local_path) =>
      match map !! task with
      | Some data_idx => alter (set_outcome local_path message success) data_idx animal_data
      | None => animal_data
      end
  | Raised e =>
      match map !! task with
      | Some data_idx =>
          alter (set_outcome None ("Exception: " +:+ exn_str e) false) data_idx animal_data
      | None => animal_data
      end
  end.

(** The loop over [as_completed] by itself.  Each future that completes
    is given by the index of its task in [download_tasks] and the result
    it delivers, whatever the workers did to produce it; [completed]
    lists the futures in the order of their completion. *)
Definition collect_step (p : Prepared) (animal_data : list Entry)
    (future : nat * FutureResult) : list Entry :=
  let '(i, result) := future in
  match download_tasks p !! i with
  | Some task => attach (animal_to_data_map p) task result animal_data
  | None => animal_data
  end.

Definition collect_results (p : Prepared) (completed : list (nat * FutureResult))
    : list Entry :=
  fold_left (collect_step p) completed (prepared_data p).

(** A worker runs [_download_single_image] on its task. *)
Definition run_task (task : string * string) (w : World) : World * FutureResult :=
  match _download_single_image (fst task) (snd task) w with
  | (w', inl r) => (w', Returned r)
  | (w', inr e) => (w', Raised e)
  end.

(** The futures complete in the order [completion], a list of task
    indices; each worker is taken to run its task in one piece at the
    moment it completes.  The pool runs up to ten workers at once, so
    this is one of the ways a run can go; it is used only for what does
    not depend on how the workers interleave.  What holds for every
    result the futures can deliver is stated of [collect_results]. *)
Definition complete_step (p : Prepared) (acc : World * list Entry) (i : nat)
    : World * list Entry :=
  let '(w, animal_data) := acc in
  match download_tasks p !! i with
  | Some task =>
      let '(w', result) := run_task task w in
      (w', attach (animal_to_data_map p) task result animal_data)
  | None => acc
  end.

Definition reset_stats (w : World) : World :=
  mkWorld (fs w) (mkStats 0 0 0 0) (requests w).

(** [download_images_concurrently] *)
Definition download_images_concurrently (animal_data : list Entry)
    (completion : list nat) (w : World) : World * list Entry :=
  let p := prepare animal_data in
  fold_left (complete_step p) completion (reset_stats w, prepared_data p).

End Download.

End Downloader.

(* ===================================================================== *)
(** * Specification vocabulary *)
(* ===================================================================== *)

Module Spec.
Import PyStr Helpers Scraper Processor Downloader.

(** [t] occurs in [s]. *)
Definition is_substring (t s : string) : Prop :=
  exists a b, s = a +:+ t +:+ b.

(** Every character of [s] is in the class [p]. *)
Fixpoint all_chars (p : ascii -> bool) (s : string) : bool :=
  match s with
  | EmptyString => true
  | String c s' => p c && all_chars p s'
  end.

(** [s] holds two white-space characters in a row. *)
Definition has_space_run (s : string) : Prop :=
  exists a c d b, s = a +:+ String c (String d b) /\ isspace c = true /\ isspace d = true.

(** [s] holds a citation marker: a bracketed, non-empty run of digits. *)
Definition has_citation_marker (s : string) : Prop :=
  exists a n b, s = a +:+ "[" +:+ n +:+ "]" +:+ b /\ n <> "" /\ all_chars isdigit n = true.

(** The decidable forms of the two properties above. *)
Fixpoint space_run (s : string) : bool :=
  match s with
  | String c ((String d _) as s') => (isspace c && isspace d) || space_run s'
  | _ => false
  end.

Fixpoint contains_char (c : ascii) (s : string) : bool :=
  match s with
  | EmptyString => false
  | String d s' => Ascii.eqb d c || contains_char c s'
  end.

Definition starts_with_space (s : string) : bool :=
  match s with
  | String c _ => isspace c
  | EmptyString => false
  end.

(** The first character of [t] is no white space. *)
Definition starts_nonspace (t : string) : Prop :=
  match t with
  | String c _ => isspace c = false
  | EmptyString => False
  end.

(** A header cell names the target column. *)
Definition names_target (cell : Cell) : Prop :=
  exists indicator, indicator ∈ collateral_indicators
    /\ is_substring indicator (lower (get_text_strip cell)).

(** A table qualifies: it has a first row, and a cell of it names the
    target column. *)
Definition qualifies (t : Table) : Prop :=
  exists header rest cell, t = header :: rest /\ cell ∈ header /\ names_target cell.

(** The records of [l] whose pair, as [pair_of] forms it, does not
    occur at an earlier position, in the order of [l]. *)
Definition first_occurrences (pair_of : Entry -> string * string) (l : list Entry)
    : list Entry :=
  omap (fun i =>
          match l !! i with
          | Some e =>
              if decide (pair_of e ∈ pair_of <$> take i l)
              then None else Some e
          | None => None
          end)
       (seq 0 (length l)).

(** The body of an API response is malformed: it is no JSON document,
    or the document is no object. *)
Definition malformed_body (r : ApiResponse) : Prop :=
  match api_json r with
  | Some (JObj _) => False
  | _ => True
  end.

(** A failed lookup: the request raises, or the service answers "not
    modified", an error status, or a malformed body. *)
Definition lookup_failure (g : ApiGet) : Prop :=
  match g with
  | ApiRaises _ => True
  | ApiReturns r =>
      api_status r = 304%Z
      \/ (400 <= api_status r < 600)%Z
      \/ malformed_body r
  end.

(** The number of bytes in a sequence of chunks. *)
Definition received (chunks : list (list Byte.byte)) : Z :=
  fold_right (fun chunk n => (Z.of_nat (length chunk) + n)%Z) 0%Z chunks.

(** The streamed body passes the ceiling: the chunks received up to
    some point hold more than [MAX_IMAGE_SIZE] bytes. *)
Definition body_exceeds (r : Response) : Prop :=
  exists k : nat, (received (take k (chunks r)) > Config.MAX_IMAGE_SIZE)%Z.

(** The response declares a length above the ceiling. *)
Definition declares_oversize (r : Response) : Prop :=
  exists (cl : string) (n : Z),
    content_length r = Some cl /\ PyInt.int cl = Some n
    /\ (n > Config.MAX_IMAGE_SIZE)%Z.

(** The response passes the checks made before the transfer. *)
Definition headers_accepted (r : Response) : Prop :=
  ~ (400 <= status_code r < 600)%Z
  /\ startswith "image/" (lower (default "" (content_type r))) = true
  /\ match content_length r with
     | None | Some "" => True
     | Some cl => exists n, PyInt.int cl = Some n /\ (n <= Config.MAX_IMAGE_SIZE)%Z
     end.

(** The task of a record: its key and its locator, the fallback locator
    when it has none. *)
Definition task_of (e : Entry) : string * string :=
  (animal e,
   match primary_image_url e with
   | Some (String c u) => String c u
   | _ => hd "" (_get_fallback_image_urls (animal e))
   end).

(** A record with the result of a future attached. *)
Definition with_result (r : FutureResult) (e : Entry) : Entry :=
  match r with
  | Returned (success, message, local_path) => set_outcome local_path message success e
  | Raised ex => set_outcome None ("Exception: " +:+ exn_str ex) false e
  end.

(** Counters advanced by the given amounts. *)
Definition bump (a su f sk : nat) (s : Stats) : Stats :=
  mkStats (a + attempted s) (su + successful s) (f + failed s) (sk + skipped s).

(** How a finished task shows in its outcome and in the counters, with
    [a] attempts counted on the way: skipped, downloaded or failed.  A
    success names the destination, and the destination exists. *)
Definition accounted (a : nat) (p : string) (w w' : World) (o : Outcome) : Prop :=
  (o = (true, "File already exists", Some p)
   /\ download_stats w' = bump a 0 0 1 (download_stats w)
   /\ is_Some (fs w' !! p))
  \/ (exists msg, o = (true, msg, Some p)
       /\ download_stats w' = bump a 1 0 0 (download_stats w)
       /\ is_Some (fs w' !! p))
  \/ (exists msg, o = (false, msg, None)
       /\ download_stats w' = bump a 0 1 0 (download_stats w)).

(** The streamed body stays within the ceiling at every point. *)
Definition body_within (r : Response) : Prop :=
  forall k : nat, (received (take k (chunks r)) <= Config.MAX_IMAGE_SIZE)%Z.

(** The request is turned down before any transfer: it raises, or the
    response has an error status or declares no image. *)
Definition refused (g : GetResult) : Prop :=
  match g with
  | GetRaises _ => True
  | GetReturns r =>
      (400 <= status_code r < 600)%Z
      \/ startswith "image/" (lower (default "" (content_type r))) = false
  end.

(** The fields a download must not touch agree. *)
Definition same_record (e e' : Entry) : Prop :=
  animal e' = animal e /\ adjective e' = adjective e
  /\ wiki_link e' = wiki_link e /\ primary_image_url e' = primary_image_url e.

(** The characters a sanitized file name is made of: none of the
    characters replaced, no white space, no capital letter. *)
Definition is_upper (c : ascii) : bool :=
  let n := N_of_ascii c in ((65 <=? n) && (n <=? 90))%N.

Definition filename_safe (c : ascii) : bool :=
  negb (is_problematic c) && negb (isspace c) && negb (is_upper c).

(** A cell that [extract_animal_info_from_row] accepts as the adjective. *)
Definition usable_cell (cell : string) : bool :=
  negb (String.eqb (normalize_text cell) "")
  && negb (in_list (lower (normalize_text cell)) ["—"; "-"; "n/a"; "none"; ""]).

(** The delays of [n] retries: [d], [2d], [4d], ... *)
Fixpoint backoff_delays {Delay : Type} (double : Delay -> Delay) (d : Delay) (n : nat)
    : list Delay :=
  match n with
  | O => []
  | S k => d :: backoff_delays double (double d) k
  end.

(** A state with a log of the delays slept, a [sleep] that writes the
    log, and a function that does not look at it. *)
Definition logged_sleep {S0 Delay : Type} (d : Delay) (st : S0 * list Delay)
    : S0 * list Delay :=
  (fst st, snd st ++ [d]).

Definition unlogged {S0 A Delay : Type} (f : Py S0 A) : Py (S0 * list Delay) A :=
  fun st => let '(s', r) := f (fst st) in ((s', snd st), r).

(** The order of Python strings. *)
Definition str_le (a b : string) : Prop := String.leb a b = true.

(** The order [sort_entries] sorts by: the lower-cased normal form of
    the value or of the key; for ['has_image'], the entries with an
    image first, and the key within each group. *)
Definition ordered_by (sort_by : string) (x y : Enriched) : Prop :=
  if String.eqb sort_by "adjective" then
    str_le (lower (adjective_normalized x)) (lower (adjective_normalized y))
  else if String.eqb sort_by "has_image" then
    (has_image y = true -> has_image x = true)
    /\ (has_image x = has_image y ->
        str_le (lower (animal_normalized x)) (lower (animal_normalized y)))
  else str_le (lower (animal_normalized x)) (lower (animal_normalized y)).

(** How a scraped record relates to the data row it was made from, for
    the target column [adjective_column_idx]. *)
Definition scraped_from (adjective_column_idx : nat) (row : DataRow) (e : Entry) : Prop :=
  exists animal_cell adjective_cell,
    row !! 0%nat = Some animal_cell
    /\ row !! adjective_column_idx = Some adjective_cell
    /\ animal e = normalize_text (get_text_strip (cell_nodes animal_cell))
    /\ (2 <= len (animal e))%nat
    /\ (forall l, wiki_link e = Some l <-> cell_href animal_cell = Some ("/wiki/" +:+ l))
    /\ adjective e ∈ _split_multiple_adjectives
                       (cell_markup adjective_cell)
                       (normalize_text (get_text_strip (cell_nodes adjective_cell)))
    /\ (is_Some (primary_image_url e) -> exists l, wiki_link e = Some l /\ l <> "")
    /\ local_image_path e = None /\ download_status e = None /\ download_success e = None.

(** A record scraped from the tables: from a data row of a table whose
    header names the target column. *)
Definition scraped_of (tables : list DataTable) (e : Entry) : Prop :=
  exists header_row data_rows row,
    (header_row :: data_rows) ∈ tables /\ row ∈ data_rows
    /\ let idx := _find_collateral_adjective_column_index (map cell_nodes header_row) in
       (0 <= idx)%Z /\ scraped_from (Z.to_nat idx) row e.

(** The URL the lookup requests for a page name. *)
Definition summary_url (name : string) : string := wiki_api_base +:+ quote name.

(** Every page that was requested has its answer in the cache. *)
Definition cache_complete (st : ScraperState) : Prop :=
  forall name, summary_url name ∈ api_requests st -> is_Some (_api_cache st !! name).

End Spec.

(* ===================================================================== *)
(** * Properties *)
(* ===================================================================== *)

Import PyStr Helpers Scraper Processor Spec.

(** ** Strings *)

Section StringFacts.

Lemma app_cons_str (c : ascii) (a b : string) : String c a +:+ b = String c (a +:+ b).
Proof. reflexivity. Qed.

Lemma app_nil_l_str (s : string) : "" +:+ s = s.
Proof. reflexivity. Qed.

Lemma app_nil_r_str (s : string) : s +:+ "" = s.
Proof. induction s as [|c s IH]; [reflexivity|]. by rewrite app_cons_str, IH. Qed.

Lemma app_assoc_str (a b c : string) : (a +:+ b) +:+ c = a +:+ (b +:+ c).
Proof. induction a as [|x a IH]; [reflexivity|]. by rewrite !app_cons_str, IH. Qed.

Lemma startswith_spec (p s : string) :
  startswith p s = true <-> exists b, s = p +:+ b.
Proof.
  revert s. induction p as [|a p IH]; intros s; cbn.
  - split; [intros _; by exists s | done].
  - destruct s as [|b s]; cbn.
    + split; [done | intros [x Hx]; discriminate].
    + rewrite andb_true_iff, IH. split.
      * intros [Hab [x ->]]. apply Ascii.eqb_eq in Hab as ->. by exists x.
      * intros [x Hx]. injection Hx as -> ->. split; [apply Ascii.eqb_refl | by exists x].
Qed.

Lemma str_in_spec (t s : string) : str_in t s = true <-> is_substring t s.
Proof.
  unfold is_substring. induction s as [|c s IH].
  - cbn. rewrite orb_false_r, startswith_spec. split.
    + intros [b Hb]. by exists "", b.
    + intros (a & b & H). destruct a; [by exists b | discriminate].
  - cbn [str_in]. rewrite orb_true_iff, IH, startswith_spec. split.
    + intros [[b Hb] | (a & b & Hab)].
      * by exists "", b.
      * exists (String c a), b. cbn. by rewrite Hab.
    + intros (a & b & Hab). destruct a as [|x a].
      * left. by exists b.
      * right. injection Hab as _ ->. by exists a, b.
Qed.

Lemma in_list_spec (x : string) (xs : list string) : in_list x xs = true <-> x ∈ xs.
Proof.
  unfold in_list. rewrite existsb_exists. split.
  - intros (y & Hy & Heq). apply String.eqb_eq in Heq as ->. by apply list_elem_of_In.
  - intros H. exists x. split; [by apply list_elem_of_In | apply String.eqb_refl].
Qed.

(** A term that starts with no white space survives [lstrip]. *)
Lemma is_substring_lstrip (t s : string) :
  starts_nonspace t -> is_substring t s -> is_substring t (lstrip_by isspace s).
Proof.
  intros Ht (a & b & ->). induction a as [|d a IH].
  - exists "", b. destruct t as [|c t]; [done|].
    rewrite !app_nil_l_str, app_cons_str. cbn in *. by rewrite Ht.
  - rewrite app_cons_str. cbn [lstrip_by].
    destruct (isspace d); [exact IH | by exists (String d a), b].
Qed.

Lemma rstrip_by_cons (p : ascii -> bool) (c : ascii) (s : string) :
  rstrip_by p (String c s) =
  match rstrip_by p s with
  | EmptyString => if p c then EmptyString else String c EmptyString
  | r => String c r
  end.
Proof. reflexivity. Qed.

Lemma rstrip_cons_nonempty (p : ascii -> bool) (c : ascii) (s : string) :
  rstrip_by p s <> "" -> rstrip_by p (String c s) = String c (rstrip_by p s).
Proof. intros H. rewrite rstrip_by_cons. by destruct (rstrip_by p s). Qed.

Lemma rstrip_app_nonempty (p : ascii -> bool) (a s : string) :
  rstrip_by p s <> "" -> rstrip_by p (a +:+ s) = a +:+ rstrip_by p s.
Proof.
  intros H. induction a as [|c a IH]; [reflexivity|].
  rewrite !app_cons_str, rstrip_cons_nonempty; rewrite IH; [done|].
  destruct a; [done | discriminate].
Qed.

(** A term that [rstrip] leaves alone stays a prefix under [rstrip]. *)
Lemma rstrip_keeps_prefix (p : ascii -> bool) (t b : string) :
  t <> "" -> rstrip_by p t = t -> exists b', rstrip_by p (t +:+ b) = t +:+ b'.
Proof.
  induction t as [|c t IH]; [done|]. intros _ Ht.
  destruct t as [|c' t].
  - cbn in Ht. destruct (p c) eqn:Hc; [discriminate|].
    exists (rstrip_by p b). rewrite !app_cons_str, !app_nil_l_str. cbn [rstrip_by].
    rewrite Hc. by destruct (rstrip_by p b).
  - assert (Hr : rstrip_by p (String c' t) = String c' t).
    { rewrite rstrip_by_cons in Ht. destruct (rstrip_by p (String c' t)) eqn:E.
      - destruct (p c); discriminate.
      - congruence. }
    destruct (IH ltac:(done) Hr) as [b' Hb'].
    exists b'. rewrite app_cons_str, rstrip_cons_nonempty; rewrite Hb'; done.
Qed.

Lemma is_substring_rstrip (t s : string) :
  t <> "" -> rstrip_by isspace t = t ->
  is_substring t s -> is_substring t (rstrip_by isspace s).
Proof.
  intros Hne Ht (a & b & ->).
  destruct (rstrip_keeps_prefix isspace t b Hne Ht) as [b' Hb'].
  exists a, b'. rewrite rstrip_app_nonempty; rewrite Hb'; [done|].
  destruct t; [done | discriminate].
Qed.

Lemma is_substring_strip (t s : string) :
  starts_nonspace t -> rstrip_by isspace t = t ->
  is_substring t s -> is_substring t (strip s).
Proof.
  intros H1 H2 H. apply is_substring_rstrip; [by destruct t | done |].
  by apply is_substring_lstrip.
Qed.

Lemma isspace_lower_char (c : ascii) : isspace (lower_char c) = isspace c.
Proof. by destruct c as [[] [] [] [] [] [] [] []]. Qed.

Lemma lower_lstrip (s : string) :
  lower (lstrip_by isspace s) = lstrip_by isspace (lower s).
Proof.
  induction s as [|c s IH]; [reflexivity|].
  cbn. rewrite isspace_lower_char. by destruct (isspace c).
Qed.

Lemma lower_rstrip (s : string) :
  lower (rstrip_by isspace s) = rstrip_by isspace (lower s).
Proof.
  induction s as [|c s IH]; [reflexivity|].
  cbn. rewrite <- IH, isspace_lower_char.
  destruct (rstrip_by isspace s); cbn; [by destruct (isspace c) | done].
Qed.

Lemma lower_strip (s : string) : lower (strip s) = strip (lower s).
Proof. unfold strip, strip_by. by rewrite lower_rstrip, lower_lstrip. Qed.

(** Splitting at a separator that does not occur changes nothing. *)
Lemma split_absent (sep s : string) : str_in sep s = false -> split s sep = [s].
Proof.
  unfold split. induction s as [|c s IH]; [done|].
  cbn [str_in]. intros H. apply orb_false_iff in H as [H1 H2].
  cbn [split_go]. rewrite H1, (IH H2). done.
Qed.

End StringFacts.

(** Loops that grow a list by [append] and [extend]. *)
Lemma fold_left_extend {A B} (f : A -> list B) (l : list A) (init : list B) :
  fold_left (fun acc x => acc ++ f x) l init = init ++ flat_map f l.
Proof.
  revert init. induction l as [|x l IH]; intros init; cbn.
  - by rewrite app_nil_r.
  - by rewrite IH, app_assoc.
Qed.

(** ** Text Normalizer *)

(** C2.  The specification asks that no output of [normalize_text] hold
    a run of two white-space characters or a citation marker, and the
    function is documented to remove both.  It collapses white space
    first and removes markers and editorial parentheticals afterwards,
    in one pass each: a marker between two spaces leaves both spaces
    behind, and a removal can assemble a new marker. *)
Theorem normalize_text_leaves_runs_and_markers :
  normalize_text "Lion [1] cub" = "Lion  cub"
  /\ has_space_run (normalize_text "Lion [1] cub")
  /\ normalize_text "[[1]2]" = "[2]"
  /\ has_citation_marker (normalize_text "[[1]2]").
Proof.
  split; [reflexivity|]. split.
  - exists "Lion", " "%char, " "%char, "cub". by vm_compute.
  - split; [reflexivity|]. exists "", "2", "". by vm_compute.
Qed.

(** An editorial parenthetical inside brackets, once removed, leaves a
    marker as well. *)
Example normalize_text_edit_inside_marker :
  normalize_text "[1(edit)]" = "[1]".
Proof. reflexivity. Qed.

(** What does hold.  White space is collapsed by the first substitution;
    a text without brackets and parentheses passes the two later ones
    unchanged, and its normal form has neither a run nor a marker. *)

Lemma has_space_run_spec (s : string) : has_space_run s <-> space_run s = true.
Proof.
  unfold has_space_run. split.
  - intros (a & c & d & b & -> & Hc & Hd). induction a as [|x a IH].
    + rewrite app_nil_l_str. cbn. by rewrite Hc, Hd.
    + rewrite app_cons_str. cbn [space_run].
      destruct (a +:+ String c (String d b)) eqn:E; [by destruct a|].
      rewrite IH. apply orb_true_r.
  - induction s as [|x s IH]; [done|]. cbn [space_run].
    destruct s as [|y s]; [done|].
    intros [[Hx Hy]%andb_true_iff | H]%orb_true_iff.
    + by exists "", x, y, s.
    + destruct (IH H) as (a & c & d & b & Heq & Hc & Hd).
      exists (String x a), c, d, b. by rewrite app_cons_str, Heq.
Qed.

Lemma space_run_cons (c : ascii) (s : string) :
  space_run (String c s) = (isspace c && starts_with_space s) || space_run s.
Proof. destruct s; [by rewrite andb_false_r | reflexivity]. Qed.

Lemma re_spaces_cons (c : ascii) (s : string) :
  re_spaces (String c s) = if isspace c then Some (S (span isspace s)) else None.
Proof. unfold re_spaces. cbn. by destruct (isspace c). Qed.

(** The first substitution, started inside or outside a run. *)
Lemma collapse_spaces_no_run (s : string) (k : nat) :
  (k = span isspace s ->
     space_run (re_sub_go re_spaces " " k s) = false
     /\ starts_with_space (re_sub_go re_spaces " " k s) = false)
  /\ (k = 0%nat -> space_run (re_sub_go re_spaces " " k s) = false).
Proof.
  revert k. induction s as [|c s IH]; intros k; [done|].
  cbn [re_sub_go span]. rewrite re_spaces_cons.
  destruct (isspace c) eqn:Hc.
  - split.
    + intros ->. apply (IH (span isspace s)). reflexivity.
    + intros ->. destruct (proj1 (IH (span isspace s)) eq_refl) as [H1 H2].
      change (" " +:+ ?x) with (String " " x).
      by rewrite space_run_cons, H1, H2.
  - assert (H0 : space_run (String c (re_sub_go re_spaces " " 0 s)) = false).
    { rewrite space_run_cons, Hc. apply (IH 0%nat). reflexivity. }
    split; intros ->; [split; [exact H0 | exact Hc] | exact H0].
Qed.

Lemma lstrip_suffix (p : ascii -> bool) (s : string) : exists a, s = a +:+ lstrip_by p s.
Proof.
  induction s as [|c s [a IH]]; [by exists ""|]. cbn.
  destruct (p c); [|by exists ""]. exists (String c a). by rewrite app_cons_str, <- IH.
Qed.

Lemma rstrip_prefix (p : ascii -> bool) (s : string) : exists b, s = rstrip_by p s +:+ b.
Proof.
  induction s as [|c s [b IH]]; [by exists ""|]. rewrite rstrip_by_cons.
  destruct (rstrip_by p s) as [|d r] eqn:E.
  - destruct (p c); [by exists (String c s)|]. exists s. reflexivity.
  - exists b. by rewrite app_cons_str, <- IH.
Qed.

Lemma strip_infix (s : string) : exists a b, s = a +:+ strip s +:+ b.
Proof.
  unfold strip, strip_by.
  destruct (lstrip_suffix isspace s) as [a Ha].
  destruct (rstrip_prefix isspace (lstrip_by isspace s)) as [b Hb].
  exists a, b. by rewrite <- Hb.
Qed.

Lemma space_run_infix (a s b : string) :
  space_run (a +:+ s +:+ b) = false -> space_run s = false.
Proof.
  intros H. destruct (space_run s) eqn:E; [|done].
  apply has_space_run_spec in E as (x & c & d & y & -> & Hc & Hd).
  assert (Hr : has_space_run (a +:+ (x +:+ String c (String d y)) +:+ b)).
  { exists (a +:+ x), c, d, (y +:+ b). by rewrite !app_assoc_str, !app_cons_str. }
  apply has_space_run_spec in Hr. congruence.
Qed.

Lemma contains_char_app (c : ascii) (a b : string) :
  contains_char c (a +:+ b) = contains_char c a || contains_char c b.
Proof.
  induction a as [|x a IH]; [reflexivity|].
  rewrite app_cons_str. cbn. by rewrite IH, orb_assoc.
Qed.

Lemma contains_char_collapse (c : ascii) (s : string) (k : nat) :
  isspace c = false -> contains_char c s = false ->
  contains_char c (re_sub_go re_spaces " " k s) = false.
Proof.
  intros Hc. revert k. induction s as [|x s IH]; intros k; [done|].
  cbn [contains_char re_sub_go]. intros [Hx Hs]%orb_false_iff.
  destruct k as [|k]; [|by apply IH].
  rewrite re_spaces_cons. destruct (isspace x).
  - change (" " +:+ ?y) with (String " " y). cbn [contains_char].
    rewrite IH by done. destruct (Ascii.eqb_spec " "%char c) as [<- | ?]; done.
  - cbn. by rewrite Hx, IH.
Qed.

(** A substitution whose pattern starts with a character that the text
    does not hold changes nothing. *)
Lemma re_sub_absent (match_at : string -> option nat) (repl : string) (c : ascii) (s : string) :
  (forall d t, d <> c -> match_at (String d t) = None) ->
  contains_char c s = false ->
  re_sub match_at repl s = s.
Proof.
  intros Hm. unfold re_sub. induction s as [|d s IH]; [done|].
  cbn [contains_char re_sub_go]. intros [Hd Hs]%orb_false_iff.
  rewrite Hm, IH; [done | done |]. intros ->. by rewrite Ascii.eqb_refl in Hd.
Qed.

Lemma re_citation_needs_bracket (d : ascii) (t : string) :
  d <> "["%char -> re_citation (String d t) = None.
Proof. intros H. by destruct d as [[] [] [] [] [] [] [] []]. Qed.

Lemma re_edit_paren_needs_paren (d : ascii) (t : string) :
  d <> "("%char -> re_edit_paren (String d t) = None.
Proof. intros H. by destruct d as [[] [] [] [] [] [] [] []]. Qed.

Lemma has_citation_marker_bracket (s : string) :
  has_citation_marker s -> contains_char "[" s = true.
Proof.
  intros (a & n & b & -> & _). rewrite contains_char_app.
  apply orb_true_iff. right. reflexivity.
Qed.

(** X1.  For a text without brackets and parentheses the normal form holds
    no run of white space and no citation marker. *)
Theorem normalize_text_plain (text : string) :
  contains_char "[" text = false ->
  contains_char "(" text = false ->
  ~ has_space_run (normalize_text text)
  /\ ~ has_citation_marker (normalize_text text).
Proof.
  intros Hb Hp.
  assert (Hstrip : forall c s, contains_char c s = false -> contains_char c (strip s) = false).
  { intros c s H. destruct (strip_infix s) as (a & b & Heq). rewrite Heq in H.
    rewrite !contains_char_app in H. by apply orb_false_iff in H as [_ [H _]%orb_false_iff]. }
  unfold normalize_text. destruct text as [|c0 text0]; [split; [|intros H%has_citation_marker_bracket; done]|].
  { rewrite has_space_run_spec. done. }
  set (text := String c0 text0) in *.
  set (collapsed := re_sub re_spaces " " (strip text)).
  assert (Hcb : contains_char "[" collapsed = false).
  { apply contains_char_collapse; [done | by apply Hstrip]. }
  assert (Hcp : contains_char "(" collapsed = false).
  { apply contains_char_collapse; [done | by apply Hstrip]. }
  rewrite (re_sub_absent re_citation "" "[" collapsed re_citation_needs_bracket Hcb).
  rewrite (re_sub_absent re_edit_paren "" "(" collapsed re_edit_paren_needs_paren Hcp).
  split.
  - rewrite has_space_run_spec. destruct (strip_infix collapsed) as (a & b & Heq).
    assert (Hrun : space_run collapsed = false).
    { apply (collapse_spaces_no_run (strip text) 0). reflexivity. }
    rewrite Heq in Hrun. apply space_run_infix in Hrun. by rewrite Hrun.
  - intros H%has_citation_marker_bracket. by rewrite Hstrip in H.
Qed.

Lemma normalize_text_plain_witness :
  contains_char "[" "  African   elephant " = false
  /\ contains_char "(" "  African   elephant " = false
  /\ normalize_text "  African   elephant " = "African elephant"
  /\ ~ has_space_run (normalize_text "  African   elephant ").
Proof.
  split; [reflexivity|]. split; [reflexivity|]. split; [reflexivity|].
  exact (proj1 (normalize_text_plain "  African   elephant " eq_refl eq_refl)).
Defined.

(** ** Multi-Value Splitter *)

Lemma fold_left_pointwise {A B} (f g : A -> B -> A) :
  (forall a b, f a b = g a b) ->
  forall (l : list B) (a : A), fold_left f l a = fold_left g l a.
Proof.
  intros H l. induction l as [|b l IH]; intros a; [reflexivity|].
  cbn. by rewrite H, IH.
Qed.

Lemma apply_separator_flat_map (separator : string) (adjectives : list string) :
  apply_separator separator adjectives
  = flat_map (fun adj => split adj separator) adjectives.
Proof.
  unfold apply_separator.
  rewrite (fold_left_pointwise _ (fun acc adj => acc ++ split adj separator)).
  - by rewrite fold_left_extend.
  - intros acc adj. destruct (str_in separator adj) eqn:E; [reflexivity|].
    by rewrite (split_absent _ _ E).
Qed.

Lemma clean_adjectives_filter_map (adjectives : list string) :
  clean_adjectives adjectives
  = List.filter is_kept (map normalize_text adjectives).
Proof.
  unfold clean_adjectives.
  rewrite (fold_left_pointwise _
             (fun acc adj => acc ++ (if is_kept (normalize_text adj)
                                     then [normalize_text adj] else []))).
  - rewrite fold_left_extend, app_nil_l.
    induction adjectives as [|adj l IH]; [reflexivity|].
    cbn [flat_map map List.filter]. rewrite IH.
    by destruct (is_kept (normalize_text adj)).
  - intros acc adj. cbn zeta.
    destruct (is_kept (normalize_text adj)); [reflexivity | by rewrite app_nil_r].
Qed.

(** C1, as stated: on ["A, B and C"] the splitter does not return the
    three letters.  Each of them has length one and is discarded by the
    length test, so the fallback returns the text unsplit. *)
Lemma split_A_B_and_C_not_three :
  _split_multiple_adjectives "A, B and C" "A, B and C" <> ["A"; "B"; "C"].
Proof. vm_compute. discriminate. Qed.

(** C1, amended.  With fragments longer than one character the example
    splits in three; ["A, B and C"] comes back unsplit.  For every input
    the separators are applied in order, each to every fragment the
    previous ones produced, and every fragment is normalized before it
    is filtered; the text itself is the answer when nothing is kept. *)
Theorem split_multiple_adjectives_cascade :
  _split_multiple_adjectives "Leonine, Royal and Majestic" "Leonine, Royal and Majestic"
    = ["Leonine"; "Royal"; "Majestic"]
  /\ _split_multiple_adjectives "A, B and C" "A, B and C" = ["A, B and C"]
  /\ forall adjective_html adjective_text : string,
       let final_text := final_text_of adjective_html adjective_text in
       let fragments :=
         fold_left (fun frags sep => flat_map (fun f => split f sep) frags)
                   [","; ";"; " or "; " and "; "/"; " & "] [final_text] in
       apply_separators final_text = fragments
       /\ _split_multiple_adjectives adjective_html adjective_text
          = match List.filter is_kept (map normalize_text fragments) with
            | [] => [final_text]
            | kept => kept
            end.
Proof.
  split; [reflexivity|]. split; [reflexivity|].
  intros adjective_html adjective_text final_text fragments.
  assert (H : apply_separators final_text = fragments).
  { unfold apply_separators, fragments, separators. cbn [fold_left].
    by rewrite !apply_separator_flat_map. }
  split; [exact H|].
  unfold _split_multiple_adjectives. fold final_text.
  by rewrite clean_adjectives_filter_map, H.
Qed.

(** The remaining examples of the splitter. *)
Example split_single : _split_multiple_adjectives "Feline" "Feline" = ["Feline"].
Proof. reflexivity. Qed.

Example split_line_break :
  _split_multiple_adjectives "<td>Canine<br>Loyal</td>" "Canine Loyal" = ["Canine"; "Loyal"].
Proof. reflexivity. Qed.

(** ** Table Classifier *)

Lemma has_indicator_spec (cell : Cell) :
  has_indicator (lower (get_text_strip cell)) = true <-> names_target cell.
Proof.
  unfold has_indicator, names_target. rewrite existsb_exists. split.
  - intros (ind & Hin & Hsub). exists ind. split.
    + by apply list_elem_of_In.
    + by apply str_in_spec.
  - intros (ind & Hin & Hsub). exists ind. split.
    + by apply list_elem_of_In.
    + by apply str_in_spec.
Qed.

Lemma header_selected_spec (header : Row) (rest : list Row) :
  existsb has_indicator (map (fun cell => lower (get_text_strip cell)) header) = true
  <-> qualifies (header :: rest).
Proof.
  rewrite existsb_exists. split.
  - intros (txt & Hin & Hind). apply in_map_iff in Hin as (cell & <- & Hcell).
    exists header, rest, cell. split; [done|]. split.
    + by apply list_elem_of_In.
    + by apply has_indicator_spec.
  - intros (h & r & cell & Heq & Hcell & Ht). injection Heq as <- <-.
    exists (lower (get_text_strip cell)). split.
    + apply in_map_iff. exists cell. split; [done | by apply list_elem_of_In].
    + by apply has_indicator_spec.
Qed.

Lemma not_qualifies_nil : ~ qualifies [].
Proof. intros (h & r & c & H & _). discriminate. Qed.

Lemma filter_sublist {A} (f : A -> bool) (xs : list A) : sublist (List.filter f xs) xs.
Proof.
  induction xs as [|x xs IH]; [constructor|].
  cbn. destruct (f x); by constructor.
Qed.

Lemma identify_from (tables : list SoupTable) (acc : list SoupTable) :
  exists sel,
    fold_left
      (fun valid_tables table =>
         match table_rows table with
         | [] => valid_tables
         | header_row :: _ =>
             if existsb has_indicator
                  (map (fun cell => lower (get_text_strip cell)) header_row)
             then valid_tables ++ [table] else valid_tables
         end) tables acc = acc ++ sel
    /\ sublist sel tables
    /\ forall t, t ∈ sel <-> t ∈ tables /\ qualifies (table_rows t).
Proof.
  revert acc. induction tables as [|t0 tables IH]; intros acc.
  - exists []. cbn. rewrite app_nil_r. split; [done|]. split; [constructor|].
    intros t. split; [intros H; inversion H | intros [H _]; inversion H].
  - cbn [fold_left]. destruct (table_rows t0) as [|header rest] eqn:E0.
    + destruct (IH acc) as (sel & Heq & Hsub & Hmem). exists sel.
      split; [done|]. split; [by constructor|].
      intros t. rewrite Hmem, elem_of_cons. split; [tauto|].
      intros [[-> | H] Hq]; [|done].
      rewrite E0 in Hq. by apply not_qualifies_nil in Hq.
    + destruct (existsb has_indicator _) eqn:E.
      * destruct (IH (acc ++ [t0])) as (sel & Heq & Hsub & Hmem).
        exists (t0 :: sel).
        split; [rewrite <- app_assoc in Heq; exact Heq|].
        split; [by constructor|].
        intros t. rewrite !elem_of_cons, Hmem. split.
        -- intros [-> | [H Hq]]; [|tauto].
           split; [by left|]. rewrite E0. by apply (header_selected_spec header rest).
        -- intros [[-> | H] Hq]; [by left | by right].
      * destruct (IH acc) as (sel & Heq & Hsub & Hmem). exists sel.
        split; [done|]. split; [by constructor|].
        intros t. rewrite Hmem, elem_of_cons. split; [tauto|].
        intros [[-> | H] Hq]; [|done].
        rewrite E0 in Hq. apply (header_selected_spec header rest) in Hq. congruence.
Qed.

(** The tables selected: those of class [wikitable] that qualify, in
    the order of the document. *)
Lemma identify_spec (soup : list SoupTable) :
  sublist (_identify_collateral_adjective_tables soup) soup
  /\ forall t, t ∈ _identify_collateral_adjective_tables soup
       <-> t ∈ soup /\ "wikitable" ∈ table_classes t /\ qualifies (table_rows t).
Proof.
  destruct (identify_from (find_all_wikitable soup) []) as (sel & Heq & Hsub & Hmem).
  assert (_identify_collateral_adjective_tables soup = sel) as -> by exact Heq.
  split.
  - etrans; [exact Hsub | apply filter_sublist].
  - intros t. rewrite Hmem. unfold find_all_wikitable.
    rewrite list_elem_of_In, filter_In, <- list_elem_of_In, in_list_spec. tauto.
Qed.

Lemma find_index_from_spec (cells : list Cell) (idx : Z) :
  (find_index_from idx cells = (-1)%Z /\ forall cell, cell ∈ cells -> ~ names_target cell)
  \/ exists (i : nat) (cell : Cell),
       find_index_from idx cells = (idx + Z.of_nat i)%Z
       /\ cells !! i = Some cell /\ names_target cell
       /\ forall (j : nat) (c : Cell), (j < i)%nat -> cells !! j = Some c -> ~ names_target c.
Proof.
  revert idx. induction cells as [|cell cells IH]; intros idx.
  - left. split; [reflexivity|]. intros c H. inversion H.
  - cbn [find_index_from]. destruct (has_indicator _) eqn:E.
    + right. exists 0%nat, cell. split; [lia|]. split; [done|].
      split; [by apply has_indicator_spec|]. intros j c Hj. lia.
    + assert (Hn : ~ names_target cell).
      { intros H. apply has_indicator_spec in H. congruence. }
      destruct (IH (idx + 1)%Z) as [[Hr Hnone] | (i & c & Hr & Hl & Ht & Hmin)].
      * left. split; [done|]. intros c Hc. apply elem_of_cons in Hc as [-> | Hc]; auto.
      * right. exists (S i), c. split; [lia|]. split; [done|]. split; [done|].
        intros j c' Hj Hl'. destruct j as [|j]; cbn in Hl'.
        -- by injection Hl' as <-.
        -- apply (Hmin j c'); [lia | done].
Qed.

(** C9, as stated: a table whose header names the target column is not
    selected when it does not carry the class [wikitable]; the
    classifier looks at the tables of that class only. *)
Lemma table_without_wikitable_class_is_not_selected :
  let t := mkSoupTable ["infobox"] [[["Animal"]; ["Collateral Adjective"]; ["Other"]]] in
  qualifies (table_rows t)
  /\ _identify_collateral_adjective_tables [t] = [].
Proof.
  intros t. split; [|reflexivity].
  apply (header_selected_spec [["Animal"]; ["Collateral Adjective"]; ["Other"]] []).
  reflexivity.
Qed.

(** C9, amended.  A table of the document is selected exactly when it
    carries the class [wikitable] and has a first row one of whose cells
    contains an indicator, in any letter case; the selected tables keep
    their order; the reported index is that of the leftmost such cell,
    and [-1] when there is none; the two example headers, in tables of
    that class; a table without rows is passed over. *)
Theorem table_classifier_selects_by_header :
  (forall (soup : list SoupTable) (t : SoupTable),
      t ∈ _identify_collateral_adjective_tables soup
      <-> t ∈ soup /\ "wikitable" ∈ table_classes t /\ qualifies (table_rows t))
  /\ (forall soup : list SoupTable,
        sublist (_identify_collateral_adjective_tables soup) soup)
  /\ (forall header : Row,
        (_find_collateral_adjective_column_index header = (-1)%Z
         /\ forall cell, cell ∈ header -> ~ names_target cell)
        \/ exists (i : nat) (cell : Cell),
             _find_collateral_adjective_column_index header = Z.of_nat i
             /\ header !! i = Some cell /\ names_target cell
             /\ forall (j : nat) (c : Cell),
                  (j < i)%nat -> header !! j = Some c -> ~ names_target c)
  /\ (let t := mkSoupTable ["wikitable"; "sortable"]
                 [[["Animal"]; ["Collateral Adjective"]; ["Other"]]] in
      _identify_collateral_adjective_tables [t] = [t]
      /\ _find_collateral_adjective_column_index
           [["Animal"]; ["Collateral Adjective"]; ["Other"]] = 1%Z)
  /\ _identify_collateral_adjective_tables
       [mkSoupTable ["wikitable"] [[["Animal"]; ["Habitat"]; ["Diet"]]]] = []
  /\ (forall (classes : list string) (soup : list SoupTable),
        _identify_collateral_adjective_tables (mkSoupTable classes [] :: soup)
        = _identify_collateral_adjective_tables soup).
Proof.
  split; [intros soup t; apply identify_spec|].
  split; [intros soup; apply identify_spec|].
  split.
  { intros header. unfold _find_collateral_adjective_column_index.
    destruct (find_index_from_spec header 0) as [H | (i & c & Hr & H)]; [by left|].
    right. exists i, c. by rewrite Hr, Z.add_0_l. }
  split; [split; reflexivity|]. split; [reflexivity|].
  intros classes soup. unfold _identify_collateral_adjective_tables, find_all_wikitable.
  cbn [List.filter table_classes]. by destruct (in_list "wikitable" classes).
Qed.

(** ** Validator *)

Lemma invalid_term_shape (term : string) :
  term ∈ invalid_terms -> starts_nonspace term /\ rstrip_by isspace term = term.
Proof.
  unfold invalid_terms. rewrite !elem_of_cons.
  intros H. repeat (destruct H as [-> | H]; [split; reflexivity|]).
  inversion H.
Qed.

Lemma is_valid_animal_name_rejects (name term : string) :
  term ∈ invalid_terms -> is_substring term (lower name) ->
  is_valid_animal_name name = false.
Proof.
  intros Hin Hsub. unfold is_valid_animal_name.
  destruct name as [|c name]; [reflexivity|].
  destruct (len _ <? 2)%nat; [reflexivity|].
  apply negb_false_iff, existsb_exists. exists term. split.
  - by apply list_elem_of_In.
  - by apply str_in_spec.
Qed.

(** C10.  The denylist test looks for each term anywhere inside the
    lower-cased key: a record whose key contains a term is rejected,
    whatever the rest of the key is. *)
Theorem validator_denylist_is_substring_test (entry : Entry) (term : string) :
  term ∈ invalid_terms ->
  is_substring term (lower (animal entry)) ->
  is_valid_animal_name (strip (animal entry)) = false
  /\ validate_animal_entry entry = false.
Proof.
  intros Hin Hsub.
  assert (Hname : is_valid_animal_name (strip (animal entry)) = false).
  { apply (is_valid_animal_name_rejects _ term Hin).
    rewrite lower_strip. destruct (invalid_term_shape term Hin) as [H1 H2].
    by apply is_substring_strip. }
  split; [exact Hname|].
  unfold validate_animal_entry. rewrite Hname.
  by destruct (_ || _).
Qed.

(** A key that holds [male] inside a longer word, the name of a bird. *)
Lemma validator_denylist_is_substring_test_witness :
  "male" ∈ invalid_terms
  /\ is_substring "male" (lower "Maleo")
  /\ validate_animal_entry
       (mkEntry "Maleo" "megapodine" None None None None None) = false.
Proof.
  assert (H1 : "male" ∈ invalid_terms).
  { unfold invalid_terms. rewrite !elem_of_cons. tauto. }
  assert (H2 : is_substring "male" (lower "Maleo")).
  { exists "", "o". reflexivity. }
  split; [exact H1|]. split; [exact H2|].
  exact (proj2 (validator_denylist_is_substring_test
                  (mkEntry "Maleo" "megapodine" None None None None None) "male" H1 H2)).
Defined.

(** ** Deduplicator *)

Section Dedup.

Implicit Types (l : list Entry) (e : Entry).

Lemma dedup_run_snoc l e : dedup_run (l ++ [e]) = dedup_step (dedup_run l) e.
Proof. unfold dedup_run. by rewrite fold_left_app. Qed.

(** The set [seen_combinations] holds the keys of all the records read. *)
Lemma seen_combinations_spec l (k : string * string) :
  k ∈ seen_combinations (dedup_run l) <-> k ∈ combination_key <$> l.
Proof.
  revert k. induction l as [|e l IH] using rev_ind; intros k.
  - cbn. split; [by intros H%not_elem_of_empty | by intros H%not_elem_of_nil].
  - rewrite dedup_run_snoc, fmap_app, elem_of_app. cbn [fmap list_fmap].
    rewrite list_elem_of_singleton.
    unfold dedup_step. case_decide as Hin; cbn [seen_combinations].
    + rewrite IH. apply IH in Hin. split; [by left|]. by intros [H | ->].
    + rewrite elem_of_union, elem_of_singleton, IH. tauto.
Qed.

Lemma deduplicate_snoc l e :
  deduplicate_entries (l ++ [e])
  = deduplicate_entries l
    ++ (if decide (combination_key e ∈ combination_key <$> l) then [] else [e]).
Proof.
  unfold deduplicate_entries. rewrite dedup_run_snoc. unfold dedup_step.
  case_decide as Hin; case_decide as Hin'; cbn [deduplicated_data].
  - by rewrite app_nil_r.
  - by apply seen_combinations_spec in Hin.
  - by apply seen_combinations_spec in Hin'.
  - reflexivity.
Qed.

Lemma omap_agree {A B} (f g : A -> option B) (xs : list A) :
  (forall x, x ∈ xs -> f x = g x) -> omap f xs = omap g xs.
Proof.
  induction xs as [|x xs IH]; intros H; [reflexivity|].
  cbn. rewrite (H x), IH; [done | | by left].
  intros y Hy. apply H. by right.
Qed.

Lemma first_occurrences_snoc (pair_of : Entry -> string * string) l e :
  first_occurrences pair_of (l ++ [e])
  = first_occurrences pair_of l
    ++ (if decide (pair_of e ∈ pair_of <$> l) then [] else [e]).
Proof.
  unfold first_occurrences.
  rewrite length_app, seq_app, omap_app. cbn [length seq omap Nat.add]. f_equal.
  - apply omap_agree. intros i Hi. apply elem_of_seq in Hi.
    rewrite lookup_app_l, take_app_le by lia. reflexivity.
  - cbn. rewrite list_lookup_middle, take_app_length by done.
    by case_decide.
Qed.

Lemma deduplicate_first_occurrences l :
  deduplicate_entries l = first_occurrences combination_key l.
Proof.
  induction l as [|e l IH] using rev_ind; [reflexivity|].
  by rewrite deduplicate_snoc, first_occurrences_snoc, IH.
Qed.

Lemma deduplicate_sublist l : sublist (deduplicate_entries l) l.
Proof.
  induction l as [|e l IH] using rev_ind; [constructor|].
  rewrite deduplicate_snoc. apply sublist_app; [exact IH|].
  case_decide; [apply sublist_nil_l | reflexivity].
Qed.

Lemma deduplicate_keys_NoDup l :
  NoDup (combination_key <$> deduplicate_entries l).
Proof.
  induction l as [|e l IH] using rev_ind; [constructor|].
  rewrite deduplicate_snoc. case_decide as Hin.
  - by rewrite app_nil_r.
  - rewrite fmap_app. apply NoDup_app. split; [exact IH|]. split.
    + intros k Hk Hk'. apply list_elem_of_singleton in Hk' as ->.
      apply Hin. apply list_elem_of_fmap in Hk as (x & -> & Hx).
      apply list_elem_of_fmap_2. revert Hx.
      apply (sublist_subseteq _ _ (deduplicate_sublist l)).
    + apply NoDup_singleton.
Qed.

(** A list without repeated keys is left as it is. *)
Lemma deduplicate_NoDup_id l :
  NoDup (combination_key <$> l) -> deduplicate_entries l = l.
Proof.
  induction l as [|e l IH] using rev_ind; [reflexivity|].
  rewrite fmap_app. intros (Hl & Hdisj & _)%NoDup_app.
  rewrite deduplicate_snoc, (IH Hl). case_decide as Hin; [|reflexivity].
  exfalso. apply (Hdisj _ Hin). by left.
Qed.

(** C7, as stated: the pair is not the pair of the normal forms.  Two
    records that differ in letter case only have different normal forms,
    and the second is dropped all the same: the code compares the normal
    forms in lower case. *)
Lemma case_variant_is_dropped_as_duplicate :
  let E a b := mkEntry a b None None None None None in
  let normalized := fun e : Entry => (normalize_text (animal e), normalize_text (adjective e)) in
  normalized (E "lion" "leonine") <> normalized (E "Lion" "Leonine")
  /\ first_occurrences normalized [E "Lion" "Leonine"; E "lion" "leonine"]
     = [E "Lion" "Leonine"; E "lion" "leonine"]
  /\ deduplicate_entries [E "Lion" "Leonine"; E "lion" "leonine"] = [E "Lion" "Leonine"].
Proof. intros E normalized. split; [by vm_compute|]. split; by vm_compute. Qed.

(** C7, amended.  Deduplicating the output of the deduplicator changes
    nothing; the output consists of the records whose pair (normalized
    key in lower case, normalized value in lower case) has not occurred
    before, in the order of the input, so it is a subsequence of the
    input and holds no such pair twice. *)
Theorem deduplicate_entries_idempotent_first_wins :
  forall animal_data : list Entry,
    let pair_of := fun e : Entry =>
      (lower (normalize_text (animal e)), lower (normalize_text (adjective e))) in
    deduplicate_entries (deduplicate_entries animal_data) = deduplicate_entries animal_data
    /\ deduplicate_entries animal_data = first_occurrences pair_of animal_data
    /\ sublist (deduplicate_entries animal_data) animal_data
    /\ NoDup (pair_of <$> deduplicate_entries animal_data).
Proof.
  intros l pair_of. split; [|split; [|split]].
  - apply deduplicate_NoDup_id, deduplicate_keys_NoDup.
  - apply deduplicate_first_occurrences.
  - apply deduplicate_sublist.
  - apply deduplicate_keys_NoDup.
Qed.

(** The number of dropped records is what [duplicate_entries] counts. *)
Lemma duplicate_entries_count l :
  (length (deduplicate_entries l) + duplicate_entries (dedup_run l) = length l)%nat.
Proof.
  induction l as [|e l IH] using rev_ind; [reflexivity|].
  unfold deduplicate_entries in *. rewrite dedup_run_snoc, length_app. unfold dedup_step.
  case_decide; cbn [deduplicated_data duplicate_entries length]; [lia|].
  rewrite length_app. cbn. lia.
Qed.

(** The end-to-end example: validation, then deduplication. *)
Example validate_and_deduplicate_example :
  let E a b := mkEntry a b None None None None None in
  validate_and_deduplicate
    [E "Lion" "Leonine"; E "Lion" "Leonine"; E "" "Invalid";
     E "Eagle" "Aquiline"; E "Dog" "Canine"]
  = [E "Lion" "Leonine"; E "Eagle" "Aquiline"; E "Dog" "Canine"].
Proof. by vm_compute. Qed.

End Dedup.

(** ** Metadata Lookup *)

Section LookupFacts.

Variable api : string -> ApiGet.

(** The handler turns every exception into the answer [None]. *)
Lemma api_lookup_handler_returns (name : string) (e : Exn) (st : ScraperState) :
  api_lookup_handler name e st
  = (mkScraperState (<[name := JNull]> (_api_cache st)) (api_requests st), inl JNull).
Proof. by destruct e. Qed.

(** No exception escapes the lookup. *)
Lemma lookup_never_raises (name : string) (st : ScraperState) :
  exists st' v, _get_animal_image_from_api api name st = (st', inl v).
Proof.
  unfold _get_animal_image_from_api.
  destruct (String.eqb name ""); [by eexists _, _|].
  unfold py_bind, py_get. destruct (_api_cache st !! name); [by eexists _, _|].
  unfold py_try. destruct (api_lookup_body api name st) as [st' [v | e]].
  - by eexists _, _.
  - rewrite api_lookup_handler_returns. by eexists _, _.
Qed.

(** A failed lookup leaves the [try] block by an exception, before the
    cache is written. *)
Lemma api_lookup_body_failure (name : string) (st : ScraperState) :
  lookup_failure (api (wiki_api_base +:+ quote name)) ->
  exists e, api_lookup_body api name st
            = (mkScraperState (_api_cache st)
                 (api_requests st ++ [wiki_api_base +:+ quote name]), inr e).
Proof.
  unfold lookup_failure, api_lookup_body, api_session_get, py_bind, py_modify.
  destruct (api _) as [e | r]; [intros _; by eexists|].
  unfold raise_for_status, response_json, malformed_body, py_ret, py_raise.
  intros [H304 | [Herr | Hbody]].
  - rewrite H304. cbn. by eexists.
  - destruct ((400 <=? api_status r) && (api_status r <? 500))%Z eqn:E4;
      [by eexists|].
    destruct ((500 <=? api_status r) && (api_status r <? 600))%Z eqn:E5;
      [by eexists|].
    exfalso. apply andb_false_iff in E4, E5.
    rewrite Z.leb_gt, Z.ltb_ge in E4, E5. lia.
  - destruct ((400 <=? api_status r) && (api_status r <? 500))%Z; [by eexists|].
    destruct ((500 <=? api_status r) && (api_status r <? 600))%Z; [by eexists|].
    destruct (_ || _)%bool; [by eexists|].
    destruct (api_json r) as [[| | | | |]|]; try done; by eexists.
Qed.

End LookupFacts.

(** C8.  A failed lookup (a request that raises, a "not modified"
    answer, an error status, a malformed body) returns [None] and raises
    nothing; the failure is remembered as [None] in the cache. *)
Theorem metadata_lookup_failure_is_no_locator
    (api : string -> ApiGet) (name : string) (st : ScraperState) :
  _api_cache st !! name = None ->
  lookup_failure (api (wiki_api_base +:+ quote name)) ->
  exists st',
    _get_animal_image_from_api api name st = (st', inl JNull)
    /\ (name <> "" -> _api_cache st' !! name = Some JNull).
Proof.
  intros Hmiss Hfail. unfold _get_animal_image_from_api.
  destruct (String.eqb_spec name "") as [-> | Hne]; [by eexists|].
  unfold py_bind, py_get. rewrite Hmiss. unfold py_try.
  destruct (api_lookup_body_failure api name st Hfail) as [e He].
  rewrite He, api_lookup_handler_returns. eexists. split; [reflexivity|].
  intros _. cbn. apply lookup_insert_eq.
Qed.

(** The service answers "not modified" for the page [Lion]. *)
Lemma metadata_lookup_failure_is_no_locator_witness :
  let api := fun _ : string =>
    ApiReturns (mkApiResponse 304 "Not Modified"
                  "https://en.wikipedia.org/api/rest_v1/page/summary/Lion" None) in
  let st := mkScraperState ∅ [] in
  _api_cache st !! "Lion" = None
  /\ lookup_failure (api (wiki_api_base +:+ quote "Lion"))
  /\ exists st',
       _get_animal_image_from_api api "Lion" st = (st', inl JNull)
       /\ ("Lion" <> "" -> _api_cache st' !! "Lion" = Some JNull).
Proof.
  intros api st.
  assert (H1 : _api_cache st !! "Lion" = None) by reflexivity.
  assert (H2 : lookup_failure (api (wiki_api_base +:+ quote "Lion"))) by (left; reflexivity).
  split; [exact H1|]. split; [exact H2|].
  exact (metadata_lookup_failure_is_no_locator api "Lion" st H1 H2).
Defined.

(** A request that raises, and a body that is no JSON document. *)
Example metadata_lookup_request_error :
  let api := fun _ : string => ApiRaises (RequestException "Network error") in
  snd (_get_animal_image_from_api api "Lion" (mkScraperState ∅ [])) = inl JNull.
Proof. reflexivity. Qed.

Example metadata_lookup_thumbnail :
  let body := JObj [("title", JStr "Lion");
                    ("thumbnail", JObj [("source", JStr "https://upload.example/lion.jpg")])] in
  let api := fun _ : string => ApiReturns (mkApiResponse 200 "OK" "" (Some body)) in
  snd (_get_animal_image_from_api api "Lion" (mkScraperState ∅ []))
  = inl (JStr "https://upload.example/lion.jpg").
Proof. reflexivity. Qed.

(** ** Fetch Orchestrator: one task *)

Import Downloader.

Section ChunkLoop.

Variable local_path : string.

Lemma received_cons (chunk : list Byte.byte) (rest : list (list Byte.byte)) :
  received (chunk :: rest) = (Z.of_nat (length chunk) + received rest)%Z.
Proof. reflexivity. Qed.

(** The loop touches no file but [local_path] and requests nothing. *)
Lemma write_chunks_frame (cs : list (list Byte.byte)) (total : Z) (w : World) :
  requests (fst (write_chunks local_path cs total w)) = requests w
  /\ forall p, p <> local_path ->
       fs (fst (write_chunks local_path cs total w)) !! p = fs w !! p.
Proof.
  revert total w. induction cs as [|chunk rest IH]; intros total w; [done|].
  cbn [write_chunks]. destruct chunk as [|b chunk]; [apply IH|].
  unfold py_bind, file_write, on_fs, py_modify.
  destruct (_ >? _)%Z.
  - unfold unlink, py_bind, py_get. cbn [fs fst].
    destruct (alter _ local_path (fs w) !! local_path) eqn:E; cbn.
    + split; [done|]. intros p Hp. by rewrite lookup_delete_ne, lookup_alter_ne.
    + split; [done|]. intros p Hp. by rewrite lookup_alter_ne.
  - match goal with |- context [write_chunks _ rest ?t ?w'] =>
      destruct (IH t w') as [H1 H2] end.
    split; [by rewrite H1|]. intros p Hp. rewrite (H2 p Hp). cbn.
    by rewrite lookup_alter_ne.
Qed.

(** Once the bytes received pass the ceiling, the loop removes the file
    and returns the failure. *)
Lemma write_chunks_exceeds (cs : list (list Byte.byte)) (total : Z) (w : World) :
  is_Some (fs w !! local_path) ->
  (total <= Config.MAX_IMAGE_SIZE)%Z ->
  (exists k, (total + received (take k cs) > Config.MAX_IMAGE_SIZE)%Z) ->
  exists w',
    write_chunks local_path cs total w
    = (w', inl (inl (false, "Image too large during download", None)))
    /\ fs w' !! local_path = None
    /\ download_stats w'
       = mkStats (attempted (download_stats w)) (successful (download_stats w))
                 (S (failed (download_stats w))) (skipped (download_stats w)).
Proof.
  revert total w. induction cs as [|chunk rest IH]; intros total w Hex Hle [k Hk].
  - rewrite take_nil in Hk. cbn in Hk. lia.
  - destruct k as [|k]; [cbn in Hk; lia|].
    cbn [take] in Hk. rewrite received_cons in Hk.
    cbn [write_chunks]. destruct chunk as [|b chunk].
    + apply IH; [done | done |]. exists k. cbn [length] in Hk. lia.
    + unfold py_bind, file_write, on_fs, py_modify.
      destruct (_ >? _)%Z eqn:E.
      * unfold unlink, py_bind, py_get. cbn [fs].
        destruct Hex as [old Hold]. rewrite lookup_alter_eq, Hold. cbn.
        eexists. split; [reflexivity|]. split; [apply lookup_delete_eq | done].
      * rewrite Z.gtb_ltb, Z.ltb_ge in E.
        match goal with |- context [write_chunks _ rest ?t ?w'] =>
          destruct (IH t w') as (w2 & Hw2 & Hfs & Hst) end.
        -- cbn [fs]. rewrite lookup_alter_eq. destruct Hex as [old ->]. by eexists.
        -- done.
        -- exists k. lia.
        -- exists w2. by rewrite Hw2.
Qed.

End ChunkLoop.

Ltac unfold_py :=
  unfold py_try, py_bind, py_ret, py_raise, py_get, py_modify, py_call.

Lemma verify_download_requests (local_path : string) (total : Z) (w : World) :
  requests (fst (verify_download local_path total w)) = requests w.
Proof.
  unfold verify_download, path_exists, path_size, unlink, incr_failed,
    incr_successful, on_stats, on_fs.
  unfold_py.
  destruct (fs w !! local_path) as [content|] eqn:E.
  - rewrite bool_decide_eq_true_2 by by eexists.
    cbn. rewrite E. destruct (Z.of_nat (length content) =? 0)%Z; [|done]. by rewrite E.
  - rewrite bool_decide_eq_false_2 by (by intros [? ?]). done.
Qed.

Lemma transfer_requests (local_path : string) (r : Response) (w : World) :
  requests (fst (transfer local_path r w)) = requests w.
Proof.
  unfold transfer, open_wb, on_fs. unfold_py.
  match goal with |- context [write_chunks ?p ?cs ?t ?w'] =>
    pose proof (proj1 (write_chunks_frame p cs t w')) as Hreq;
    destruct (write_chunks p cs t w') as [w2 [[early | total] | e]]
  end; cbn [fst requests] in Hreq; [done | | done].
  destruct (stream_error r); [done|].
  by rewrite verify_download_requests.
Qed.

(** A body that passes the ceiling: the transfer is cut short, the
    partial file is removed, and the task fails. *)
Lemma transfer_exceeds (local_path : string) (r : Response) (w : World) :
  body_exceeds r ->
  exists w',
    transfer local_path r w = (w', inl (false, "Image too large during download", None))
    /\ fs w' !! local_path = None.
Proof.
  intros [k Hk]. unfold transfer, open_wb, on_fs. unfold_py.
  match goal with |- context [write_chunks ?p ?cs ?t ?w'] =>
    destruct (write_chunks_exceeds p cs t w') as (w2 & -> & Hfs & _)
  end.
  - cbn [fs]. rewrite lookup_insert_eq. by eexists.
  - by vm_compute.
  - exists k. lia.
  - by exists w2.
Qed.

(** The destination is computed, or [urlparse] raises. *)
Lemma create_local_image_path_cases (url_suffix : string -> string + string)
    (animal_name image_url : string) :
  (exists local_path,
      create_local_image_path url_suffix animal_name image_url = inl local_path)
  \/ (exists msg, url_suffix image_url = inr msg
        /\ create_local_image_path url_suffix animal_name image_url
           = inr (ValueError msg)).
Proof.
  unfold create_local_image_path, get_file_extension_from_url.
  destruct (url_suffix image_url) as [suffix | msg]; [left | right]; by eexists.
Qed.

(** A URL that [urlparse] refuses: the task fails in the last handler
    before anything is requested, and no file is touched. *)
Lemma download_without_destination (url_suffix : string -> string + string)
    (net : string -> GetResult) (animal_name image_url : string) (w : World) (e : Exn) :
  create_local_image_path url_suffix animal_name image_url = inr e ->
  _download_single_image url_suffix net animal_name image_url w
  = (mkWorld (fs w)
       (mkStats (S (attempted (download_stats w))) (successful (download_stats w))
                (S (failed (download_stats w))) (skipped (download_stats w)))
       (requests w),
     inl (false, "Unexpected error: " +:+ exn_str e, None)).
Proof.
  intros Hpath.
  destruct (create_local_image_path_cases url_suffix animal_name image_url)
    as [[p Hp] | (msg & _ & Hp)]; [congruence|].
  assert (e = ValueError msg) as -> by congruence.
  unfold _download_single_image, download_body, download_handler, incr_attempted,
    incr_failed, on_stats.
  unfold_py. by rewrite Hpath.
Qed.

Section SingleTask.

Variable url_suffix : string -> string + string.
Variable net : string -> GetResult.
Variables animal_name image_url : string.

(** The destination of the task is computed, and is [local_path]. *)
Variable local_path : string.
Hypothesis Hpath :
  create_local_image_path url_suffix animal_name image_url = inl local_path.

Ltac unfold_download :=
  unfold _download_single_image, download_body, download_handler,
    incr_attempted, incr_skipped, incr_failed, incr_successful,
    path_exists, path_size, open_wb, unlink, session_get, raise_for_status,
    length_too_large, on_stats, on_fs;
  unfold_py; rewrite Hpath; cbv beta iota.

(** An existing destination: the task is skipped with success, whatever
    the size of the file, and nothing is requested. *)
Lemma download_skips_existing (w : World) :
  is_Some (fs w !! local_path) ->
  _download_single_image url_suffix net animal_name image_url w
  = (mkWorld (fs w)
       (mkStats (S (attempted (download_stats w))) (successful (download_stats w))
                (failed (download_stats w)) (S (skipped (download_stats w))))
       (requests w),
     inl (true, "File already exists", Some local_path)).
Proof.
  intros Hex. unfold_download. cbn [fs].
  by rewrite (bool_decide_eq_true_2 _ Hex).
Qed.

(** A missing destination: the URL is requested, once. *)
Lemma download_requests_missing (w : World) :
  fs w !! local_path = None ->
  requests (fst (_download_single_image url_suffix net animal_name image_url w))
  = requests w ++ [image_url].
Proof.
  intros Hno. unfold_download. cbn [fs download_stats requests].
  rewrite Hno, bool_decide_eq_false_2 by (by intros [? ?]).
  destruct (net image_url) as [e | r]; [by destruct e|].
  destruct (_ && _)%bool; [done|]. destruct (_ && _)%bool; [done|].
  destruct (negb _); [done|].
  destruct (content_length r) as [[|c cl]|]; cbn [fs download_stats requests].
  - match goal with |- context [transfer ?p ?r ?w'] =>
      pose proof (transfer_requests p r w') as H;
      destruct (transfer p r w') as [w2 [o | e]] end;
      cbn [fst requests] in *; [done | by destruct e].
  - destruct (PyInt.int _) as [n|]; [|done].
    destruct (n >? _)%Z; [done|].
    match goal with |- context [transfer ?p ?r ?w'] =>
      pose proof (transfer_requests p r w') as H;
      destruct (transfer p r w') as [w2 [o | e]] end;
      cbn [fst requests] in *; [done | by destruct e].
  - match goal with |- context [transfer ?p ?r ?w'] =>
      pose proof (transfer_requests p r w') as H;
      destruct (transfer p r w') as [w2 [o | e]] end;
      cbn [fst requests] in *; [done | by destruct e].
Qed.

(** A declared length above the ceiling: the task fails before any file
    is opened. *)
Lemma download_declared_oversize (w : World) (r : Response) :
  fs w !! local_path = None ->
  net image_url = GetReturns r ->
  declares_oversize r ->
  exists w' msg,
    _download_single_image url_suffix net animal_name image_url w
    = (w', inl (false, msg, None))
    /\ fs w' = fs w.
Proof.
  intros Hno Hnet (cl & n & Hcl & Hint & Hn). unfold_download.
  cbn [fs download_stats requests].
  rewrite Hno, bool_decide_eq_false_2, Hnet by (by intros [? ?]).
  destruct (_ && _)%bool; [by eexists _, _|].
  destruct (_ && _)%bool; [by eexists _, _|].
  destruct (negb _); [by eexists _, _|].
  rewrite Hcl. destruct cl as [|c cl]; [by vm_compute in Hint|].
  rewrite Hint. replace (n >? Config.MAX_IMAGE_SIZE)%Z with true
    by (symmetry; apply Z.gtb_lt; lia).
  by eexists _, _.
Qed.

(** Every handler counts a failure and answers with one. *)
Lemma download_handler_fails (e : Exn) (w : World) :
  exists msg,
    download_handler e w
    = (mkWorld (fs w)
         (mkStats (attempted (download_stats w)) (successful (download_stats w))
                  (S (failed (download_stats w))) (skipped (download_stats w)))
         (requests w),
       inl (false, msg, None)).
Proof. destruct e; by eexists. Qed.

Lemma download_body_exceeds_try (w : World) (r : Response) :
  fs w !! local_path = None ->
  net image_url = GetReturns r ->
  body_exceeds r ->
  exists w' res,
    download_body url_suffix net animal_name image_url w = (w', res)
    /\ fs w' !! local_path = None
    /\ match res with
       | inl o => exists msg, o = (false, msg, None)
                    /\ (headers_accepted r -> msg = "Image too large during download")
       | inr _ => ~ headers_accepted r
       end.
Proof.
  intros Hno Hnet Hbody.
  unfold download_body, incr_attempted, incr_failed, path_exists, session_get,
    raise_for_status, length_too_large, on_stats.
  unfold_py. rewrite Hpath. cbv beta iota. cbn [fs download_stats requests].
  rewrite Hno, bool_decide_eq_false_2, Hnet by (by intros [? ?]).
  destruct ((400 <=? status_code r) && (status_code r <? 500))%Z eqn:E4.
  { eexists _, _. split; [reflexivity|]. split; [done|].
    intros [Hst _]. apply andb_true_iff in E4 as [?%Z.leb_le ?%Z.ltb_lt]. lia. }
  destruct ((500 <=? status_code r) && (status_code r <? 600))%Z eqn:E5.
  { eexists _, _. split; [reflexivity|]. split; [done|].
    intros [Hst _]. apply andb_true_iff in E5 as [?%Z.leb_le ?%Z.ltb_lt]. lia. }
  destruct (negb _) eqn:Ect.
  { eexists _, _. split; [reflexivity|]. split; [done|]. eexists. split; [reflexivity|].
    intros (_ & Hct & _). rewrite Hct in Ect. discriminate. }
  assert (Htransfer : forall w0,
    exists w' res,
      transfer local_path r w0 = (w', res)
      /\ fs w' !! local_path = None
      /\ match res with
         | inl o => exists msg, o = (false, msg, None)
                      /\ (headers_accepted r -> msg = "Image too large during download")
         | inr _ => ~ headers_accepted r
         end).
  { intros w0. destruct (transfer_exceeds local_path r w0 Hbody) as (w' & -> & Hfs).
    eexists _, _. split; [reflexivity|]. split; [done|]. by eexists. }
  destruct (content_length r) as [[|c cl]|] eqn:Hcl; cbn [fs download_stats requests].
  - apply Htransfer.
  - destruct (PyInt.int _) as [n|] eqn:Hint.
    + destruct (n >? _)%Z eqn:Hn.
      * eexists _, _. split; [reflexivity|]. split; [done|]. eexists. split; [reflexivity|].
        intros (_ & _ & Hlen). rewrite Hcl in Hlen. destruct Hlen as (n' & Hn' & Hle).
        rewrite Hint in Hn'. injection Hn' as <-. apply Z.gtb_lt in Hn. lia.
      * apply Htransfer.
    + eexists _, _. split; [reflexivity|]. split; [done|].
      intros (_ & _ & Hlen). rewrite Hcl in Hlen. destruct Hlen as (n' & Hn' & Hle).
      congruence.
  - apply Htransfer.
Qed.

(** A body that passes the ceiling: the task fails and leaves no file
    at its destination. *)
Lemma download_body_exceeds (w : World) (r : Response) :
  fs w !! local_path = None ->
  net image_url = GetReturns r ->
  body_exceeds r ->
  exists w' msg,
    _download_single_image url_suffix net animal_name image_url w
    = (w', inl (false, msg, None))
    /\ fs w' !! local_path = None
    /\ (headers_accepted r -> msg = "Image too large during download").
Proof.
  intros Hno Hnet Hbody.
  destruct (download_body_exceeds_try w r Hno Hnet Hbody) as (w' & res & Heq & Hfs & Hres).
  unfold _download_single_image, py_try. rewrite Heq.
  destruct res as [o | e].
  - destruct Hres as (msg & -> & Hmsg). by eexists _, _.
  - destruct (download_handler_fails e w') as [msg ->].
    eexists _, _. split; [reflexivity|]. split; [done|]. intros H. by destruct Hres.
Qed.

End SingleTask.

(** C3, as stated: a destination that exists with size zero is skipped
    all the same.  The task succeeds with "File already exists", nothing
    is requested, and the empty file stays. *)
Lemma zero_size_destination_is_skipped :
  let w := mkWorld {[ "/tmp/lion_image.jpg" := [] ]} (mkStats 0 0 0 0) [] in
  let net := fun _ : string =>
    GetReturns (mkResponse 200 "OK" "http://example.org/lion.jpg"
                  (Some "image/jpeg") None [[Byte.x89; Byte.x50]] None) in
  let r := _download_single_image (fun _ => inl ".jpg") net
             "Lion" "http://example.org/lion.jpg" w in
  fs w !! "/tmp/lion_image.jpg" = Some []
  /\ snd r = inl (true, "File already exists", Some "/tmp/lion_image.jpg")
  /\ requests (fst r) = []
  /\ fs (fst r) !! "/tmp/lion_image.jpg" = Some [].
Proof. by vm_compute. Qed.

(** C3, amended.  A task is skipped exactly when its destination is
    computed and a file exists there, whatever its size: then it
    succeeds at once, requests nothing and leaves the files alone.  When
    the destination is computed and no file is there, the URL of the
    task is requested.  When the destination cannot be computed, because
    [urlparse] refuses the URL, the task fails at once: nothing is
    requested and no file is touched. *)
Theorem download_skips_iff_destination_exists
    (url_suffix : string -> string + string) (net : string -> GetResult)
    (animal_name image_url : string) (w : World) :
  let r := _download_single_image url_suffix net animal_name image_url w in
  ((exists local_path,
       snd r = inl (true, "File already exists", Some local_path)
       /\ requests (fst r) = requests w /\ fs (fst r) = fs w)
   <-> exists local_path,
         create_local_image_path url_suffix animal_name image_url = inl local_path
         /\ is_Some (fs w !! local_path))
  /\ match create_local_image_path url_suffix animal_name image_url with
     | inl local_path =>
         (requests (fst r) = requests w <-> is_Some (fs w !! local_path))
         /\ (is_Some (fs w !! local_path) ->
             snd r = inl (true, "File already exists", Some local_path)
             /\ fs (fst r) = fs w)
         /\ (fs w !! local_path = None -> requests (fst r) = requests w ++ [image_url])
     | inr e =>
         snd r = inl (false, "Unexpected error: " +:+ exn_str e, None)
         /\ requests (fst r) = requests w
         /\ fs (fst r) = fs w
     end.
Proof.
  intros r.
  destruct (create_local_image_path url_suffix animal_name image_url)
    as [local_path | e] eqn:Hpath.
  - assert (Hskip : is_Some (fs w !! local_path) ->
              snd r = inl (true, "File already exists", Some local_path)
              /\ fs (fst r) = fs w /\ requests (fst r) = requests w).
    { intros Hex. unfold r.
      by rewrite (download_skips_existing url_suffix net animal_name image_url
                    local_path Hpath w Hex). }
    assert (Hfetch : fs w !! local_path = None ->
              requests (fst r) = requests w ++ [image_url]).
    { apply download_requests_missing, Hpath. }
    assert (Hiff : requests (fst r) = requests w <-> is_Some (fs w !! local_path)).
    { split.
      - intros Hreq. destruct (fs w !! local_path) eqn:E; [by eexists|].
        rewrite (Hfetch eq_refl) in Hreq.
        apply (f_equal length) in Hreq. rewrite length_app in Hreq. cbn in Hreq. lia.
      - intros H. by apply Hskip. }
    split; [|split; [exact Hiff | split; [intros H; split; by apply Hskip | exact Hfetch]]].
    split.
    + intros (p & _ & Hreq & _). exists local_path. split; [done | by apply Hiff].
    + intros (p & [= <-] & Hex). exists local_path.
      destruct (Hskip Hex) as (? & ? & ?). done.
  - assert (Hr : r = (mkWorld (fs w)
                        (mkStats (S (attempted (download_stats w)))
                                 (successful (download_stats w))
                                 (S (failed (download_stats w)))
                                 (skipped (download_stats w)))
                        (requests w),
                      inl (false, "Unexpected error: " +:+ exn_str e, None))).
    { apply download_without_destination, Hpath. }
    rewrite Hr. cbn [fst snd fs requests]. split; [|done].
    split; [intros (p & [=] & _) | intros (p & [=] & _)].
Qed.

Lemma download_skips_iff_destination_exists_witness :
  let w := mkWorld {[ "/tmp/lion_image.jpg" := [] ]} (mkStats 0 0 0 0) [] in
  let net := fun _ : string => GetRaises (Timeout "timed out") in
  let r := _download_single_image (fun _ => inl ".jpg") net
             "Lion" "http://example.org/lion.jpg" w in
  exists local_path,
    snd r = inl (true, "File already exists", Some local_path)
    /\ requests (fst r) = requests w /\ fs (fst r) = fs w.
Proof.
  intros w net r.
  apply (proj1 (download_skips_iff_destination_exists (fun _ => inl ".jpg") net
                  "Lion" "http://example.org/lion.jpg" w)).
  exists "/tmp/lion_image.jpg". split; [reflexivity | by eexists].
Defined.

(** A URL with an unmatched bracket in its host: no destination, no
    request, and the failure of the last handler. *)
Example download_with_invalid_url :
  let w := mkWorld ∅ (mkStats 0 0 0 0) [] in
  let url_suffix := fun url : string =>
    if String.eqb url "http://[" then inr "Invalid IPv6 URL" else inl "" in
  let net := fun _ : string => GetRaises (Timeout "timed out") in
  _download_single_image url_suffix net "Lion" "http://[" w
  = (mkWorld ∅ (mkStats 1 0 1 0) [],
     inl (false, "Unexpected error: Invalid IPv6 URL", None)).
Proof. reflexivity. Qed.

(** C5.  When the response declares a length above the ceiling, the
    task fails and the files are as they were; no file is at the
    destination before, if the task has one. *)
Theorem declared_oversize_fails_without_file
    (url_suffix : string -> string + string) (net : string -> GetResult)
    (animal_name image_url : string) (w : World) (r : Response) :
  (forall local_path,
      create_local_image_path url_suffix animal_name image_url = inl local_path ->
      fs w !! local_path = None) ->
  net image_url = GetReturns r ->
  declares_oversize r ->
  exists w' msg,
    _download_single_image url_suffix net animal_name image_url w
    = (w', inl (false, msg, None))
    /\ fs w' = fs w.
Proof.
  intros Hno Hnet Hover.
  destruct (create_local_image_path url_suffix animal_name image_url)
    as [local_path | e] eqn:Hpath.
  - by apply (download_declared_oversize url_suffix net animal_name image_url
                local_path Hpath w r); [apply Hno| |].
  - rewrite (download_without_destination url_suffix net animal_name image_url w e Hpath).
    by eexists _, _.
Qed.

Lemma declared_oversize_fails_without_file_witness :
  let r := mkResponse 200 "OK" "http://example.org/whale.png"
             (Some "image/png") (Some "15728641") [] None in
  let net := fun _ : string => GetReturns r in
  let w := mkWorld ∅ (mkStats 0 0 0 0) [] in
  declares_oversize r
  /\ exists w' msg,
       _download_single_image (fun _ => inl ".png") net
         "Blue whale" "http://example.org/whale.png" w
       = (w', inl (false, msg, None))
       /\ fs w' = fs w.
Proof.
  intros r net w.
  assert (H : declares_oversize r).
  { exists "15728641", 15728641%Z. split; [reflexivity|]. split; [reflexivity|]. by vm_compute. }
  split; [exact H|].
  apply (declared_oversize_fails_without_file (fun _ => inl ".png") net
           "Blue whale" "http://example.org/whale.png" w r);
    [intros local_path _; apply lookup_empty | reflexivity | exact H].
Defined.

(** C6.  When the streamed body passes the ceiling, the task fails and
    no file is left at its destination; a response whose headers were
    accepted fails with the message of the check made during the
    transfer, after the partial file is removed. *)
Theorem oversize_stream_is_aborted_and_removed
    (url_suffix : string -> string + string) (net : string -> GetResult)
    (animal_name image_url local_path : string) (w : World) (r : Response) :
  create_local_image_path url_suffix animal_name image_url = inl local_path ->
  fs w !! local_path = None ->
  net image_url = GetReturns r ->
  body_exceeds r ->
  exists w' msg,
    _download_single_image url_suffix net animal_name image_url w
    = (w', inl (false, msg, None))
    /\ fs w' !! local_path = None
    /\ (headers_accepted r -> msg = "Image too large during download").
Proof. intros Hpath. by apply download_body_exceeds. Qed.

(** 1921 chunks of 8192 bytes, no [content-length]. *)
Lemma oversize_stream_is_aborted_and_removed_witness :
  let r := mkResponse 200 "OK" "http://example.org/whale.png"
             (Some "image/png") None (repeat (repeat Byte.x00 (Z.to_nat 8192)) 1921) None in
  let net := fun _ : string => GetReturns r in
  let w := mkWorld ∅ (mkStats 0 0 0 0) [] in
  body_exceeds r /\ headers_accepted r
  /\ exists w' msg,
       _download_single_image (fun _ => inl ".png") net
         "Blue whale" "http://example.org/whale.png" w
       = (w', inl (false, msg, None))
       /\ fs w' !! "/tmp/blue_whale_image.png" = None
       /\ (headers_accepted r -> msg = "Image too large during download").
Proof.
  intros r net w.
  assert (H : body_exceeds r).
  { exists 1921%nat. by vm_compute. }
  split; [exact H|]. split.
  { split; [cbn; lia|]. split; reflexivity. }
  apply (oversize_stream_is_aborted_and_removed (fun _ => inl ".png") net
           "Blue whale" "http://example.org/whale.png" "/tmp/blue_whale_image.png" w r);
    [reflexivity | reflexivity | reflexivity | exact H].
Defined.

(** ** Fetch Orchestrator: many tasks *)

Section Orchestrator.

Variable url_suffix : string -> string + string.
Variable net : string -> GetResult.

Lemma attach_length (m : gmap (string * string) nat) (task : string * string)
    (result : FutureResult) (animal_data : list Entry) :
  length (attach m task result animal_data) = length animal_data.
Proof.
  unfold attach. destruct result as [[[success message] local_path] | e];
    destruct (m !! task); by rewrite ?length_alter.
Qed.

(** An outcome is written at the index the map holds for the task, and
    nowhere else. *)
Lemma attach_other (m : gmap (string * string) nat) (task : string * string)
    (result : FutureResult) (animal_data : list Entry) (i j : nat) :
  m !! task = Some j -> i <> j ->
  attach m task result animal_data !! i = animal_data !! i.
Proof.
  intros Hm Hij. unfold attach.
  destruct result as [[[success message] local_path] | e]; rewrite Hm;
    by apply list_lookup_alter_ne.
Qed.

(** What holds of the entries before the futures complete, and is kept
    by every update for a submitted task, holds of the entries returned. *)
Lemma completion_invariant (P : list Entry -> Prop) (p : Prepared) :
  (forall task result data,
      task ∈ download_tasks p -> P data ->
      P (attach (animal_to_data_map p) task result data)) ->
  forall (completion : list nat) (w : World) (data : list Entry),
    P data ->
    P (snd (fold_left (complete_step url_suffix net p) completion (w, data))).
Proof.
  intros Hstep completion. induction completion as [|i completion IH];
    intros w data HP; [exact HP|].
  cbn [fold_left]. unfold complete_step at 2.
  destruct (download_tasks p !! i) as [task|] eqn:Ei; [|by apply IH].
  destruct (run_task url_suffix net task w) as [w1 result].
  apply IH, Hstep; [|exact HP]. by eapply list_elem_of_lookup_2.
Qed.

(** The list that comes back is as long as the list that went in. *)
Lemma download_images_length (animal_data : list Entry) (completion : list nat) (w : World) :
  length (snd (download_images_concurrently url_suffix net animal_data completion w))
  = length (prepared_data (prepare animal_data)).
Proof.
  unfold download_images_concurrently.
  apply (completion_invariant
           (fun data => length data = length (prepared_data (prepare animal_data)))).
  - intros task result data _ H. by rewrite attach_length.
  - reflexivity.
Qed.

Lemma prepare_step_task (acc : Prepared) (idx : nat) (e : Entry) :
  prepare_step acc (idx, e)
  = mkPrepared (download_tasks acc ++ [task_of e])
               (<[task_of e := idx]> (animal_to_data_map acc))
               (prepared_data acc).
Proof.
  unfold prepare_step, task_of. by destruct (primary_image_url e) as [[|c u]|].
Qed.

(** The first loop: one task for each record, in order; the entries are
    not touched; with distinct tasks the map leads from the task of a
    record to the index of that record. *)
Lemma prepare_from_spec (data l : list Entry) :
  let p := fold_left prepare_step (imap (fun idx e => (idx, e)) l)
             (mkPrepared [] ∅ data) in
  download_tasks p = task_of <$> l
  /\ prepared_data p = data
  /\ (NoDup (task_of <$> l) ->
      forall i e, l !! i = Some e -> animal_to_data_map p !! task_of e = Some i).
Proof.
  induction l as [|x l IH] using rev_ind.
  - split; [done|]. split; [done|]. intros _ i e H. by rewrite lookup_nil in H.
  - rewrite imap_app, fold_left_app. cbn [imap fold_left]. cbv zeta in IH.
    destruct IH as (Htasks & Hdata & Hmap).
    rewrite prepare_step_task. cbn [download_tasks prepared_data animal_to_data_map].
    rewrite Htasks, fmap_app. split; [done|]. split; [done|].
    intros (Hnd & Hfresh & _)%NoDup_app i e Hi.
    unfold compose. rewrite Nat.add_0_r.
    destruct (decide (i = length l)) as [-> | Hne].
    + rewrite list_lookup_middle in Hi by done. injection Hi as <-.
      apply lookup_insert_eq.
    + assert (Hlt : (i < length l)%nat).
      { apply lookup_lt_Some in Hi. rewrite length_app in Hi. cbn in Hi. lia. }
      rewrite lookup_app_l in Hi by done.
      rewrite lookup_insert_ne; [by apply Hmap|].
      intros Heq. apply (Hfresh (task_of e)).
      * apply list_elem_of_fmap_2. by eapply list_elem_of_lookup_2.
      * rewrite <- Heq. apply list_elem_of_fmap_2. by left.
Qed.

Lemma attach_alter (m : gmap (string * string) nat) (task : string * string)
    (result : FutureResult) (animal_data : list Entry) (j : nat) :
  m !! task = Some j ->
  attach m task result animal_data = alter (with_result result) j animal_data.
Proof.
  intros Hm. unfold attach, with_result.
  destruct result as [[[success message] local_path] | e]; by rewrite Hm.
Qed.

(** The run in which the workers take their turns is one of the runs
    [collect_results] covers: the entries returned are those collected
    from the results the tasks gave. *)
Lemma download_images_collects (animal_data : list Entry) (completion : list nat) (w : World) :
  exists completed,
    fst <$> completed = completion
    /\ snd (download_images_concurrently url_suffix net animal_data completion w)
       = collect_results (prepare animal_data) completed.
Proof.
  unfold download_images_concurrently, collect_results.
  generalize (reset_stats w). intros w0.
  induction completion as [|j completion IH] using rev_ind; [by exists []|].
  destruct IH as (completed & Hfst & Heq).
  rewrite fold_left_app. cbn [fold_left].
  destruct (fold_left _ completion _) as [w1 data] eqn:Efold. cbn [snd] in Heq.
  unfold complete_step.
  destruct (download_tasks (prepare animal_data) !! j) as [task|] eqn:Ej.
  - destruct (run_task url_suffix net task w1) as [w2 result].
    exists (completed ++ [(j, result)]). rewrite fmap_app, Hfst. split; [done|].
    rewrite fold_left_app. cbn [fold_left collect_step snd]. by rewrite Ej, Heq.
  - exists (completed ++ [(j, Raised (OtherException ""))]).
    rewrite fmap_app, Hfst. split; [done|].
    rewrite fold_left_app. cbn [fold_left collect_step snd]. by rewrite Ej, Heq.
Qed.


End Orchestrator.

(** C4.  Two records of one animal share the key and the locator, so
    they give the same task twice.  The map from tasks to records keeps
    the index of the last of them only: whatever the network does and in
    whatever order the futures complete, both outcomes are written to the
    second record and the first comes back as it went in, with no
    outcome, where the specification wants an outcome on each record. *)
Theorem duplicate_task_leaves_first_record_without_outcome :
  forall (url_suffix : string -> string + string) (net : string -> GetResult)
         (completion : list nat) (w : World),
    let lion adj := mkEntry "Lion" adj (Some "Lion")
                      (Some "http://example.org/lion.jpg") None None None in
    let returned :=
      snd (download_images_concurrently url_suffix net
             [lion "leonine"; lion "feline"] completion w) in
    length returned = 2%nat
    /\ returned !! 0%nat = Some (lion "leonine")
    /\ download_status (lion "leonine") = None.
Proof.
  intros url_suffix net completion w lion returned.
  split; [apply download_images_length|]. split; [|reflexivity].
  unfold returned, download_images_concurrently.
  apply (completion_invariant url_suffix net
           (fun data => data !! 0%nat = Some (lion "leonine"))); [|reflexivity].
  intros task result data Hin Hdata.
  assert (task = ("Lion", "http://example.org/lion.jpg")) as ->.
  { change (download_tasks (prepare [lion "leonine"; lion "feline"]))
      with [("Lion", "http://example.org/lion.jpg"); ("Lion", "http://example.org/lion.jpg")] in Hin.
    rewrite !elem_of_cons in Hin. destruct Hin as [-> | [-> | Hin]]; [done | done |].
    by apply not_elem_of_nil in Hin. }
  rewrite (attach_other _ _ _ _ 0 1); [exact Hdata | by vm_compute | lia].
Qed.

(** With distinct animals every record receives its outcome. *)
Example distinct_tasks_all_attached :
  let net := fun _ : string =>
    GetReturns (mkResponse 200 "OK" "" (Some "image/jpeg") None [[Byte.xff; Byte.xd8]] None) in
  let w := mkWorld ∅ (mkStats 0 0 0 0) [] in
  download_status <$>
    snd (download_images_concurrently (fun _ => inl ".jpg") net
           [mkEntry "Lion" "leonine" None (Some "http://example.org/lion.jpg") None None None;
            mkEntry "Dog" "canine" None None None None None] [1; 0]%nat w)
  = [Some "Downloaded successfully (2 bytes)"; Some "Downloaded successfully (2 bytes)"].
Proof. by vm_compute. Qed.

(* ===================================================================== *)
(** * Further properties *)
(* ===================================================================== *)

(** ** File names and paths *)

Lemma all_chars_app (P : ascii -> bool) (a b : string) :
  all_chars P (a +:+ b) = all_chars P a && all_chars P b.
Proof.
  induction a as [|c a IH]; [reflexivity|].
  rewrite app_cons_str. cbn. by rewrite IH, andb_assoc.
Qed.

Lemma all_chars_impl (P Q : ascii -> bool) (s : string) :
  (forall c, P c = true -> Q c = true) -> all_chars P s = true -> all_chars Q s = true.
Proof.
  intros H. induction s as [|c s IH]; [done|]. cbn.
  intros [Hc Hs]%andb_true_iff. by rewrite (H c Hc), IH.
Qed.

Lemma all_chars_strip_by (P p : ascii -> bool) (s : string) :
  all_chars P s = true -> all_chars P (strip_by p s) = true.
Proof.
  intros H. unfold strip_by.
  destruct (lstrip_suffix p s) as [a Ha].
  destruct (rstrip_prefix p (lstrip_by p s)) as [b Hb].
  rewrite Ha, Hb, !all_chars_app in H.
  by apply andb_true_iff in H as [_ [H _]%andb_true_iff].
Qed.

Lemma all_chars_slice_to (P : ascii -> bool) (n : nat) (s : string) :
  all_chars P s = true -> all_chars P (slice_to n s) = true.
Proof.
  revert s. induction n as [|n IH]; intros [|c s]; try done.
  cbn. intros [Hc Hs]%andb_true_iff. by rewrite Hc, IH.
Qed.

Lemma slice_to_length (n : nat) (s : string) : (String.length (slice_to n s) <= n)%nat.
Proof.
  revert s. induction n as [|n IH]; intros [|c s]; cbn; try lia.
  specialize (IH s). lia.
Qed.

Lemma all_chars_map_chars (P : ascii -> bool) (f : ascii -> ascii) (s : string) :
  (forall c, P (f c) = true) -> all_chars P (map_chars f s) = true.
Proof. intros H. induction s as [|c s IH]; [done|]. cbn. by rewrite H, IH. Qed.

Lemma all_chars_lower (P Q : ascii -> bool) (s : string) :
  (forall c, P c = true -> Q (lower_char c) = true) ->
  all_chars P s = true -> all_chars Q (lower s) = true.
Proof.
  intros H. induction s as [|c s IH]; [done|]. cbn.
  intros [Hc Hs]%andb_true_iff. by rewrite (H c Hc), IH.
Qed.

(** What the substitution of white space by [repl] emits: [repl], and
    characters of the text that are no white space. *)
Lemma all_chars_collapse (P Q : ascii -> bool) (repl s : string) (k : nat) :
  all_chars Q repl = true ->
  (forall c, P c = true -> isspace c = false -> Q c = true) ->
  all_chars P s = true ->
  all_chars Q (re_sub_go re_spaces repl k s) = true.
Proof.
  intros Hrepl H. revert k. induction s as [|c s IH]; intros k; [done|].
  cbn [all_chars re_sub_go]. intros [Hc Hs]%andb_true_iff.
  destruct k as [|k]; [|by apply IH].
  rewrite re_spaces_cons. destruct (isspace c) eqn:Esp.
  - by rewrite all_chars_app, Hrepl, IH.
  - cbn. by rewrite (H c Hc Esp), IH.
Qed.

Lemma sanitize_filename_chars (filename : string) :
  sanitize_filename filename <> ""
  /\ (len (sanitize_filename filename) <= 50)%nat
  /\ all_chars filename_safe (sanitize_filename filename) = true.
Proof.
  unfold sanitize_filename.
  set (s1 := map_chars _ filename).
  set (s4 := re_sub re_spaces "_" (lower (strip s1))).
  assert (H6 : all_chars filename_safe (slice_to 50 (strip_by (Ascii.eqb "_") s4)) = true).
  { apply all_chars_slice_to, all_chars_strip_by.
    apply (all_chars_collapse
             (fun c => negb (is_problematic c) && negb (is_upper c)) filename_safe);
      [reflexivity | |].
    - intros c Hc Hsp. unfold filename_safe. rewrite Hsp.
      apply andb_true_iff in Hc as [-> ->]. done.
    - apply (all_chars_lower (fun c => negb (is_problematic c))).
      + intros c. by destruct c as [[] [] [] [] [] [] [] []].
      + apply all_chars_strip_by, all_chars_map_chars.
        intros c. by destruct c as [[] [] [] [] [] [] [] []]. }
  pose proof (slice_to_length 50 (strip_by (Ascii.eqb "_") s4)) as Hlen.
  destruct (slice_to 50 _) as [|c s6] eqn:E6.
  - split; [done|]. split; [cbn; lia | reflexivity].
  - split; [done|]. split; [exact Hlen | exact H6].
Qed.

(** X2.  A sanitized name is not empty, has at most 50 characters, and is
    made of characters that are safe in a file name. *)
Theorem sanitize_filename_safe (filename : string) :
  sanitize_filename filename <> ""
  /\ (len (sanitize_filename filename) <= 50)%nat
  /\ all_chars filename_safe (sanitize_filename filename) = true.
Proof. apply sanitize_filename_chars. Qed.

Lemma str_in_char (c : ascii) (s : string) :
  str_in (String c "") s = contains_char c s.
Proof.
  induction s as [|d s IH]; [reflexivity|].
  cbn [str_in contains_char startswith]. rewrite IH, andb_true_r.
  by rewrite Ascii.eqb_sym.
Qed.

Lemma contains_char_excluded (P : ascii -> bool) (c : ascii) (s : string) :
  P c = false -> all_chars P s = true -> contains_char c s = false.
Proof.
  intros Hc. induction s as [|d s IH]; [done|]. cbn.
  intros [Hd Hs]%andb_true_iff. rewrite (IH Hs), orb_false_r.
  destruct (Ascii.eqb_spec d c) as [-> | ?]; [congruence | done].
Qed.

Lemma get_file_extension_spec (url_suffix : string -> string + string)
    (url suffix : string) :
  url_suffix url = inl suffix ->
  exists ext,
    get_file_extension_from_url url_suffix url = inl ext
    /\ ext ∈ Config.SUPPORTED_IMAGE_EXTENSIONS
    /\ (lower suffix ∈ Config.SUPPORTED_IMAGE_EXTENSIONS -> ext = lower suffix)
    /\ (lower suffix ∉ Config.SUPPORTED_IMAGE_EXTENSIONS -> ext = ".jpg").
Proof.
  intros Hs. unfold get_file_extension_from_url. rewrite Hs.
  destruct (String.eqb (lower suffix) "" || _) eqn:E.
  - exists ".jpg". split; [done|]. split; [by left|]. split; [|done].
    intros Hin. apply orb_true_iff in E as [E | E].
    + apply String.eqb_eq in E. rewrite E in Hin.
      unfold Config.SUPPORTED_IMAGE_EXTENSIONS in Hin. rewrite !elem_of_cons in Hin.
      repeat (destruct Hin as [Hin | Hin]; [discriminate|]). by apply not_elem_of_nil in Hin.
    + apply negb_true_iff in E. apply in_list_spec in Hin. congruence.
  - apply orb_false_iff in E as [_ E]. apply negb_false_iff, in_list_spec in E.
    exists (lower suffix). split; [done|]. split; [done|]. split; [done|]. by intros H.
Qed.

Lemma image_path_matches_glob (san ext : string) :
  all_chars filename_safe san = true ->
  ext ∈ Config.SUPPORTED_IMAGE_EXTENSIONS ->
  glob_image_match ("/tmp/" +:+ san +:+ "_image" +:+ ext) = true.
Proof.
  intros Hsafe Hext. unfold glob_image_match.
  change (slice_from _ _) with (san +:+ "_image" +:+ ext).
  apply andb_true_iff. split; [apply andb_true_iff; split|].
  - reflexivity.
  - apply negb_true_iff. rewrite str_in_char, !contains_char_app.
    rewrite (contains_char_excluded filename_safe "/" san eq_refl Hsafe).
    unfold Config.SUPPORTED_IMAGE_EXTENSIONS in Hext. rewrite !elem_of_cons in Hext.
    destruct Hext as [-> | [-> | [-> | [-> | [-> | [-> | Hext]]]]]]; try reflexivity.
    by apply not_elem_of_nil in Hext.
  - apply str_in_spec.
    unfold Config.SUPPORTED_IMAGE_EXTENSIONS in Hext. rewrite !elem_of_cons in Hext.
    destruct Hext as [-> | [-> | [-> | [-> | [-> | [-> | Hext]]]]]];
      try (eexists san, _; reflexivity).
    by apply not_elem_of_nil in Hext.
Qed.

(** X3.  When [urlparse] accepts the URL, the destination of a task is
    a file directly in the download directory, named by the sanitized
    key, [_image] and an extension: the suffix of the URL in lower case
    when that is a supported extension, [.jpg] when it is not or when
    there is none; the clean-up pattern matches the path.  When
    [urlparse] raises, so does [create_local_image_path]. *)
Theorem local_image_path_confined (url_suffix : string -> string + string)
    (animal_name image_url : string) :
  match url_suffix image_url with
  | inl suffix =>
      exists ext,
        create_local_image_path url_suffix animal_name image_url
        = inl ("/tmp/" +:+ sanitize_filename animal_name +:+ "_image" +:+ ext)
        /\ ext ∈ Config.SUPPORTED_IMAGE_EXTENSIONS
        /\ (lower suffix ∈ Config.SUPPORTED_IMAGE_EXTENSIONS -> ext = lower suffix)
        /\ (lower suffix ∉ Config.SUPPORTED_IMAGE_EXTENSIONS -> ext = ".jpg")
        /\ glob_image_match
             ("/tmp/" +:+ sanitize_filename animal_name +:+ "_image" +:+ ext) = true
  | inr msg =>
      create_local_image_path url_suffix animal_name image_url = inr (ValueError msg)
  end.
Proof.
  destruct (url_suffix image_url) as [suffix | msg] eqn:Hs.
  - destruct (get_file_extension_spec url_suffix image_url suffix Hs)
      as (ext & Heq & Hext & Hsup & Hdef).
    destruct (sanitize_filename_chars animal_name) as (_ & _ & Hsafe).
    exists ext. unfold create_local_image_path. rewrite Heq.
    split; [reflexivity|]. split; [done|]. split; [done|]. split; [done|].
    by apply image_path_matches_glob.
  - unfold create_local_image_path, get_file_extension_from_url. by rewrite Hs.
Qed.

(** ** Rows of plain cells *)

Lemma first_usable_cell_spec (cells : list string) :
  (first_usable_cell cells = "" /\ forall c, c ∈ cells -> usable_cell c = false)
  \/ exists (i : nat) (c : string),
       cells !! i = Some c /\ first_usable_cell cells = normalize_text c
       /\ usable_cell c = true
       /\ forall (j : nat) (d : string), (j < i)%nat -> cells !! j = Some d -> usable_cell d = false.
Proof.
  induction cells as [|c cells IH].
  - left. split; [done|]. intros c H. by apply not_elem_of_nil in H.
  - cbn [first_usable_cell]. fold (usable_cell c).
    destruct (usable_cell c) eqn:E.
    + right. exists 0%nat, c. repeat split; try done. intros j d Hj. lia.
    + destruct IH as [[Hr Hnone] | (i & d & Hi & Hr & Hu & Hmin)].
      * left. split; [done|]. intros x [-> | Hx]%elem_of_cons; auto.
      * right. exists (S i), d. repeat split; try done.
        intros [|j] x Hj Hx; cbn in Hx; [congruence|]. apply (Hmin j x); [lia | done].
Qed.

(** X4.  A row gives a record only through its first four cells: the name
    is the normal form of the first, and passes the name check; the
    adjective is the normal form of the first usable cell among the
    second, third and fourth. *)
Theorem extract_animal_info_from_row_spec
    (row_cells : list string) (animal_name collateral_adjective : string) :
  extract_animal_info_from_row row_cells = Some (animal_name, collateral_adjective) ->
  animal_name = normalize_text (nth 0 row_cells "")
  /\ is_valid_animal_name animal_name = true
  /\ exists (i : nat) (cell : string),
       (1 <= i <= 3)%nat /\ row_cells !! i = Some cell
       /\ collateral_adjective = normalize_text cell
       /\ usable_cell cell = true
       /\ forall (j : nat) (d : string),
            (1 <= j < i)%nat -> row_cells !! j = Some d -> usable_cell d = false.
Proof.
  unfold extract_animal_info_from_row.
  destruct (length row_cells <? 2)%nat; [done|].
  destruct (String.eqb _ "" || _ || _) eqn:E; [done|].
  intros [= <- <-].
  apply orb_false_iff in E as [[_ Hadj]%orb_false_iff Hvalid].
  apply negb_false_iff in Hvalid. split; [done|]. split; [done|].
  destruct (first_usable_cell_spec (firstn 3 (skipn 1 row_cells)))
    as [[Hr _] | (i & c & Hi & Hr & Hu & Hmin)].
  { rewrite Hr in Hadj. discriminate. }
  assert (Hlt : (i < 3)%nat).
  { apply lookup_lt_Some in Hi. rewrite length_take in Hi. lia. }
  assert (Hlook : forall j, (j < 3)%nat ->
            firstn 3 (skipn 1 row_cells) !! j = row_cells !! (S j)).
  { intros j Hj. change (firstn 3) with (@take string 3). change (skipn 1) with (@drop string 1).
    rewrite lookup_take_lt by done. by rewrite lookup_drop. }
  exists (S i), c. split; [lia|]. split; [by rewrite <- Hlook|].
  split; [done|]. split; [done|].
  intros [|j] d Hj Hd; [lia|]. apply (Hmin j d); [lia|]. rewrite Hlook by lia. done.
Qed.

(** X5.  The cells after the fourth are never looked at. *)
Theorem extract_animal_info_ignores_tail (row_cells : list string) :
  extract_animal_info_from_row row_cells
  = extract_animal_info_from_row (firstn 4 row_cells).
Proof.
  unfold extract_animal_info_from_row.
  destruct row_cells as [|c0 [|c1 [|c2 [|c3 rest]]]]; try reflexivity.
Qed.

(** ** Retrying *)

Section RetryFacts.

Context {S0 A Delay : Type}.
Variable double : Delay -> Delay.
Variable func : Py S0 A.

Lemma retry_loop_schedule (n : nat) (logger_bound : bool) (d : Delay)
    (s : S0) (log : list Delay) :
  exists (k : nat) (s' : S0) (r : A + Exn),
    retry_loop double logged_sleep (unlogged func) n logger_bound d (s, log)
    = ((s', log ++ backoff_delays double d k), r)
    /\ (k <= n)%nat
    /\ match r with
       | inl a => exists s1, func s1 = (s', inl a)
       | inr e =>
           k = n
           /\ ((exists s1, func s1 = (s', inr e))
               \/ (n = 0%nat /\ logger_bound = false))
       end.
Proof.
  revert logger_bound d s log. induction n as [|n IH]; intros b d s log.
  - cbn. unfold unlogged. cbn. destruct (func s) as [s' [a | e]] eqn:E.
    + exists 0%nat, s', (inl a). cbn. rewrite app_nil_r. eauto.
    + destruct b.
      * exists 0%nat, s', (inr e). cbn. rewrite app_nil_r. eauto 6.
      * exists 0%nat, s'. eexists. cbn. rewrite app_nil_r.
        split; [reflexivity|]. split; [done|]. split; [done|]. by right.
  - cbn [retry_loop]. unfold unlogged at 1. cbn [fst snd].
    destruct (func s) as [s' [a | e]] eqn:E.
    + exists 0%nat, s', (inl a). cbn. rewrite app_nil_r.
      split; [done|]. split; [lia|]. eauto.
    + unfold logged_sleep at 2. cbn [fst snd].
      destruct (IH true (double d) s' (log ++ [d])) as (k & s2 & r & Heq & Hk & Hr).
      exists (S k), s2, r. cbn [backoff_delays].
      rewrite Heq, <- app_assoc. split; [done|]. split; [lia|].
      destruct r as [a | e']; [done|].
      destruct Hr as [-> [Hlast | [_ Hb]]]; [|discriminate].
      split; [done|]. by left.
Qed.

(** X6.  The wrapper sleeps at most [max_retries] times, for the delay given
    and then twice the delay before; it gives up only after it has slept
    [max_retries] times, with the exception of the last attempt; and a
    value it returns is one the function returned.  With no retries
    allowed a failure is reported as the unbound [logger]. *)
Theorem retry_with_backoff_schedule (max_retries : nat) (initial_delay : Delay)
    (s : S0) (log : list Delay) :
  exists (k : nat) (s' : S0) (r : A + Exn),
    retry_with_backoff double logged_sleep (unlogged func) max_retries initial_delay (s, log)
    = ((s', log ++ backoff_delays double initial_delay k), r)
    /\ (k <= max_retries)%nat
    /\ match r with
       | inl a => exists s1, func s1 = (s', inl a)
       | inr e =>
           k = max_retries
           /\ ((exists s1, func s1 = (s', inr e)) \/ max_retries = 0%nat)
       end.
Proof.
  destruct (retry_loop_schedule max_retries false initial_delay s log)
    as (k & s' & r & Heq & Hk & Hr).
  exists k, s', r. split; [exact Heq|]. split; [exact Hk|].
  destruct r as [a | e]; [exact Hr|]. destruct Hr as [-> [H | [H _]]]; eauto.
Qed.

(** X7.  With no retries allowed, the exception of a failed attempt is lost:
    the wrapper raises the error of the unbound [logger] in its place. *)
Theorem retry_without_retries_loses_exception
    (sleep : Delay -> S0 -> S0) (initial_delay : Delay) (s s' : S0) (e : Exn) :
  func s = (s', inr e) ->
  retry_with_backoff double sleep func 0 initial_delay s
  = (s', inr (OtherException
       "cannot access local variable 'logger' where it is not associated with a value")).
Proof. intros H. unfold retry_with_backoff. cbn. by rewrite H. Qed.

End RetryFacts.


(** A row whose second cell is a dash and whose third carries a
    citation marker; a function that times out, wrapped with no retry. *)
Lemma extract_animal_info_from_row_spec_witness :
  let row_cells := ["Lion"; "-"; "Leonine [1]"; "Cub"; "Pride"] in
  extract_animal_info_from_row row_cells = Some ("Lion", "Leonine")
  /\ exists (i : nat) (cell : string),
       (1 <= i <= 3)%nat /\ row_cells !! i = Some cell
       /\ "Leonine" = normalize_text cell
       /\ usable_cell cell = true
       /\ forall (j : nat) (d : string),
            (1 <= j < i)%nat -> row_cells !! j = Some d -> usable_cell d = false.
Proof.
  intros row_cells.
  assert (H : extract_animal_info_from_row row_cells = Some ("Lion", "Leonine"))
    by reflexivity.
  split; [exact H|].
  exact (proj2 (proj2 (extract_animal_info_from_row_spec row_cells "Lion" "Leonine" H))).
Defined.

Lemma retry_without_retries_loses_exception_witness :
  let func : Py nat nat := fun calls => (S calls, inr (Timeout "timed out")) in
  retry_with_backoff (fun d : nat => 2 * d)%nat (fun _ calls => calls) func 0 1%nat 0%nat
  = (1%nat, inr (OtherException
       "cannot access local variable 'logger' where it is not associated with a value")).
Proof.
  intros func.
  exact (retry_without_retries_loses_exception (fun d : nat => 2 * d)%nat func
           (fun _ calls => calls) 1%nat 0%nat 1%nat (Timeout "timed out") eq_refl).
Defined.

(** ** From the tables to the records *)

(** X8.  A table the classifier selects has a header in which the index of
    the target column is found: the data rows of a selected table are
    never passed over for want of the column. *)
Theorem identified_table_has_column (soup : list SoupTable) (t : SoupTable) :
  t ∈ _identify_collateral_adjective_tables soup ->
  exists (header : Row) (rest : list Row) (i : nat) (cell : Cell),
    table_rows t = header :: rest
    /\ _find_collateral_adjective_column_index header = Z.of_nat i
    /\ header !! i = Some cell /\ names_target cell.
Proof.
  intros Hin.
  apply (proj2 (identify_spec soup)) in Hin as (_ & _ & header & rest & cell & -> & Hcell & Ht).
  unfold _find_collateral_adjective_column_index.
  destruct (find_index_from_spec header 0) as [[_ Hnone] | (i & c & Hr & Hl & Hc & _)].
  - by apply Hnone in Hcell.
  - exists header, rest, i, c. by rewrite Hr, Z.add_0_l.
Qed.

Lemma app_inv_head_str (p a b : string) : p +:+ a = p +:+ b -> a = b.
Proof.
  induction p as [|c p IH]; [done|]. rewrite !app_cons_str. intros [= H]. by apply IH.
Qed.

Lemma slice_from_app (p b : string) : slice_from (len p) (p +:+ b) = b.
Proof. induction p as [|c p IH]; [by destruct b|]. exact IH. Qed.

(** The link of a record is the [href] of the cell without its
    [/wiki/] prefix; an [href] that does not start with it gives no
    link. *)
Lemma extract_link_spec (cell : DataCell) (l : string) :
  snd (_extract_animal_name_and_link cell) = Some l
  <-> cell_href cell = Some ("/wiki/" +:+ l).
Proof.
  unfold _extract_animal_name_and_link. cbn [snd].
  destruct (cell_href cell) as [href|]; [|split; discriminate].
  destruct (startswith "/wiki/" href) eqn:E.
  - apply startswith_spec in E as [b ->].
    change (slice_from 6 ("/wiki/" +:+ b)) with (slice_from (len "/wiki/") ("/wiki/" +:+ b)).
    rewrite (slice_from_app "/wiki/" b). split.
    + by intros [= ->].
    + intros [= H]. apply app_inv_head_str in H. by subst.
  - split; [discriminate|]. intros [= ->].
    assert (startswith "/wiki/" ("/wiki/" +:+ l) = true) by (apply startswith_spec; by eexists).
    congruence.
Qed.

Section ExtractFacts.

Variable api : string -> ApiGet.

(** What a data row contributes: nothing, or one record for each
    adjective of the split, all with the same key, link and image; the
    image is the answer of the lookup for the link, and no lookup is
    made without a link. *)
Lemma extract_row_cases (idx : nat) (row : DataRow) (st : ScraperState) :
  extract_row api idx row st = (st, [])
  \/ exists animal_cell adjective_cell image st',
       row !! 0%nat = Some animal_cell /\ row !! idx = Some adjective_cell
       /\ let animal_name := fst (_extract_animal_name_and_link animal_cell) in
          let wiki_link := snd (_extract_animal_name_and_link animal_cell) in
          (2 <= len animal_name)%nat
          /\ extract_row api idx row st
             = (st', map (fun adjective =>
                            mkEntry animal_name adjective wiki_link (locator_of image)
                                    None None None)
                         (_split_multiple_adjectives
                            (cell_markup adjective_cell)
                            (normalize_text (get_text_strip (cell_nodes adjective_cell)))))
          /\ ((exists c l, wiki_link = Some (String c l)
                 /\ _get_animal_image_from_api api (String c l) st = (st', inl image))
              \/ ((wiki_link = None \/ wiki_link = Some "") /\ st' = st /\ image = JNull)).
Proof.
  unfold extract_row. destruct row as [|animal_cell rest]; [by left|].
  match goal with
  | |- context [match ?x with Some _ => _ | None => _ end] =>
      destruct x as [adjective_cell|] eqn:Eidx; [|by left]
  end.
  destruct (_extract_animal_name_and_link animal_cell) as [animal_name wiki_link] eqn:Eext.
  destruct (String.eqb animal_name "" || (len animal_name <? 2)%nat) eqn:Ename; [by left|].
  destruct (String.eqb _ "" || in_list _ _) eqn:Eadj; [by left|].
  apply orb_false_iff in Ename as [_ Hlen%Nat.ltb_ge].
  right. destruct wiki_link as [[|c l]|].
  - exists animal_cell, adjective_cell, JNull, st. rewrite Eext. cbn [fst snd].
    split; [done|]. split; [done|]. split; [done|]. split; [done|]. right. auto.
  - destruct (lookup_never_raises api (String c l) st) as (st' & v & Hv).
    exists animal_cell, adjective_cell, v, st'. rewrite Eext. cbn [fst snd]. rewrite Hv.
    split; [done|]. split; [done|]. split; [done|]. split; [done|]. left. eauto.
  - exists animal_cell, adjective_cell, JNull, st. rewrite Eext. cbn [fst snd].
    split; [done|]. split; [done|]. split; [done|]. split; [done|]. right. auto.
Qed.

Lemma extract_row_scraped (idx : nat) (row : DataRow) (st : ScraperState) :
  Forall (scraped_from idx row) (snd (extract_row api idx row st)).
Proof.
  destruct (extract_row_cases idx row st)
    as [-> | (animal_cell & adjective_cell & image & st' & H0 & Hidx & Hlen & -> & Himg)];
    [constructor|].
  cbn [snd]. apply Forall_forall. intros e He.
  apply list_elem_of_In, in_map_iff in He as (adj & <- & Hadj).
  exists animal_cell, adjective_cell. cbn.
  split; [done|]. split; [done|]. split; [done|]. split; [exact Hlen|].
  split; [intros l; apply extract_link_spec|].
  split; [by apply list_elem_of_In|].
  split; [|done].
  intros [u Hu]. destruct Himg as [(c & l & Hl & _) | (_ & _ & ->)]; [|discriminate].
  exists (String c l). split; [exact Hl | discriminate].
Qed.

Lemma extract_rows_snoc (idx : nat) (rows : list DataRow) (row : DataRow)
    (acc : ScraperState * list Entry) :
  extract_rows api idx (rows ++ [row]) acc
  = (fst (extract_row api idx row (fst (extract_rows api idx rows acc))),
     snd (extract_rows api idx rows acc)
     ++ snd (extract_row api idx row (fst (extract_rows api idx rows acc)))).
Proof.
  unfold extract_rows. rewrite fold_left_app. cbn [fold_left].
  destruct (fold_left _ rows acc) as [st animal_data]. cbn [fst snd].
  by destruct (extract_row api idx row st).
Qed.

Lemma extract_rows_scraped (idx : nat) (rows : list DataRow)
    (acc : ScraperState * list Entry) (e : Entry) :
  e ∈ snd (extract_rows api idx rows acc) ->
  e ∈ snd acc \/ exists row, row ∈ rows /\ scraped_from idx row e.
Proof.
  induction rows as [|row rows IH] using rev_ind; [by left|].
  rewrite extract_rows_snoc. cbn [snd]. intros [He | He]%elem_of_app.
  - destruct (IH He) as [H | (r & Hr & H)]; [by left|].
    right. exists r. split; [|done]. apply elem_of_app. by left.
  - right. exists row. split; [apply elem_of_app; right; by left|].
    revert He. apply Forall_forall, extract_row_scraped.
Qed.

Lemma extract_table_data_snoc (tables : list DataTable) (table : DataTable)
    (st : ScraperState) :
  _extract_table_data api (tables ++ [table]) st
  = match table with
    | [] => _extract_table_data api tables st
    | header_row :: data_rows =>
        let idx := _find_collateral_adjective_column_index (map cell_nodes header_row) in
        if (idx =? -1)%Z then _extract_table_data api tables st
        else extract_rows api (Z.to_nat idx) data_rows (_extract_table_data api tables st)
    end.
Proof. unfold _extract_table_data. by rewrite fold_left_app. Qed.

Lemma find_index_from_range (cells : list Cell) (idx : Z) :
  find_index_from idx cells = (-1)%Z \/ (idx <= find_index_from idx cells)%Z.
Proof.
  destruct (find_index_from_spec cells idx) as [[-> _] | (i & c & -> & _)]; [by left|].
  right. lia.
Qed.

Lemma extract_table_data_from_rows (tables : list DataTable) (st : ScraperState) :
  Forall (scraped_of tables) (snd (_extract_table_data api tables st)).
Proof.
  apply Forall_forall. intros e.
  induction tables as [|table tables IH] using rev_ind.
  { intros H. by apply not_elem_of_nil in H. }
  assert (Hweak : scraped_of tables e -> scraped_of (tables ++ [table]) e).
  { intros (h & rows & row & Ht & Hrest). exists h, rows, row.
    split; [apply elem_of_app; by left | done]. }
  rewrite extract_table_data_snoc. destruct table as [|header_row data_rows]; [by auto|].
  cbv zeta. destruct (Z.eqb_spec (_find_collateral_adjective_column_index
                                    (map cell_nodes header_row)) (-1)) as [|Hne]; [by auto|].
  intros [He | (row & Hrow & Hsc)]%extract_rows_scraped; [by auto|].
  exists header_row, data_rows, row.
  split; [apply elem_of_app; right; by left|]. split; [done|].
  cbv zeta. split; [|done].
  unfold _find_collateral_adjective_column_index in *.
  destruct (find_index_from_range (map cell_nodes header_row) 0); [done | lia].
Qed.

(** X9.  Every record scraped comes from a data row of one of the tables:
    its key is the normal form of the first cell and has two characters
    or more, its link is the [href] of that cell without the [/wiki/]
    prefix, its value is a fragment of the cell in the column the
    header of its table names; it has an image only with a link, and
    carries no download field. *)
Theorem extract_table_data_scraped (tables : list DataTable) (st : ScraperState) :
  Forall (scraped_of tables) (snd (_extract_table_data api tables st)).
Proof. apply extract_table_data_from_rows. Qed.

End ExtractFacts.

(** ** The lookup and its cache *)

Section LookupCache.

Variable api : string -> ApiGet.

Local Ltac unfold_lookup :=
  unfold api_lookup_body, api_session_get, raise_for_status, response_json,
    dict_get, contains_key, getitem, cache_store;
  unfold py_bind, py_ret, py_raise, py_modify, py_get.

(** The [try] block makes one request; it stores the answer it
    returns, and stores nothing when it raises. *)
Lemma api_lookup_body_effect (name : string) (st : ScraperState) :
  (exists v, api_lookup_body api name st
     = (mkScraperState (<[name := v]> (_api_cache st))
          (api_requests st ++ [summary_url name]), inl v))
  \/ (exists e, api_lookup_body api name st
     = (mkScraperState (_api_cache st) (api_requests st ++ [summary_url name]), inr e)).
Proof.
  unfold_lookup. fold (summary_url name).
  destruct (api (summary_url name)) as [e | r]; [right; by eexists|].
  cbn [fst snd _api_cache api_requests].
  destruct ((400 <=? api_status r) && (api_status r <? 500))%Z; [right; by eexists|].
  destruct ((500 <=? api_status r) && (api_status r <? 600))%Z; [right; by eexists|].
  destruct (_ || _)%bool; [right; by eexists|].
  destruct (api_json r) as [[| b | n | s | items | members]|];
    try (right; by eexists).
  destruct (default JNull (member "thumbnail" members))
    as [| b | n | s | items | thumb] eqn:Et; cbn [truthy].
  - left. by eexists.
  - destruct b; [right; by eexists | left; by eexists].
  - destruct (negb (n =? 0)%Z); [right; by eexists | left; by eexists].
  - destruct (negb (String.eqb s "")); [|left; by eexists].
    destruct (str_in "source" s); [right; by eexists | left; by eexists].
  - destruct items as [|x items]; [left; by eexists|].
    destruct (existsb _ _); [right; by eexists | left; by eexists].
  - destruct thumb as [|m thumb]; [left; by eexists|].
    destruct (member "source" (m :: thumb)) as [v|] eqn:Es.
    + rewrite bool_decide_eq_true_2 by by eexists. left. by eexists.
    + rewrite bool_decide_eq_false_2 by (by intros [? ?]). left. by eexists.
Qed.

(** The lookup as a whole, for a page name that is not empty: a name in
    the cache is answered from it and nothing changes; for another one
    request is made, and the answer returned is stored under the name. *)
Lemma lookup_effect (name : string) (st : ScraperState) :
  name <> "" ->
  match _api_cache st !! name with
  | Some cached => _get_animal_image_from_api api name st = (st, inl cached)
  | None =>
      exists v, _get_animal_image_from_api api name st
        = (mkScraperState (<[name := v]> (_api_cache st))
             (api_requests st ++ [summary_url name]), inl v)
  end.
Proof.
  intros Hne. unfold _get_animal_image_from_api.
  destruct (String.eqb_spec name "") as [|_]; [done|].
  unfold py_bind, py_get. destruct (_api_cache st !! name) as [cached|] eqn:E; [done|].
  unfold py_try.
  destruct (api_lookup_body_effect name st) as [[v ->] | [e ->]]; [by eexists|].
  rewrite api_lookup_handler_returns. by eexists.
Qed.

(** X10.  Asking again gives the same answer and changes nothing: the second
    lookup of a name makes no request. *)
Theorem lookup_twice_is_lookup_once (name : string) (st : ScraperState) :
  let first := _get_animal_image_from_api api name st in
  _get_animal_image_from_api api name (fst first) = first
  /\ (length (api_requests (fst first)) <= S (length (api_requests st)))%nat.
Proof.
  cbv zeta. destruct (String.eqb_spec name "") as [-> | Hne]; [split; [done | cbn; lia]|].
  pose proof (lookup_effect name st Hne) as H1.
  destruct (_api_cache st !! name) as [cached|] eqn:E.
  - rewrite H1. cbn [fst]. split; [exact H1 | lia].
  - destruct H1 as [v ->]. cbn [fst]. split.
    + pose proof (lookup_effect name
                    (mkScraperState (<[name := v]> (_api_cache st))
                       (api_requests st ++ [summary_url name])) Hne) as H2.
      cbn [_api_cache] in H2. by rewrite lookup_insert_eq in H2.
    + cbn. rewrite length_app. cbn. lia.
Qed.

(** X11.  The answer that carries a thumbnail: its source is returned and
    stored in the cache. *)
Theorem lookup_returns_thumbnail_source
    (name : string) (st : ScraperState) (r : ApiResponse)
    (members thumbnail : list (string * Json)) (source : Json) :
  name <> "" ->
  _api_cache st !! name = None ->
  api (summary_url name) = ApiReturns r ->
  (200 <= api_status r < 400)%Z -> api_status r <> 204%Z -> api_status r <> 304%Z ->
  api_json r = Some (JObj members) ->
  member "thumbnail" members = Some (JObj thumbnail) ->
  member "source" thumbnail = Some source ->
  _get_animal_image_from_api api name st
  = (mkScraperState (<[name := source]> (_api_cache st))
       (api_requests st ++ [summary_url name]), inl source).
Proof.
  intros Hne Hmiss Hapi Hstatus H204 H304 Hjson Hthumb Hsource.
  unfold _get_animal_image_from_api.
  destruct (String.eqb_spec name "") as [|_]; [done|].
  unfold py_bind at 1. unfold py_get. rewrite Hmiss. unfold py_try.
  unfold_lookup. fold (summary_url name). rewrite Hapi.
  cbn [fst snd _api_cache api_requests].
  assert (((400 <=? api_status r) && (api_status r <? 500))%Z = false) as ->
    by (apply andb_false_iff; rewrite Z.leb_gt, Z.ltb_ge; lia).
  assert (((500 <=? api_status r) && (api_status r <? 600))%Z = false) as ->
    by (apply andb_false_iff; rewrite Z.leb_gt, Z.ltb_ge; lia).
  assert (((api_status r =? 304) || (api_status r =? 204)
           || (100 <=? api_status r) && (api_status r <? 200))%Z = false) as ->.
  { rewrite !orb_false_iff, andb_false_iff, !Z.eqb_neq, Z.leb_gt, Z.ltb_ge. lia. }
  rewrite Hjson, Hthumb. cbn [default from_option id truthy].
  destruct thumbnail as [|m thumbnail]; [discriminate|].
  rewrite bool_decide_eq_true_2 by by eexists.
  by rewrite Hsource.
Qed.

End LookupCache.

(** ** The requests of a scrape *)

Lemma hex_digit_inj (a b : N) :
  (a < 16)%N -> (b < 16)%N -> hex_digit a = hex_digit b -> a = b.
Proof.
  intros Ha Hb. unfold hex_digit.
  destruct (N.ltb_spec a 10) as [Ha'|Ha'], (N.ltb_spec b 10) as [Hb'|Hb']; intros H;
    apply (f_equal N_of_ascii) in H; rewrite !N_ascii_embedding in H by lia; lia.
Qed.

(** Two page names are encoded alike only when they are the same. *)
Lemma quote_inj (s t : string) : quote s = quote t -> s = t.
Proof.
  revert t. induction s as [|c s IH]; intros [|d t]; cbn [quote].
  - done.
  - by destruct (is_unreserved d).
  - by destruct (is_unreserved c).
  - destruct (is_unreserved c) eqn:Ec, (is_unreserved d) eqn:Ed.
    + intros [= -> H]. by rewrite (IH t H).
    + intros [= -> _]. discriminate.
    + intros [= <- _]. discriminate.
    + intros [= H1 H2 H]. rewrite (IH t H). f_equal.
      pose proof (N_ascii_bounded c) as Hc. pose proof (N_ascii_bounded d) as Hd.
      apply hex_digit_inj in H1, H2;
        try (apply N.Div0.div_lt_upper_bound; lia); try (apply N.mod_lt; lia).
      rewrite <- (ascii_N_embedding c), <- (ascii_N_embedding d). f_equal.
      rewrite (N.div_mod (N_of_ascii c) 16), (N.div_mod (N_of_ascii d) 16) by lia.
      by rewrite H1, H2.
Qed.

Lemma summary_url_inj (a b : string) : summary_url a = summary_url b -> a = b.
Proof. unfold summary_url. intros H%app_inv_head_str. by apply quote_inj. Qed.

Section ScrapeRequests.

Variable api : string -> ApiGet.

(** What holds of the state and of the records so far, and is kept by
    every data row, holds at the end. *)
Lemma extract_rows_invariant (I : ScraperState -> list Entry -> Prop) :
  (forall idx row st acc, I st acc ->
     I (fst (extract_row api idx row st)) (acc ++ snd (extract_row api idx row st))) ->
  forall idx rows acc, I (fst acc) (snd acc) ->
    I (fst (extract_rows api idx rows acc)) (snd (extract_rows api idx rows acc)).
Proof.
  intros Hstep idx rows acc H0.
  induction rows as [|row rows IH] using rev_ind; [exact H0|].
  rewrite extract_rows_snoc. cbn [fst snd]. by apply Hstep.
Qed.

Lemma extract_table_data_invariant (I : ScraperState -> list Entry -> Prop) :
  (forall idx row st acc, I st acc ->
     I (fst (extract_row api idx row st)) (acc ++ snd (extract_row api idx row st))) ->
  forall tables st, I st [] ->
    I (fst (_extract_table_data api tables st)) (snd (_extract_table_data api tables st)).
Proof.
  intros Hstep tables st H0.
  induction tables as [|table tables IH] using rev_ind; [exact H0|].
  rewrite extract_table_data_snoc. destruct table as [|header_row data_rows]; [exact IH|].
  cbv zeta. destruct (_ =? -1)%Z; [exact IH|].
  by apply extract_rows_invariant.
Qed.

Lemma lookup_keeps_requests_distinct (name : string) (st : ScraperState) :
  name <> "" ->
  NoDup (api_requests st) /\ cache_complete st ->
  let st' := fst (_get_animal_image_from_api api name st) in
  NoDup (api_requests st') /\ cache_complete st'.
Proof.
  intros Hne [Hnd Hcc]. cbv zeta.
  pose proof (lookup_effect api name st Hne) as H.
  destruct (_api_cache st !! name) as [cached|] eqn:E; [by rewrite H|].
  destruct H as [v ->]. cbn [fst]. split.
  - cbn. apply NoDup_app. split; [exact Hnd|]. split; [|apply NoDup_singleton].
    intros u Hu ->%list_elem_of_singleton. apply Hcc in Hu as [w Hw]. congruence.
  - intros n. cbn. rewrite elem_of_app, list_elem_of_singleton.
    intros [Hn | ->%summary_url_inj].
    + apply lookup_insert_is_Some'. right. by apply Hcc.
    + rewrite lookup_insert_eq. by eexists.
Qed.

(** X12.  No page is requested twice in a scrape. *)
Theorem extract_table_data_requests_once (tables : list DataTable) (st : ScraperState) :
  NoDup (api_requests st) ->
  cache_complete st ->
  let st' := fst (_extract_table_data api tables st) in
  NoDup (api_requests st') /\ cache_complete st'.
Proof.
  intros Hnd Hcc. cbv zeta.
  apply (extract_table_data_invariant
           (fun st _ => NoDup (api_requests st) /\ cache_complete st)); [|done].
  intros idx row st0 _ Hinv.
  destruct (extract_row_cases api idx row st0)
    as [-> | (ac & jc & image & st1 & _ & _ & _ & -> & Himg)]; [done|].
  cbn [fst]. destruct Himg as [(c & l & _ & Hl) | (_ & -> & _)]; [|done].
  pose proof (lookup_keeps_requests_distinct (String c l) st0) as H.
  rewrite Hl in H. by apply H.
Qed.


End ScrapeRequests.

(** ** Instances of the scraper properties

    A table with the header of the list of animal names; the answer of
    the summary service for the page of the lion; a table of two rows
    that link to the same page. *)

Lemma identified_table_has_column_witness :
  let t := mkSoupTable ["wikitable"; "sortable"]
             [[["Animal"]; ["Young"]; ["Collateral adjective"]];
              [["Lion"]; ["cub"]; ["leonine"]]] in
  let soup := [mkSoupTable ["wikitable"] [[["Trivia"]]]; t] in
  t ∈ _identify_collateral_adjective_tables soup
  /\ exists (header : Row) (rest : list Row) (i : nat) (cell : Cell),
       table_rows t = header :: rest
       /\ _find_collateral_adjective_column_index header = Z.of_nat i
       /\ header !! i = Some cell /\ names_target cell.
Proof.
  intros t soup.
  assert (H : t ∈ _identify_collateral_adjective_tables soup)
    by (vm_compute; left).
  split; [exact H|].
  exact (identified_table_has_column soup t H).
Defined.

Lemma lookup_returns_thumbnail_source_witness :
  let thumbnail := [("source", JStr "https://upload.example/lion.jpg"); ("width", JNum 320)] in
  let members := [("title", JStr "Lion"); ("thumbnail", JObj thumbnail)] in
  let r := mkApiResponse 200 "OK" "" (Some (JObj members)) in
  let api := fun _ : string => ApiReturns r in
  let st := mkScraperState ∅ [] in
  _get_animal_image_from_api api "Lion" st
  = (mkScraperState (<["Lion" := JStr "https://upload.example/lion.jpg"]> (_api_cache st))
       (api_requests st ++ [summary_url "Lion"]),
     inl (JStr "https://upload.example/lion.jpg")).
Proof.
  intros thumbnail members r api st.
  apply (lookup_returns_thumbnail_source api "Lion" st r members thumbnail
           (JStr "https://upload.example/lion.jpg")).
  - discriminate.
  - apply lookup_empty.
  - reflexivity.
  - cbn. lia.
  - discriminate.
  - discriminate.
  - reflexivity.
  - reflexivity.
  - reflexivity.
Defined.

Lemma extract_table_data_requests_once_witness :
  let api := fun _ : string => ApiRaises (Timeout "timed out") in
  let header := [mkDataCell ["Animal"] "<th>Animal</th>" None;
                 mkDataCell ["Collateral adjective"] "<th>Collateral adjective</th>" None] in
  let row adjective :=
    [mkDataCell ["Lion"] "<td><a href=/wiki/Lion>Lion</a></td>" (Some "/wiki/Lion");
     mkDataCell [adjective] ("<td>" +:+ adjective +:+ "</td>") None] in
  let st := mkScraperState ∅ [] in
  let st' := fst (_extract_table_data api [[header; row "leonine"; row "lionlike"]] st) in
  NoDup (api_requests st') /\ cache_complete st'.
Proof.
  intros api header row st.
  apply (extract_table_data_requests_once api
           [[header; row "leonine"; row "lionlike"]] st).
  - apply NoDup_nil_2.
  - intros name H. by apply not_elem_of_nil in H.
Defined.

(** ** The processing pipeline *)

Section Pipeline.

Implicit Types (l raw : list Entry).

Lemma keep_valid_filter raw :
  keep_valid raw = List.filter validate_animal_entry raw.
Proof.
  unfold keep_valid.
  rewrite (fold_left_pointwise _
             (fun acc e => acc ++ (if validate_animal_entry e then [e] else []))).
  - rewrite fold_left_extend, app_nil_l.
    induction raw as [|e raw IH]; [reflexivity|].
    cbn [flat_map List.filter]. rewrite IH. by destruct (validate_animal_entry e).
  - intros acc e. destruct (validate_animal_entry e); [reflexivity | by rewrite app_nil_r].
Qed.

Lemma enrich_entries_map l :
  enrich_entries_with_metadata l = map enrich_entry l.
Proof.
  unfold enrich_entries_with_metadata.
  rewrite (fold_left_extend (fun e => [enrich_entry e])), app_nil_l.
  induction l as [|e l IH]; [reflexivity|]. cbn. by rewrite IH.
Qed.

Lemma filter_bool {A} (f : A -> bool) (xs : list A) :
  filter (fun x => f x = true) xs = List.filter f xs.
Proof.
  induction xs as [|x xs IH]; [reflexivity|].
  rewrite filter_cons, IH. cbn. case_decide as H; destruct (f x); done.
Qed.

Lemma size_list_to_set_le (keys : list string) :
  (size (list_to_set keys : gset string) <= length keys)%nat.
Proof.
  induction keys as [|k keys IH]; [done|].
  cbn [list_to_set foldr length]. rewrite size_union_alt, size_singleton.
  pose proof (subseteq_size (list_to_set keys ∖ {[k]}) (list_to_set keys : gset string)) as H.
  assert (list_to_set keys ∖ {[k]} ⊆ (list_to_set keys : gset string)) as Hsub.
  { intros x Hx. by apply elem_of_difference in Hx as [Hx _]. }
  specialize (H Hsub). lia.
Qed.

Lemma process_animal_data_spec raw :
  let processed := fst (process_animal_data raw) in
  processed = map enrich_entry (validate_and_deduplicate raw)
  /\ sublist (map base_entry processed) raw
  /\ Forall (fun x => validate_animal_entry (base_entry x) = true) processed
  /\ NoDup (map (fun x => (lower (animal_normalized x), lower (adjective_normalized x)))
                processed).
Proof.
  cbv zeta. unfold process_animal_data. cbn [fst].
  rewrite enrich_entries_map, keep_valid_filter.
  fold (deduplicate_entries (List.filter validate_animal_entry raw)).
  assert (Hbase : map base_entry
                    (map enrich_entry (deduplicate_entries (List.filter validate_animal_entry raw)))
                  = deduplicate_entries (List.filter validate_animal_entry raw)).
  { rewrite map_map. cbn. apply map_id. }
  split; [unfold validate_and_deduplicate; by rewrite filter_bool|]. split; [|split].
  - rewrite Hbase. etrans; [apply deduplicate_sublist | apply filter_sublist].
  - apply Forall_forall. intros x Hx. apply list_elem_of_In, in_map_iff in Hx as (e & <- & He).
    cbn. apply list_elem_of_In in He.
    apply (sublist_subseteq _ _ (deduplicate_sublist _)) in He.
    apply list_elem_of_In, filter_In in He. tauto.
  - rewrite map_map. cbn. apply (deduplicate_keys_NoDup (List.filter validate_animal_entry raw)).
Qed.

(** X14.  What [process_animal_data] returns: the valid records of the input,
    each pair (normalized key, normalized value) once, in the order of
    the input, every one with the metadata computed from its own
    fields. *)
Theorem process_animal_data_records raw :
  let processed := fst (process_animal_data raw) in
  processed = map enrich_entry (validate_and_deduplicate raw)
  /\ sublist (map base_entry processed) raw
  /\ Forall (fun x => validate_animal_entry (base_entry x) = true) processed
  /\ NoDup (map (fun x => (lower (animal_normalized x), lower (adjective_normalized x)))
                processed).
Proof. apply process_animal_data_spec. Qed.

(** X15.  The statistics [process_animal_data] leaves behind: the records
    returned and the duplicates counted are the valid entries, which are
    at most the original ones; no count of distinct keys, distinct
    values or images exceeds the number of records returned. *)
Theorem process_animal_data_statistics raw :
  let processed := fst (process_animal_data raw) in
  let stats := snd (process_animal_data raw) in
  original_entries stats = length raw
  /\ (valid_entries stats <= original_entries stats)%nat
  /\ (length processed + stat_duplicate_entries stats = valid_entries stats)%nat
  /\ (multiple_adjectives stats <= unique_animals stats)%nat
  /\ (unique_animals stats <= length processed)%nat
  /\ (unique_adjectives stats <= length processed)%nat
  /\ (animals_with_images stats <= length processed)%nat.
Proof.
  cbv zeta. unfold process_animal_data.
  cbn [fst snd original_entries valid_entries stat_duplicate_entries multiple_adjectives
       unique_animals unique_adjectives animals_with_images].
  rewrite enrich_entries_map, !length_map.
  split; [reflexivity|]. split; [|split; [|split; [|split; [|split]]]].
  - rewrite keep_valid_filter. apply filter_length_le.
  - apply (duplicate_entries_count (keep_valid raw)).
  - etrans; [apply filter_length_le|]. reflexivity.
  - etrans; [apply size_list_to_set_le|]. by rewrite !length_map.
  - etrans; [apply size_list_to_set_le|]. by rewrite !length_map.
  - etrans; [apply filter_length_le|]. by rewrite length_map.
Qed.

End Pipeline.

(** ** Sorting *)

Section SortedFacts.

Context {A K : Type}.
Variable leb : K -> K -> bool.
Variable key : A -> K.
Hypothesis leb_total : forall a b, leb a b = true \/ leb b a = true.

Let le (x y : A) : Prop := leb (key x) (key y) = true.

Lemma insert_sorted_perm (x : A) (l : list A) :
  Permutation (insert_sorted leb key x l) (x :: l).
Proof.
  induction l as [|y l IH]; [reflexivity|].
  cbn. destruct (leb (key x) (key y)); [reflexivity|].
  rewrite IH. apply perm_swap.
Qed.

Lemma py_sorted_perm (l : list A) : Permutation (py_sorted leb key l) l.
Proof.
  induction l as [|x l IH]; [reflexivity|].
  cbn. rewrite insert_sorted_perm. by constructor.
Qed.

Lemma insert_sorted_hd (x y : A) (l : list A) :
  le y x -> HdRel le y l -> HdRel le y (insert_sorted leb key x l).
Proof.
  intros Hyx Hhd. destruct l as [|z l]; cbn; [by constructor|].
  destruct (leb (key x) (key z)); constructor; [exact Hyx|].
  by inversion Hhd.
Qed.

Lemma insert_sorted_sorted (x : A) (l : list A) :
  Sorted le l -> Sorted le (insert_sorted leb key x l).
Proof.
  induction l as [|y l IH]; intros Hs; cbn.
  - by repeat constructor.
  - destruct (leb (key x) (key y)) eqn:E.
    + constructor; [exact Hs|]. by constructor.
    + apply Sorted_inv in Hs as [Hs Hhd]. constructor; [by apply IH|].
      apply insert_sorted_hd; [|exact Hhd].
      unfold le. destruct (leb_total (key x) (key y)); congruence.
Qed.

Lemma py_sorted_sorted (l : list A) : Sorted le (py_sorted leb key l).
Proof.
  induction l as [|x l IH]; [constructor|]. cbn. by apply insert_sorted_sorted.
Qed.

End SortedFacts.

Lemma image_key_leb_total (k1 k2 : bool * string) :
  image_key_leb k1 k2 = true \/ image_key_leb k2 k1 = true.
Proof.
  destruct k1 as [b1 s1], k2 as [b2 s2]. unfold image_key_leb. cbn.
  destruct b1, b2; cbn; auto using String.leb_total.
Qed.

Lemma Sorted_impl {A} (R1 R2 : A -> A -> Prop) (l : list A) :
  (forall x y, R1 x y -> R2 x y) -> Sorted R1 l -> Sorted R2 l.
Proof.
  intros H. induction 1 as [|x l Hs IH Hhd]; constructor; [exact IH|].
  destruct Hhd; constructor; auto.
Qed.

(** X16.  [sort_entries] returns the entries it was given, each as often as
    it came, in the order of the field asked for; a field it does not
    know is taken as ['animal']. *)
Theorem sort_entries_sorted_permutation (animal_data : list Enriched) (sort_by : string) :
  Permutation (sort_entries animal_data sort_by) animal_data
  /\ Sorted (ordered_by sort_by) (sort_entries animal_data sort_by).
Proof.
  unfold sort_entries, ordered_by.
  destruct (String.eqb_spec sort_by "animal") as [-> | Hanimal].
  { split; [apply py_sorted_perm|]. cbn.
    apply (py_sorted_sorted String.leb _ String.leb_total). }
  destruct (String.eqb sort_by "adjective").
  { split; [apply py_sorted_perm|].
    apply (py_sorted_sorted String.leb _ String.leb_total). }
  destruct (String.eqb sort_by "has_image").
  - split; [apply py_sorted_perm|].
    eapply Sorted_impl; [|apply (py_sorted_sorted image_key_leb _ image_key_leb_total)].
    intros x y. unfold image_key_leb, str_le. cbn.
    destruct (has_image x), (has_image y); cbn; intros H; split; congruence.
  - split; [apply py_sorted_perm|].
    apply (py_sorted_sorted String.leb _ String.leb_total).
Qed.

(** ** From the scraper to the processor *)

Lemma filter_none {A} (f : A -> bool) (xs : list A) :
  Forall (fun x => f x = false) xs -> List.filter f xs = [].
Proof.
  induction 1 as [|x xs Hx _ IH]; [reflexivity|]. cbn. by rewrite Hx.
Qed.

(** X17.  The processor runs on the records as the scraper made them, before
    any download: no processed record is marked as having an image, and
    the statistics count no animal with an image. *)
Theorem processed_scrape_has_no_images
    (api : string -> ApiGet) (tables : list DataTable) (st : ScraperState) :
  let raw := snd (_extract_table_data api tables st) in
  Forall (fun x => has_image x = false /\ image_download_successful x = false)
         (fst (process_animal_data raw))
  /\ animals_with_images (snd (process_animal_data raw)) = 0%nat.
Proof.
  cbv zeta. set (raw := snd (_extract_table_data api tables st)).
  assert (Hraw : Forall (fun e => local_image_path e = None /\ download_success e = None) raw).
  { eapply Forall_impl; [apply extract_table_data_from_rows|].
    intros e (h & rows & row & _ & _ & _ & Hfrom).
    destruct Hfrom as (ac & jc & _ & _ & _ & _ & _ & _ & _ & Hp & _ & Hs). done. }
  assert (Hall : Forall (fun x => has_image x = false /\ image_download_successful x = false)
                   (fst (process_animal_data raw))).
  { destruct (process_animal_data_spec raw) as (_ & Hsub & _).
    apply Forall_forall. intros x Hx.
    assert (Hb : base_entry x ∈ raw).
    { apply (sublist_subseteq _ _ Hsub). by apply list_elem_of_fmap_2. }
    rewrite Forall_forall in Hraw. destruct (Hraw _ Hb) as [Hp Hs].
    destruct (process_animal_data_spec raw) as (Heq & _).
    rewrite Heq in Hx. apply list_elem_of_fmap in Hx as (e & -> & _).
    cbn in *. by rewrite Hp, Hs. }
  split; [exact Hall|].
  unfold process_animal_data in *. cbn [fst snd animals_with_images] in *.
  rewrite filter_none; [done|]. eapply Forall_impl; [exact Hall|]. by intros x [? _].
Qed.


(** ** One download *)

Section TransferFacts.

Variable local_path : string.

Lemma received_length (cs : list (list Byte.byte)) :
  received cs = Z.of_nat (length (concat cs)).
Proof.
  induction cs as [|c cs IH]; [reflexivity|].
  rewrite received_cons, IH. cbn [concat]. rewrite length_app. lia.
Qed.

Lemma received_nonneg (cs : list (list Byte.byte)) : (0 <= received cs)%Z.
Proof. rewrite received_length. lia. Qed.

(** While the bytes received stay within the ceiling the loop writes
    every chunk and runs to its end. *)
Lemma write_chunks_within (cs : list (list Byte.byte)) (total : Z) (w : World)
    (old : list Byte.byte) :
  fs w !! local_path = Some old ->
  (forall k, (total + received (take k cs) <= Config.MAX_IMAGE_SIZE)%Z) ->
  write_chunks local_path cs total w
  = (mkWorld (<[local_path := old ++ concat cs]> (fs w)) (download_stats w) (requests w),
     inl (inr (total + received cs)%Z)).
Proof.
  revert total w old. induction cs as [|chunk rest IH]; intros total w old Hold Hk.
  - cbn. rewrite app_nil_r, insert_id, Z.add_0_r by done. by destruct w.
  - assert (Hrest : forall k, (total + Z.of_nat (length chunk) + received (take k rest)
                               <= Config.MAX_IMAGE_SIZE)%Z).
    { intros k. specialize (Hk (S k)). cbn [take] in Hk. rewrite received_cons in Hk. lia. }
    cbn [write_chunks]. destruct chunk as [|b chunk].
    + rewrite (IH total w old Hold); [|intros k; specialize (Hrest k); cbn in Hrest; lia].
      rewrite received_cons. cbn [concat length app]. repeat f_equal; lia.
    + unfold py_bind, file_write, on_fs, py_modify.
      replace (_ >? _)%Z with false.
      2:{ symmetry. rewrite Z.gtb_ltb. apply Z.ltb_ge.
          specialize (Hrest 0%nat). rewrite take_0 in Hrest.
          change (received []) with 0%Z in Hrest. lia. }
      rewrite (IH _ _ (old ++ b :: chunk)).
      * cbn [fs download_stats requests]. rewrite received_cons. cbn [concat].
        f_equal; [|do 2 f_equal; lia]. f_equal.
        rewrite <- app_assoc. apply map_eq. intros q.
        destruct (decide (q = local_path)) as [-> | Hq].
        -- by rewrite !lookup_insert_eq.
        -- by rewrite !lookup_insert_ne, lookup_alter_ne.
      * cbn [fs]. by rewrite lookup_alter_eq, Hold.
      * exact Hrest.
Qed.

End TransferFacts.

Section Accounting.

Variable local_path : string.

Lemma write_chunks_accounted (cs : list (list Byte.byte)) (total : Z) (w : World) :
  exists w' r,
    write_chunks local_path cs total w = (w', r)
    /\ match r with
       | inl (inl o) => exists msg, o = (false, msg, None)
                          /\ download_stats w' = bump 0 0 1 0 (download_stats w)
       | _ => download_stats w' = download_stats w
       end.
Proof.
  revert total w. induction cs as [|chunk rest IH]; intros total w.
  - by eexists _, _.
  - cbn [write_chunks]. destruct chunk as [|b chunk]; [apply IH|].
    unfold py_bind, file_write, on_fs, py_modify.
    destruct (_ >? _)%Z.
    + unfold unlink, incr_failed, on_stats, on_fs, py_bind, py_get, py_modify, py_ret, py_raise.
      cbn [fs]. destruct (alter _ local_path (fs w) !! local_path).
      * eexists _, _. split; [reflexivity|]. by eexists.
      * by eexists _, _.
    + match goal with |- context [write_chunks _ rest ?t ?w0] =>
        destruct (IH t w0) as (w' & r & -> & Hr) end.
      by eexists _, _.
Qed.

Lemma verify_download_accounted (total : Z) (w : World) :
  exists w' r,
    verify_download local_path total w = (w', r)
    /\ match r with
       | inl o => accounted 0 local_path w w' o
       | inr _ => download_stats w' = download_stats w
       end.
Proof.
  unfold verify_download, path_exists, path_size, unlink, incr_failed,
    incr_successful, on_stats, on_fs.
  unfold py_try, py_bind, py_ret, py_raise, py_get, py_modify.
  destruct (fs w !! local_path) as [content|] eqn:E.
  - rewrite bool_decide_eq_true_2 by by eexists.
    cbn. rewrite E. destruct (Z.of_nat (length content) =? 0)%Z.
    + rewrite E. eexists _, _. split; [reflexivity|]. right; right. by eexists.
    + eexists _, _. split; [reflexivity|]. right; left. eexists.
      split; [reflexivity|]. split; [reflexivity|]. cbn. by rewrite E.
  - rewrite bool_decide_eq_false_2 by (by intros [? ?]).
    eexists _, _. split; [reflexivity|]. right; right. by eexists.
Qed.

Lemma transfer_accounted (r : Response) (w : World) :
  exists w' res,
    transfer local_path r w = (w', res)
    /\ match res with
       | inl o => accounted 0 local_path w w' o
       | inr _ => download_stats w' = download_stats w
       end.
Proof.
  unfold transfer, open_wb, on_fs. unfold py_bind, py_ret, py_raise, py_modify.
  match goal with |- context [write_chunks ?p ?cs ?t ?w0] =>
    destruct (write_chunks_accounted cs t w0) as (w1 & res & -> & Hres) end.
  destruct res as [[o | total] | e]; cbn [download_stats] in Hres.
  - destruct Hres as (msg & -> & Hst). eexists _, _. split; [reflexivity|].
    right; right. by eexists.
  - destruct (stream_error r); [by eexists _, _|].
    destruct (verify_download_accounted total w1) as (w2 & res & -> & Hres2).
    eexists _, _. split; [reflexivity|].
    destruct res as [o | e]; [|congruence].
    unfold accounted in *. rewrite Hres in Hres2. exact Hres2.
  - by eexists _, _.
Qed.

End Accounting.

Section TaskFacts.

Variable url_suffix : string -> string + string.
Variable net : string -> GetResult.
Variables animal_name image_url : string.

(** The destination of the task is computed, and is [local_path]. *)
Variable local_path : string.
Hypothesis Hpath :
  create_local_image_path url_suffix animal_name image_url = inl local_path.

Local Ltac unfold_body :=
  unfold download_body, incr_attempted, incr_skipped, incr_failed, incr_successful,
    path_exists, session_get, raise_for_status, length_too_large, on_stats;
  unfold py_bind, py_ret, py_raise, py_get, py_modify, py_call;
  rewrite Hpath; cbv beta iota.

Lemma transfer_accounted_from (r : Response) (w w0 : World) :
  download_stats w0 = bump 1 0 0 0 (download_stats w) ->
  exists w' res,
    transfer local_path r w0 = (w', res)
    /\ match res with
       | inl o => accounted 1 local_path w w' o
       | inr _ => download_stats w' = bump 1 0 0 0 (download_stats w)
       end.
Proof.
  intros H0. destruct (transfer_accounted local_path r w0) as (w1 & res & -> & Hres).
  eexists _, _. split; [reflexivity|]. destruct res as [o | e]; [|congruence].
  unfold accounted in *. rewrite H0 in Hres. exact Hres.
Qed.

Lemma download_body_accounted (w : World) :
  exists w' res,
    download_body url_suffix net animal_name image_url w = (w', res)
    /\ match res with
       | inl o => accounted 1 local_path w w' o
       | inr _ => download_stats w' = bump 1 0 0 0 (download_stats w)
       end.
Proof.
  unfold_body. cbn [fs download_stats requests].
  destruct (fs w !! local_path) as [content|] eqn:E.
  { rewrite bool_decide_eq_true_2 by by eexists.
    eexists _, _. split; [reflexivity|]. left. cbn. by rewrite E. }
  rewrite bool_decide_eq_false_2 by (by intros [? ?]).
  destruct (net image_url) as [e | r]; [by eexists _, _|].
  destruct ((400 <=? status_code r) && (status_code r <? 500))%Z; [by eexists _, _|].
  destruct ((500 <=? status_code r) && (status_code r <? 600))%Z; [by eexists _, _|].
  destruct (negb _).
  { eexists _, _. split; [reflexivity|]. right; right. by eexists. }
  destruct (content_length r) as [[|c cl]|]; cbn [fs download_stats requests].
  - by apply transfer_accounted_from.
  - destruct (PyInt.int _) as [n|]; [|by eexists _, _].
    destruct (n >? _)%Z; [|by apply transfer_accounted_from].
    eexists _, _. split; [reflexivity|]. right; right. by eexists.
  - by apply transfer_accounted_from.
Qed.

Lemma download_accounted (w : World) :
  exists w' o,
    _download_single_image url_suffix net animal_name image_url w = (w', inl o)
    /\ accounted 1 local_path w w' o.
Proof.
  destruct (download_body_accounted w) as (w1 & res & Heq & Hres).
  unfold _download_single_image, py_try. rewrite Heq. destruct res as [o | e].
  - by eexists _, _.
  - destruct (download_handler_fails e w1) as [msg ->].
    eexists _, _. split; [reflexivity|]. right; right. exists msg.
    split; [reflexivity|]. cbn. by rewrite Hres.
Qed.

End TaskFacts.

(** X18.  Every task ends in one outcome, raises nothing, and is counted once:
    one attempt, and one of skipped, successful and failed; a success
    names the destination, which then exists.  A task without a
    destination, its URL being refused by [urlparse], is a failure. *)
Theorem download_single_image_accounted
    (url_suffix : string -> string + string) (net : string -> GetResult)
    (animal_name image_url : string) (w : World) :
  exists w' o,
    _download_single_image url_suffix net animal_name image_url w = (w', inl o)
    /\ match create_local_image_path url_suffix animal_name image_url with
       | inl local_path => accounted 1 local_path w w' o
       | inr _ =>
           (exists msg, o = (false, msg, None))
           /\ download_stats w' = bump 1 0 1 0 (download_stats w)
       end.
Proof.
  destruct (create_local_image_path url_suffix animal_name image_url)
    as [local_path | e] eqn:Hpath.
  - by apply download_accounted.
  - rewrite (download_without_destination url_suffix net animal_name image_url w e Hpath).
    eexists _, _. split; [reflexivity|]. split; [by eexists | done].
Qed.

Section TransferOutcome.

Variable local_path : string.

(** A body within the ceiling is written out in full; then the iterator
    raises, or the file is verified. *)
Lemma transfer_within (r : Response) (w : World) :
  body_within r ->
  transfer local_path r w
  = let w1 := mkWorld (<[local_path := concat (chunks r)]> (fs w))
                      (download_stats w) (requests w) in
    match stream_error r with
    | Some e => (w1, inr e)
    | None => verify_download local_path (received (chunks r)) w1
    end.
Proof.
  intros Hin. unfold transfer, open_wb, on_fs. unfold py_bind, py_ret, py_raise, py_modify.
  rewrite (write_chunks_within local_path (chunks r) 0 _ []).
  - cbn [fs download_stats requests app]. rewrite insert_insert_eq, Z.add_0_l.
    by destruct (stream_error r).
  - cbn [fs]. apply lookup_insert_eq.
  - intros k. rewrite Z.add_0_l. apply Hin.
Qed.

Lemma verify_download_present (total : Z) (w : World) (content : list Byte.byte) :
  fs w !! local_path = Some content ->
  verify_download local_path total w
  = match content with
    | [] => (mkWorld (delete local_path (fs w)) (bump 0 0 1 0 (download_stats w)) (requests w),
             inl (false, "Downloaded file is empty", None))
    | _ => (mkWorld (fs w) (bump 0 1 0 0 (download_stats w)) (requests w),
            inl (true, "Downloaded successfully (" +:+ str_of_Z total +:+ " bytes)",
                 Some local_path))
    end.
Proof.
  intros E.
  unfold verify_download, path_exists, path_size, unlink, incr_failed,
    incr_successful, on_stats, on_fs.
  unfold py_bind, py_ret, py_raise, py_get, py_modify.
  rewrite bool_decide_eq_true_2 by by eexists.
  cbn. rewrite E. destruct content as [|b content]; cbn [length].
  - change (Z.of_nat 0 =? 0)%Z with true. cbn. by rewrite E.
  - change (Z.of_nat (S (length content)) =? 0)%Z with false. done.
Qed.

End TransferOutcome.

Section TaskOutcomes.

Variable url_suffix : string -> string + string.
Variable net : string -> GetResult.
Variables animal_name image_url : string.

(** The destination of the task is computed, and is [local_path]. *)
Variable local_path : string.
Hypothesis Hpath :
  create_local_image_path url_suffix animal_name image_url = inl local_path.

Local Ltac unfold_body :=
  unfold download_body, incr_attempted, incr_skipped, incr_failed, incr_successful,
    path_exists, session_get, raise_for_status, length_too_large, on_stats;
  unfold py_bind, py_ret, py_raise, py_get, py_modify, py_call;
  rewrite Hpath; cbv beta iota.

(** With the destination missing and the headers accepted, the body of
    the [try] block comes down to the transfer. *)
Lemma download_body_accepted (w : World) (r : Response) :
  fs w !! local_path = None ->
  net image_url = GetReturns r ->
  headers_accepted r ->
  download_body url_suffix net animal_name image_url w
  = transfer local_path r
      (mkWorld (fs w) (bump 1 0 0 0 (download_stats w)) (requests w ++ [image_url])).
Proof.
  intros Hno Hnet (Hst & Hct & Hlen). unfold_body. cbn [fs download_stats requests].
  rewrite Hno, bool_decide_eq_false_2, Hnet by (by intros [? ?]).
  replace ((400 <=? status_code r) && (status_code r <? 500))%Z with false.
  2:{ symmetry. apply andb_false_iff. rewrite Z.leb_gt, Z.ltb_ge. lia. }
  replace ((500 <=? status_code r) && (status_code r <? 600))%Z with false.
  2:{ symmetry. apply andb_false_iff. rewrite Z.leb_gt, Z.ltb_ge. lia. }
  rewrite Hct. cbn [negb].
  destruct (content_length r) as [[|c cl]|]; [done | | done].
  destruct Hlen as (n & -> & Hn).
  replace (n >? Config.MAX_IMAGE_SIZE)%Z with false; [done|].
  symmetry. rewrite Z.gtb_ltb. by apply Z.ltb_ge.
Qed.

(** A refused request fails the task and changes no file. *)
Lemma download_refused (w : World) :
  fs w !! local_path = None ->
  refused (net image_url) ->
  exists w' msg,
    _download_single_image url_suffix net animal_name image_url w
    = (w', inl (false, msg, None))
    /\ fs w' = fs w.
Proof.
  intros Hno Href. unfold _download_single_image, py_try. unfold_body.
  cbn [fs download_stats requests].
  rewrite Hno, bool_decide_eq_false_2 by (by intros [? ?]).
  unfold refused in Href. destruct (net image_url) as [e | r].
  { match goal with |- context [download_handler ?e ?w0] =>
      destruct (download_handler_fails e w0) as [msg ->] end. by eexists _, _. }
  destruct ((400 <=? status_code r) && (status_code r <? 500))%Z eqn:E4.
  { match goal with |- context [download_handler ?e ?w0] =>
      destruct (download_handler_fails e w0) as [msg ->] end. by eexists _, _. }
  destruct ((500 <=? status_code r) && (status_code r <? 600))%Z eqn:E5.
  { match goal with |- context [download_handler ?e ?w0] =>
      destruct (download_handler_fails e w0) as [msg ->] end. by eexists _, _. }
  destruct Href as [Hst | Hct].
  { exfalso. apply andb_false_iff in E4, E5. rewrite Z.leb_gt, Z.ltb_ge in E4, E5. lia. }
  rewrite Hct. by eexists _, _.
Qed.

(** An accepted, non-empty body within the ceiling, received to its end:
    the task succeeds, the file holds the body, and the message gives
    its size. *)
Lemma download_stores (w : World) (r : Response) :
  fs w !! local_path = None ->
  net image_url = GetReturns r ->
  headers_accepted r ->
  body_within r ->
  stream_error r = None ->
  concat (chunks r) <> [] ->
  _download_single_image url_suffix net animal_name image_url w
  = (mkWorld (<[local_path := concat (chunks r)]> (fs w))
             (bump 1 1 0 0 (download_stats w)) (requests w ++ [image_url]),
     inl (true,
          "Downloaded successfully ("
            +:+ str_of_Z (Z.of_nat (length (concat (chunks r)))) +:+ " bytes)",
          Some local_path)).
Proof.
  intros Hno Hnet Hacc Hin Hse Hne. unfold _download_single_image, py_try.
  rewrite (download_body_accepted w r Hno Hnet Hacc), (transfer_within _ r _ Hin), Hse.
  cbv zeta. rewrite (verify_download_present _ _ _ (concat (chunks r)))
    by (cbn [fs]; apply lookup_insert_eq).
  rewrite received_length. by destruct (concat (chunks r)).
Qed.

(** An accepted body that turns out empty: the task fails and the empty
    file is removed again. *)
Lemma download_empty_body (w : World) (r : Response) :
  fs w !! local_path = None ->
  net image_url = GetReturns r ->
  headers_accepted r ->
  stream_error r = None ->
  concat (chunks r) = [] ->
  _download_single_image url_suffix net animal_name image_url w
  = (mkWorld (fs w) (bump 1 0 1 0 (download_stats w)) (requests w ++ [image_url]),
     inl (false, "Downloaded file is empty", None)).
Proof.
  intros Hno Hnet Hacc Hse Hempty. unfold _download_single_image, py_try.
  assert (Hin : body_within r).
  { intros k. rewrite received_length.
    assert (Hk : concat (take k (chunks r)) = []).
    { rewrite <- (take_drop k (chunks r)), concat_app in Hempty.
      by apply app_eq_nil in Hempty as [? _]. }
    rewrite Hk. by vm_compute. }
  rewrite (download_body_accepted w r Hno Hnet Hacc), (transfer_within _ r _ Hin), Hse.
  cbv zeta. rewrite (verify_download_present _ _ _ (concat (chunks r)))
    by (cbn [fs]; apply lookup_insert_eq).
  rewrite Hempty. cbn [fs download_stats requests].
  by rewrite delete_insert_id.
Qed.

(** An iterator that raises in mid-transfer: the task fails, but what
    was written stays at the destination, and the next run of the task
    takes it for a finished download. *)
Lemma download_interrupted (w : World) (r : Response) (e : Exn) :
  fs w !! local_path = None ->
  net image_url = GetReturns r ->
  headers_accepted r ->
  body_within r ->
  stream_error r = Some e ->
  exists w' msg,
    _download_single_image url_suffix net animal_name image_url w
    = (w', inl (false, msg, None))
    /\ fs w' = <[local_path := concat (chunks r)]> (fs w)
    /\ snd (_download_single_image url_suffix net animal_name image_url w')
       = inl (true, "File already exists", Some local_path).
Proof.
  intros Hno Hnet Hacc Hin Hse. unfold _download_single_image at 1. unfold py_try.
  rewrite (download_body_accepted w r Hno Hnet Hacc), (transfer_within _ r _ Hin), Hse.
  cbv beta iota zeta. match goal with |- context [download_handler ?e ?w0] =>
    destruct (download_handler_fails e w0) as [msg ->] end.
  eexists _, _. split; [reflexivity|]. split; [reflexivity|].
  rewrite (download_skips_existing url_suffix net animal_name image_url local_path Hpath);
    [done|].
  cbn [fs]. rewrite lookup_insert_eq. by eexists.
Qed.

(** A task that succeeded is skipped when it is run again: nothing is
    requested and no file changes. *)
Lemma download_skip_after_success (w w' : World) (msg : string) (path : option string) :
  _download_single_image url_suffix net animal_name image_url w = (w', inl (true, msg, path)) ->
  _download_single_image url_suffix net animal_name image_url w'
  = (mkWorld (fs w') (bump 1 0 0 1 (download_stats w')) (requests w'),
     inl (true, "File already exists", Some local_path)).
Proof.
  intros Hrun.
  destruct (download_accounted url_suffix net animal_name image_url local_path Hpath w)
    as (w1 & o & Heq & Hacc).
  rewrite Hrun in Heq. injection Heq as <- <-.
  apply download_skips_existing; [exact Hpath|].
  destruct Hacc as [(_ & _ & H) | [(m & _ & _ & H) | (m & Hm & _)]]; [done | done | discriminate].
Qed.

End TaskOutcomes.

(** X19.  A refused request fails the task and changes no file. *)
Theorem download_refused_changes_no_file
    (url_suffix : string -> string + string) (net : string -> GetResult)
    (animal_name image_url : string) (w : World) :
  (forall local_path,
      create_local_image_path url_suffix animal_name image_url = inl local_path ->
      fs w !! local_path = None) ->
  refused (net image_url) ->
  exists w' msg,
    _download_single_image url_suffix net animal_name image_url w
    = (w', inl (false, msg, None))
    /\ fs w' = fs w.
Proof.
  intros Hno Href.
  destruct (create_local_image_path url_suffix animal_name image_url)
    as [local_path | e] eqn:Hpath.
  - by apply (download_refused url_suffix net animal_name image_url local_path Hpath w);
      [apply Hno|].
  - rewrite (download_without_destination url_suffix net animal_name image_url w e Hpath).
    by eexists _, _.
Qed.

(** X20.  An accepted, non-empty body within the ceiling, received to its end:
    the task succeeds, the file holds the body, and the message gives
    its size. *)
Theorem download_stores_body
    (url_suffix : string -> string + string) (net : string -> GetResult)
    (animal_name image_url local_path : string) (w : World) (r : Response) :
  create_local_image_path url_suffix animal_name image_url = inl local_path ->
  fs w !! local_path = None ->
  net image_url = GetReturns r ->
  headers_accepted r ->
  body_within r ->
  stream_error r = None ->
  concat (chunks r) <> [] ->
  _download_single_image url_suffix net animal_name image_url w
  = (mkWorld (<[local_path := concat (chunks r)]> (fs w))
             (bump 1 1 0 0 (download_stats w)) (requests w ++ [image_url]),
     inl (true,
          "Downloaded successfully ("
            +:+ str_of_Z (Z.of_nat (length (concat (chunks r)))) +:+ " bytes)",
          Some local_path)).
Proof. intros Hpath. by apply download_stores. Qed.

(** X21.  An accepted body that turns out empty: the task fails and the empty
    file is removed again. *)
Theorem download_empty_body_fails
    (url_suffix : string -> string + string) (net : string -> GetResult)
    (animal_name image_url local_path : string) (w : World) (r : Response) :
  create_local_image_path url_suffix animal_name image_url = inl local_path ->
  fs w !! local_path = None ->
  net image_url = GetReturns r ->
  headers_accepted r ->
  stream_error r = None ->
  concat (chunks r) = [] ->
  _download_single_image url_suffix net animal_name image_url w
  = (mkWorld (fs w) (bump 1 0 1 0 (download_stats w)) (requests w ++ [image_url]),
     inl (false, "Downloaded file is empty", None)).
Proof. intros Hpath. by apply (download_empty_body url_suffix net animal_name image_url local_path). Qed.

(** X22.  An iterator that raises in mid-transfer: the task fails, but what
    was written stays at the destination, and the next run of the task
    takes it for a finished download. *)
Theorem download_interrupted_leaves_partial_file
    (url_suffix : string -> string + string) (net : string -> GetResult)
    (animal_name image_url local_path : string) (w : World) (r : Response) (e : Exn) :
  create_local_image_path url_suffix animal_name image_url = inl local_path ->
  fs w !! local_path = None ->
  net image_url = GetReturns r ->
  headers_accepted r ->
  body_within r ->
  stream_error r = Some e ->
  exists w' msg,
    _download_single_image url_suffix net animal_name image_url w
    = (w', inl (false, msg, None))
    /\ fs w' = <[local_path := concat (chunks r)]> (fs w)
    /\ snd (_download_single_image url_suffix net animal_name image_url w')
       = inl (true, "File already exists", Some local_path).
Proof. intros Hpath. by apply download_interrupted. Qed.

(** X23.  A task that succeeded is skipped when it is run again: nothing is
    requested and no file changes.  The path of the success is the
    destination of the task. *)
Theorem download_success_then_skip
    (url_suffix : string -> string + string) (net : string -> GetResult)
    (animal_name image_url : string) (w w' : World) (msg : string) (path : option string) :
  _download_single_image url_suffix net animal_name image_url w = (w', inl (true, msg, path)) ->
  exists local_path,
    create_local_image_path url_suffix animal_name image_url = inl local_path
    /\ path = Some local_path
    /\ _download_single_image url_suffix net animal_name image_url w'
       = (mkWorld (fs w') (bump 1 0 0 1 (download_stats w')) (requests w'),
          inl (true, "File already exists", Some local_path)).
Proof.
  intros Hrun.
  destruct (create_local_image_path url_suffix animal_name image_url)
    as [local_path | e] eqn:Hpath.
  - exists local_path. split; [done|]. split.
    + destruct (download_accounted url_suffix net animal_name image_url local_path Hpath w)
        as (w1 & o & Heq & Hacc).
      rewrite Hrun in Heq. injection Heq as <- <-.
      destruct Hacc as [(H & _) | [(m & H & _) | (m & H & _)]]; congruence.
    + by apply (download_skip_after_success url_suffix net animal_name image_url
                  local_path Hpath w w' msg path).
  - rewrite (download_without_destination url_suffix net animal_name image_url w e Hpath)
      in Hrun. discriminate.
Qed.

Section Frame.

Variable url_suffix : string -> string + string.
Variable net : string -> GetResult.
Variables animal_name image_url : string.

(** The destination of the task is computed, and is [local_path]. *)
Variable local_path : string.
Hypothesis Hpath :
  create_local_image_path url_suffix animal_name image_url = inl local_path.

Lemma verify_download_frame (p : string) (total : Z) (w : World) (q : string) :
  q <> p -> fs (fst (verify_download p total w)) !! q = fs w !! q.
Proof.
  intros Hq.
  unfold verify_download, path_exists, path_size, unlink, incr_failed,
    incr_successful, on_stats, on_fs.
  unfold py_bind, py_ret, py_raise, py_get, py_modify.
  destruct (fs w !! p) as [content|] eqn:E.
  - rewrite bool_decide_eq_true_2 by by eexists.
    cbn. rewrite E. destruct (Z.of_nat (length content) =? 0)%Z; [|done].
    rewrite E. cbn. by rewrite lookup_delete_ne.
  - rewrite bool_decide_eq_false_2 by (by intros [? ?]). done.
Qed.

Lemma transfer_frame (p : string) (r : Response) (w : World) (q : string) :
  q <> p -> fs (fst (transfer p r w)) !! q = fs w !! q.
Proof.
  intros Hq. unfold transfer, open_wb, on_fs. unfold py_bind, py_ret, py_raise, py_modify.
  match goal with |- context [write_chunks ?p ?cs ?t ?w0] =>
    pose proof (proj2 (write_chunks_frame p cs t w0) q Hq) as Hfr;
    destruct (write_chunks p cs t w0) as [w1 [[early | total] | e]]
  end; cbn [fst fs] in Hfr; rewrite lookup_insert_ne in Hfr by done; [done | | done].
  destruct (stream_error r); [done|].
  by rewrite verify_download_frame.
Qed.

(** A task touches no file but its own destination. *)
Lemma download_frame (w : World) (q : string) :
  q <> local_path ->
  fs (fst (_download_single_image url_suffix net animal_name image_url w)) !! q
  = fs w !! q.
Proof.
  intros Hq.
  assert (Hh : forall e w0, fs (fst (download_handler e w0)) = fs w0).
  { intros e w0. by destruct (download_handler_fails e w0) as [msg ->]. }
  assert (Ht : forall r w0,
            fs (fst (match transfer local_path r w0 with
                     | (st', inl a) => (st', inl a)
                     | (st', inr e) => download_handler e st'
                     end)) !! q = fs w0 !! q).
  { intros r w0. pose proof (transfer_frame local_path r w0 q Hq) as H.
    destruct (transfer local_path r w0) as [w1 [o | e]]; [done|].
    by rewrite Hh. }
  unfold _download_single_image, py_try, download_body, incr_attempted, incr_skipped,
    incr_failed, path_exists, session_get, raise_for_status, length_too_large, on_stats.
  unfold py_bind, py_ret, py_raise, py_get, py_modify, py_call.
  rewrite Hpath. cbv beta iota. cbn [fs download_stats requests].
  destruct (bool_decide _); [done|].
  destruct (net image_url) as [e | r]; [by rewrite Hh|].
  destruct ((400 <=? status_code r) && (status_code r <? 500))%Z; [by rewrite Hh|].
  destruct ((500 <=? status_code r) && (status_code r <? 600))%Z; [by rewrite Hh|].
  destruct (negb _); [done|].
  destruct (content_length r) as [[|c cl]|]; cbn [fs download_stats requests].
  - by rewrite Ht.
  - destruct (PyInt.int _) as [n|]; [|by rewrite Hh].
    destruct (n >? _)%Z; [done | by rewrite Ht].
  - by rewrite Ht.
Qed.

End Frame.

(** ** Many downloads *)

Section OrchestratorFacts.

Variable url_suffix : string -> string + string.
Variable net : string -> GetResult.

Lemma same_record_refl (e : Entry) : same_record e e.
Proof. by repeat split. Qed.

Lemma same_record_with_result (r : FutureResult) (e e' : Entry) :
  same_record e e' -> same_record e (with_result r e').
Proof. by destruct r as [[[success message] path] | ex]. Qed.

(** X26.  The list that comes back has the records that went in, in their
    places: only the download fields can differ. *)
Theorem download_images_keeps_records
    (animal_data : list Entry) (completion : list nat) (w : World) :
  let returned :=
    snd (download_images_concurrently url_suffix net animal_data completion w) in
  length returned = length animal_data
  /\ forall i e e', animal_data !! i = Some e -> returned !! i = Some e' -> same_record e e'.
Proof.
  cbv zeta. unfold download_images_concurrently, prepare.
  destruct (prepare_from_spec animal_data animal_data) as (_ & Hpd & _).
  set (p := fold_left prepare_step _ _) in *. rewrite Hpd.
  apply (completion_invariant url_suffix net
           (fun data => length data = length animal_data
                        /\ forall i e e', animal_data !! i = Some e ->
                             data !! i = Some e' -> same_record e e')).
  - intros task result data _ [Hlen Hsame]. split; [by rewrite attach_length|].
    intros i e e' Hi Hi'.
    destruct (animal_to_data_map p !! task) as [j|] eqn:Ej.
    + rewrite (attach_alter _ _ _ _ j Ej) in Hi'.
      destruct (decide (j = i)) as [-> | Hne].
      * rewrite list_lookup_alter_eq in Hi'.
        destruct (data !! i) as [e0|] eqn:E0; [|discriminate].
        injection Hi' as <-. apply same_record_with_result. by eapply Hsame.
      * rewrite list_lookup_alter_ne in Hi' by done. by eapply Hsame.
    + unfold attach in Hi'. rewrite Ej in Hi'.
      destruct result as [[[success message] path] | ex]; by eapply Hsame.
  - split; [done|]. intros i e e' Hi Hi'. assert (e' = e) as -> by congruence.
    apply same_record_refl.
Qed.

End OrchestratorFacts.

(** ** Clean-up *)

Lemma cleanup_fold_lookup (image_files : list string)
    (files : gmap string (list Byte.byte)) (n : nat) (p : string) :
  fst (fold_left cleanup_step image_files (files, n)) !! p
  = match files !! p with
    | Some [] => if bool_decide (p ∈ image_files) then None else Some []
    | other => other
    end.
Proof.
  revert files n. induction image_files as [|f fl IH]; intros files n.
  - cbn. by destruct (files !! p) as [[|b c]|].
  - cbn [fold_left]. unfold cleanup_step at 2.
    destruct (decide (p = f)) as [-> | Hne].
    + destruct (files !! f) as [[|b c]|] eqn:Ef; rewrite IH.
      * rewrite lookup_delete_eq. rewrite bool_decide_eq_true_2; [done | by left].
      * by rewrite Ef.
      * by rewrite Ef.
    + assert (bool_decide (p ∈ f :: fl) = bool_decide (p ∈ fl)) as ->.
      { apply bool_decide_ext. rewrite elem_of_cons. split; [|by right].
        by intros [H | H]. }
      destruct (files !! f) as [[|b c]|] eqn:Ef; rewrite IH; [|done|done].
      by rewrite lookup_delete_ne.
Qed.

(** X30.  The clean-up removes the empty files that match the image pattern
    in the download directory, and nothing else. *)
Theorem cleanup_removes_empty_image_files (w : World) (p : string) :
  fs (fst (cleanup_failed_downloads w)) !! p
  = match fs w !! p with
    | Some [] => if glob_image_match p then None else Some []
    | other => other
    end.
Proof.
  unfold cleanup_failed_downloads.
  pose proof (cleanup_fold_lookup
                (List.filter glob_image_match (map fst (map_to_list (fs w))))
                (fs w) 0 p) as H.
  destruct (fold_left _ _ _) as [files n]. cbn [fst fs] in *. rewrite H.
  destruct (fs w !! p) as [[|b c]|] eqn:Ep; [|done|done].
  destruct (glob_image_match p) eqn:Eg.
  - rewrite bool_decide_eq_true_2; [done|].
    apply list_elem_of_In, filter_In. split; [|done].
    apply in_map_iff. exists (p, []). split; [done|].
    by apply list_elem_of_In, elem_of_map_to_list.
  - rewrite bool_decide_eq_false_2; [done|].
    intros [_ H']%list_elem_of_In%filter_In. congruence.
Qed.

(** ** Files across a download *)

(** X24.  A task touches no file but its own destination, and a file that is
    there when the task starts is there, unchanged, when it ends: a
    download never overwrites or removes a file it did not create
    itself. *)
Theorem download_leaves_other_files_alone
    (url_suffix : string -> string + string) (net : string -> GetResult)
    (animal_name image_url : string) (w : World) (q : string) :
  let w' := fst (_download_single_image url_suffix net animal_name image_url w) in
  (create_local_image_path url_suffix animal_name image_url <> inl q ->
   fs w' !! q = fs w !! q)
  /\ (forall content, fs w !! q = Some content -> fs w' !! q = Some content).
Proof.
  cbv zeta.
  destruct (create_local_image_path url_suffix animal_name image_url)
    as [local_path | e] eqn:Hpath.
  - split.
    + intros Hq. apply (download_frame url_suffix net animal_name image_url local_path Hpath).
      congruence.
    + intros content Hq. destruct (decide (q = local_path)) as [-> | Hne].
      * rewrite (download_skips_existing url_suffix net animal_name image_url
                   local_path Hpath) by by eexists.
        exact Hq.
      * by rewrite (download_frame url_suffix net animal_name image_url local_path Hpath).
  - rewrite (download_without_destination url_suffix net animal_name image_url w e Hpath).
    by split.
Qed.

(** ** The tasks of a run *)

(** X25.  Every record is given a task: a record without an image URL is
    given the fallback URL made from its key, so no record is passed
    over for want of a URL, and the entries are not touched before the
    downloads start. *)
Theorem prepare_gives_every_record_a_task (animal_data : list Entry) :
  download_tasks (prepare animal_data) = map task_of animal_data
  /\ prepared_data (prepare animal_data) = animal_data
  /\ Forall (fun task => snd task <> "") (download_tasks (prepare animal_data)).
Proof.
  destruct (prepare_from_spec animal_data animal_data) as (Hdt & Hpd & _).
  split; [exact Hdt|]. split; [exact Hpd|].
  unfold prepare. rewrite Hdt. apply Forall_forall. intros task Ht.
  apply list_elem_of_fmap in Ht as (e & -> & _). unfold task_of. cbn [snd].
  by destruct (primary_image_url e) as [[|c u]|].
Qed.


(** ** Instances of the download properties

    A page that is no image; an image of two bytes; an empty body; a
    connection that breaks after the first chunk; two futures that
    complete in the reverse order. *)

Lemma download_refused_changes_no_file_witness :
  let net := fun _ : string =>
    GetReturns (mkResponse 200 "OK" "http://example.org/lion"
                  (Some "text/html") None [] None) in
  let w := mkWorld ∅ (mkStats 0 0 0 0) [] in
  refused (net "http://example.org/lion")
  /\ exists w' msg,
       _download_single_image (fun _ => inl "") net "Lion" "http://example.org/lion" w
       = (w', inl (false, msg, None))
       /\ fs w' = fs w.
Proof.
  intros net w.
  assert (H2 : refused (net "http://example.org/lion")) by (right; reflexivity).
  split; [exact H2|].
  exact (download_refused_changes_no_file (fun _ => inl "") net
           "Lion" "http://example.org/lion" w (fun p _ => lookup_empty p) H2).
Defined.

Lemma download_stores_body_witness :
  let r := mkResponse 200 "OK" "http://example.org/lion.jpg"
             (Some "image/jpeg") None [[Byte.x01]; []; [Byte.x02]] None in
  let net := fun _ : string => GetReturns r in
  let w := mkWorld ∅ (mkStats 0 0 0 0) [] in
  headers_accepted r /\ body_within r
  /\ _download_single_image (fun _ => inl ".jpg") net "Lion" "http://example.org/lion.jpg" w
     = (mkWorld {[ "/tmp/lion_image.jpg" := [Byte.x01; Byte.x02] ]}
                (mkStats 1 1 0 0) ["http://example.org/lion.jpg"],
        inl (true, "Downloaded successfully (2 bytes)", Some "/tmp/lion_image.jpg")).
Proof.
  intros r net w.
  assert (H2 : headers_accepted r).
  { split; [cbn; lia|]. split; [reflexivity | exact I]. }
  assert (H3 : body_within r).
  { intros k. destruct k as [|[|[|[|k]]]]; by vm_compute. }
  split; [exact H2|]. split; [exact H3|].
  exact (download_stores_body (fun _ => inl ".jpg") net "Lion" "http://example.org/lion.jpg"
           "/tmp/lion_image.jpg" w r eq_refl (lookup_empty _) eq_refl H2 H3 eq_refl
           ltac:(discriminate)).
Defined.

Lemma download_empty_body_fails_witness :
  let r := mkResponse 200 "OK" "http://example.org/lion.jpg"
             (Some "image/jpeg") (Some "0") [[]] None in
  let net := fun _ : string => GetReturns r in
  let w := mkWorld ∅ (mkStats 0 0 0 0) [] in
  headers_accepted r
  /\ _download_single_image (fun _ => inl ".jpg") net "Lion" "http://example.org/lion.jpg" w
     = (mkWorld ∅ (mkStats 1 0 1 0) ["http://example.org/lion.jpg"],
        inl (false, "Downloaded file is empty", None)).
Proof.
  intros r net w.
  assert (H2 : headers_accepted r).
  { split; [cbn; lia|]. split; [reflexivity|]. exists 0%Z. split; [reflexivity | by vm_compute]. }
  split; [exact H2|].
  exact (download_empty_body_fails (fun _ => inl ".jpg") net "Lion"
           "http://example.org/lion.jpg" "/tmp/lion_image.jpg"
           w r eq_refl (lookup_empty _) eq_refl H2 eq_refl eq_refl).
Defined.

Lemma download_interrupted_leaves_partial_file_witness :
  let r := mkResponse 200 "OK" "http://example.org/lion.jpg"
             (Some "image/jpeg") (Some "4096") [[Byte.x01]]
             (Some (RequestException "Connection broken")) in
  let net := fun _ : string => GetReturns r in
  let w := mkWorld ∅ (mkStats 0 0 0 0) [] in
  headers_accepted r /\ body_within r
  /\ exists w' msg,
       _download_single_image (fun _ => inl ".jpg") net "Lion" "http://example.org/lion.jpg" w
       = (w', inl (false, msg, None))
       /\ fs w' = <[ "/tmp/lion_image.jpg" := [Byte.x01] ]> (fs w)
       /\ snd (_download_single_image (fun _ => inl ".jpg") net
                 "Lion" "http://example.org/lion.jpg" w')
          = inl (true, "File already exists", Some "/tmp/lion_image.jpg").
Proof.
  intros r net w.
  assert (H2 : headers_accepted r).
  { split; [cbn; lia|]. split; [reflexivity|].
    exists 4096%Z. split; [reflexivity | by vm_compute]. }
  assert (H3 : body_within r).
  { intros k. destruct k as [|[|k]]; by vm_compute. }
  split; [exact H2|]. split; [exact H3|].
  exact (download_interrupted_leaves_partial_file (fun _ => inl ".jpg") net
           "Lion" "http://example.org/lion.jpg" "/tmp/lion_image.jpg" w r
           (RequestException "Connection broken") eq_refl (lookup_empty _) eq_refl
           H2 H3 eq_refl).
Defined.

Lemma download_success_then_skip_witness :
  let r := mkResponse 200 "OK" "http://example.org/lion.jpg"
             (Some "image/jpeg") None [[Byte.x01]] None in
  let net := fun _ : string => GetReturns r in
  let w := mkWorld ∅ (mkStats 0 0 0 0) [] in
  let w' := mkWorld {[ "/tmp/lion_image.jpg" := [Byte.x01] ]}
                    (mkStats 1 1 0 0) ["http://example.org/lion.jpg"] in
  _download_single_image (fun _ => inl ".jpg") net "Lion" "http://example.org/lion.jpg" w
  = (w', inl (true, "Downloaded successfully (1 bytes)", Some "/tmp/lion_image.jpg"))
  /\ exists local_path,
       create_local_image_path (fun _ => inl ".jpg") "Lion" "http://example.org/lion.jpg"
       = inl local_path
       /\ Some "/tmp/lion_image.jpg" = Some local_path
       /\ _download_single_image (fun _ => inl ".jpg") net
            "Lion" "http://example.org/lion.jpg" w'
          = (mkWorld (fs w') (bump 1 0 0 1 (download_stats w')) (requests w'),
             inl (true, "File already exists", Some local_path)).
Proof.
  intros r net w w'.
  assert (H : _download_single_image (fun _ => inl ".jpg") net
                "Lion" "http://example.org/lion.jpg" w
              = (w', inl (true, "Downloaded successfully (1 bytes)",
                          Some "/tmp/lion_image.jpg"))) by reflexivity.
  split; [exact H|].
  exact (download_success_then_skip (fun _ => inl ".jpg") net
           "Lion" "http://example.org/lion.jpg" w w' _ _ H).
Defined.

